(** * quad-vscode: the region locator, the comment clean-up and the usage quota

    A shallow embedding of
    - [DocumentationService] (function location, end-of-function search,
      parameter extraction, already-documented check, clean-up,
      indentation, and the two methods [documentFunction] and
      [documentFile] that put them together),
    - [GeminiService] (key set-up, quota check, usage counters, usage
      statistics, [generateDocumentation], [suggestImprovements],
      [detectLanguage]), and
    - the extension's [handleError] and [escapeHtml],
    with the properties the specification states about them and further
    properties the code has.

    Modelling choices:
    - JavaScript strings are sequences of UTF-16 code units: lists of code
      units ([N]).  The patterns of the services are written without the
      [u] flag, so they too work on code units.
    - Line numbers are natural numbers; the counters of the quota are
      integers ([Z]).
    - A JavaScript exception is an explicit [Throw]: functions that can
      throw return a [result].
    - The services' methods that read the clock, the persisted state or
      the text-generation collaborator are computations in a small monad
      over an environment (what comes from outside) and a world (what the
      method can change).
    - What [documentFunction] and [documentFile] do at the host (messages,
      questions, progress reports, console lines, pauses) is a list of
      events; the user's answers, the settings and the cancellation token
      are read from outside. *)

From Stdlib Require Import ZArith NArith Ascii Lia Sorted.
From stdpp Require Import base decidable option list strings pretty.

Set Default Proof Using "Type".
Local Open Scope bool_scope.

(** ** JavaScript strings *)

Module JS.

Definition jschar : Type := N.
Abbreviation jsstring := (list N).

(** A code unit from an ASCII character literal, a string from an ASCII
    string literal. *)
Definition chr (a : ascii) : jschar := N_of_ascii a.
Definition js (s : string) : jsstring := N_of_ascii <$> String.list_ascii_of_string s.
Arguments chr a%_char.
Arguments js s%_string.

Definition LF : jschar := 10%N.

(** [===] on strings. *)
Definition streq (a b : jsstring) : bool := bool_decide (a = b).

(** ECMAScript LineTerminator: LF, CR, LS, PS. *)
Definition isLineTerminator (c : jschar) : bool :=
  (c =? 10)%N || (c =? 13)%N || (c =? 8232)%N || (c =? 8233)%N.

(** ECMAScript WhiteSpace or LineTerminator: what [String.prototype.trim]
    strips and what the class [\s] matches. *)
Definition isWhiteSpace (c : jschar) : bool :=
  (c =? 9)%N || (c =? 11)%N || (c =? 12)%N || (c =? 32)%N || (c =? 160)%N
  || (c =? 5760)%N || ((8192 <=? c)%N && (c <=? 8202)%N)
  || (c =? 8239)%N || (c =? 8287)%N || (c =? 12288)%N || (c =? 65279)%N
  || isLineTerminator c.

(** The class [\w]: [A-Za-z0-9_]. *)
Definition isWordChar (c : jschar) : bool :=
  ((65 <=? c)%N && (c <=? 90)%N) || ((97 <=? c)%N && (c <=? 122)%N)
  || ((48 <=? c)%N && (c <=? 57)%N) || (c =? 95)%N.

Fixpoint trimStart (s : jsstring) : jsstring :=
  match s with
  | [] => []
  | c :: s' => if isWhiteSpace c then trimStart s' else s
  end.

Definition trimEnd (s : jsstring) : jsstring := reverse (trimStart (reverse s)).

Definition trim (s : jsstring) : jsstring := trimEnd (trimStart s).

(** [s.startsWith(p)]: the first [p.length] units of [s] are [p]. *)
Definition startsWith (s p : jsstring) : bool :=
  bool_decide (take (length p) s = p).

(** [s.endsWith(p)]: the last [p.length] units of [s] are [p]. *)
Definition endsWith (s p : jsstring) : bool :=
  (length p <=? length s) && bool_decide (drop (length s - length p) s = p).

(** [s.includes(p)]. *)
Fixpoint includes (s p : jsstring) : bool :=
  startsWith s p ||
  match s with
  | [] => false
  | _ :: s' => includes s' p
  end.

(** [s.split(sep)] for a separator of one code unit (the only kind the
    services use): never an empty array. *)
Fixpoint split (sep : jschar) (s : jsstring) : list jsstring :=
  match s with
  | [] => [[]]
  | c :: s' =>
      if (c =? sep)%N then [] :: split sep s'
      else match split sep s' with
           | h :: t => (c :: h) :: t
           | [] => [[c]]
           end
  end.

(** [parts.join(sep)]. *)
Fixpoint join (sep : jsstring) (parts : list jsstring) : jsstring :=
  match parts with
  | [] => []
  | [p] => p
  | p :: rest => p ++ sep ++ join sep rest
  end.

(** A returned value or a thrown exception. *)
Inductive result (E A : Type) : Type :=
| Ok (a : A)
| Throw (e : E).
Arguments Ok {E A} a.
Arguments Throw {E A} e.

End JS.

(** ** Regular expressions

    A backtracking matcher in the continuation style of the ECMAScript
    specification, for the constructs the services' patterns use: literals,
    the classes [\s], [\w] and [[^)]], sequence, alternation, greedy [*],
    [+] and [?], one capturing group, [^] and [$] (with and without the
    [m] flag). *)

Module RegExp.
Import JS.

Inductive regex : Type :=
| REmpty
| RChar (c : jschar)
| RClass (p : jschar → bool)
| RSeq (r1 r2 : regex)
| RAlt (r1 r2 : regex)
| RStar (r : regex)
| RGroup (r : regex)
| RBol
| REol.

(** [r+] and [r?] (both greedy). *)
Definition RPlus (r : regex) : regex := RSeq r (RStar r).
Definition ROpt (r : regex) : regex := RAlt r REmpty.

(** A literal word. *)
Fixpoint RLit (s : jsstring) : regex :=
  match s with
  | [] => REmpty
  | c :: s' => RSeq (RChar c) (RLit s')
  end.

(** Concatenation of a list of pieces. *)
Fixpoint RCat (rs : list regex) : regex :=
  match rs with
  | [] => REmpty
  | r :: rs' => RSeq r (RCat rs')
  end.

(** The matcher state: the input before the current position (nearest
    unit first), the input from the current position on, and the text of
    capture 1 if the group has closed. *)
Record mstate : Type := MState {
  before : jsstring;
  after : jsstring;
  capture : option jsstring
}.

(** The loop of a greedy star: another round of the body as long as the
    round consumes input (the empty check of [RepeatMatcher]), else the
    continuation.  No more rounds than units of input are possible, which
    is what the counter starts from. *)
Fixpoint starLoop (body : mstate → (mstate → option mstate) → option mstate)
    (k : mstate → option mstate) (fuel : nat) (st0 : mstate) : option mstate :=
  match fuel with
  | O => k st0
  | S fuel' =>
      match body st0
              (λ st1, if length (after st1) <? length (after st0)
                      then starLoop body k fuel' st1 else None) with
      | Some res => Some res
      | None => k st0
      end
  end.

Section Matcher.
Variable multiline : bool.

Fixpoint rmatch (r : regex) (st : mstate) (k : mstate → option mstate)
  : option mstate :=
  match r with
  | REmpty => k st
  | RChar c =>
      match after st with
      | d :: rest =>
          if (d =? c)%N then k (MState (d :: before st) rest (capture st))
          else None
      | [] => None
      end
  | RClass p =>
      match after st with
      | d :: rest =>
          if p d then k (MState (d :: before st) rest (capture st))
          else None
      | [] => None
      end
  | RSeq r1 r2 => rmatch r1 st (λ st1, rmatch r2 st1 k)
  | RAlt r1 r2 =>
      match rmatch r1 st k with
      | Some res => Some res
      | None => rmatch r2 st k
      end
  | RStar r1 => starLoop (rmatch r1) k (S (length (after st))) st
  | RGroup r1 =>
      rmatch r1 st
        (λ st1, k (MState (before st1) (after st1)
                     (Some (take (length (after st) - length (after st1))
                              (after st)))))
  | RBol =>
      match before st with
      | [] => k st
      | c :: _ => if multiline && isLineTerminator c then k st else None
      end
  | REol =>
      match after st with
      | [] => k st
      | c :: _ => if multiline && isLineTerminator c then k st else None
      end
  end.

(** One attempt at the current position. *)
Definition match_here (r : regex) (st : mstate) : option mstate :=
  rmatch r st Some.

(** The leftmost match at or after the current position
    ([RegExpBuiltinExec] without the sticky flag). *)
Fixpoint search (r : regex) (bef aft : jsstring) : option (mstate * mstate) :=
  match match_here r (MState bef aft None) with
  | Some st' => Some (MState bef aft None, st')
  | None =>
      match aft with
      | [] => None
      | c :: aft' => search r (c :: bef) aft'
      end
  end.

End Matcher.

(** The result of [s.match(re)] for a pattern without the [g] flag: the
    index, the matched text ([m[0]]) and capture 1 ([m[1]], [None] for
    [undefined]). *)
Record match_result : Type := MatchResult {
  m_index : nat;
  m_text : jsstring;
  m_group1 : option jsstring
}.

Definition exec (multiline : bool) (r : regex) (s : jsstring) : option match_result :=
  match search multiline r [] s with
  | Some (st0, st1) =>
      Some (MatchResult (length (before st0))
              (take (length (after st0) - length (after st1)) (after st0))
              (capture st1))
  | None => None
  end.

(** [s.replace(re, replacement)] for a pattern with the [g] flag and a
    replacement text without [$] patterns: every match, leftmost first and
    never overlapping, is replaced.  After an empty match the search
    resumes one unit further. *)
Fixpoint replace_loop (multiline : bool) (r : regex) (replacement : jsstring)
    (fuel : nat) (bef aft : jsstring) : jsstring :=
  match fuel with
  | O => aft
  | S fuel' =>
      match match_here multiline r (MState bef aft None) with
      | Some st' =>
          if length (after st') <? length aft
          then replacement ++
               replace_loop multiline r replacement fuel' (before st') (after st')
          else
            match aft with
            | [] => replacement
            | c :: aft' =>
                replacement ++ c ::
                replace_loop multiline r replacement fuel' (c :: bef) aft'
            end
      | None =>
          match aft with
          | [] => []
          | c :: aft' =>
              c :: replace_loop multiline r replacement fuel' (c :: bef) aft'
          end
      end
  end.

Definition replace_all (multiline : bool) (r : regex) (s replacement : jsstring)
  : jsstring :=
  replace_loop multiline r replacement (S (length s)) [] s.

End RegExp.

(** ** DocumentationService *)

Module DocumentationService.
Import JS RegExp.

(** What the locator can throw: the engine's [TypeError] (a property read
    on [undefined], an iteration over a value that is not iterable) and the
    host's error for a line that does not exist. *)
Inductive exn : Type :=
| TypeError
| IllegalLine.

(** [vscode.Position]. *)
Record Position : Type := { line : nat; character : nat }.

(** [vscode.TextDocument], as far as the service reads it: the texts of
    its lines (without line breaks). *)
Record TextDocument : Type := { lineTexts : list jsstring }.

(** [document.lineAt(n).text]; the host throws on a line that does not
    exist. *)
Definition lineAt (document : TextDocument) (n : nat) : result exn jsstring :=
  match lineTexts document !! n with
  | Some t => Ok t
  | None => Throw IllegalLine
  end.

(** [ParsedFunction], without the optional [returnType] and [className],
    which the service never sets. *)
Record ParsedFunction : Type := {
  name : jsstring;
  startLine : nat;
  endLine : nat;
  parameters : list jsstring;
  isAsync : bool;
  isMethod : bool;
  code : jsstring
}.

(** The own properties of [LANGUAGE_STYLE_MAP]. *)
Definition LANGUAGE_STYLE_MAP : list (jsstring * jsstring) :=
  [ (js "typescript", js "tsdoc");
    (js "javascript", js "jsdoc");
    (js "typescriptreact", js "tsdoc");
    (js "javascriptreact", js "jsdoc");
    (js "python", js "google");
    (js "java", js "javadoc");
    (js "kotlin", js "javadoc");
    (js "go", js "godoc");
    (js "rust", js "rustdoc");
    (js "cpp", js "doxygen");
    (js "c", js "doxygen");
    (js "csharp", js "xmldoc");
    (js "php", js "phpdoc");
    (js "ruby", js "yard");
    (js "swift", js "swift") ].

(** Lookup of an own property in a table written as an object literal. *)
Fixpoint ownProperty {A : Type} (table : list (jsstring * A)) (key : jsstring)
  : option A :=
  match table with
  | [] => None
  | (k, v) :: rest => if streq k key then Some v else ownProperty rest key
  end.

(** The property names every object literal inherits from
    [Object.prototype]; [table[key]] finds there a function (or, for
    [__proto__], the prototype object) when [key] is one of them and not an
    own property. *)
Definition objectPrototypeKeys : list jsstring :=
  [ js "constructor"; js "__proto__"; js "hasOwnProperty";
    js "isPrototypeOf"; js "propertyIsEnumerable"; js "toLocaleString";
    js "toString"; js "valueOf"; js "__defineGetter__";
    js "__defineSetter__"; js "__lookupGetter__"; js "__lookupSetter__" ].

Definition inheritedKey (key : jsstring) : bool :=
  existsb (streq key) objectPrototypeKeys.

(** Pattern pieces. *)
Definition ws : regex := RClass isWhiteSpace.
Definition wd : regex := RClass isWordChar.
Definition lit (s : string) : regex := RLit (js s).
Arguments lit s%_string.
Definition notCloseParen (c : jschar) : bool := negb (c =? chr ")")%N.

(** The table inside [getFunctionPatterns]. *)
Definition functionPatternTable : list (jsstring * list regex) :=
  [ (js "typescript",
      [ RCat [RBol; RStar ws; ROpt (RSeq (lit "export") (RPlus ws));
              ROpt (RSeq (lit "async") (RPlus ws)); lit "function"; RPlus ws;
              RGroup (RPlus wd)];
        RCat [RBol; RStar ws; ROpt (RSeq (lit "export") (RPlus ws));
              lit "const"; RPlus ws; RGroup (RPlus wd); RStar ws; lit "=";
              RStar ws; ROpt (RSeq (lit "async") (RPlus ws)); lit "("];
        RCat [RBol; RStar ws;
              ROpt (RAlt (lit "public") (RAlt (lit "private") (lit "protected")));
              RStar ws; ROpt (RSeq (lit "async") (RPlus ws));
              RGroup (RPlus wd); RStar ws; lit "("] ]);
    (js "javascript",
      [ RCat [RBol; RStar ws; ROpt (RSeq (lit "export") (RPlus ws));
              ROpt (RSeq (lit "async") (RPlus ws)); lit "function"; RPlus ws;
              RGroup (RPlus wd)];
        RCat [RBol; RStar ws; ROpt (RSeq (lit "export") (RPlus ws));
              RAlt (lit "const") (RAlt (lit "let") (lit "var")); RPlus ws;
              RGroup (RPlus wd); RStar ws; lit "="; RStar ws;
              ROpt (RSeq (lit "async") (RPlus ws)); lit "("];
        RCat [RBol; RStar ws; RGroup (RPlus wd); RStar ws; lit ":"; RStar ws;
              ROpt (RSeq (lit "async") (RPlus ws)); lit "function"] ]);
    (js "python",
      [ RCat [RBol; RStar ws; ROpt (RSeq (lit "async") (RPlus ws)); lit "def";
              RPlus ws; RGroup (RPlus wd); RStar ws; lit "("] ]);
    (js "java",
      [ RCat [RBol; RStar ws;
              ROpt (RAlt (lit "public") (RAlt (lit "private") (lit "protected")));
              RStar ws; ROpt (lit "static"); RStar ws; RPlus wd; RPlus ws;
              RGroup (RPlus wd); RStar ws; lit "("] ]);
    (js "go",
      [ RCat [RBol; RStar ws; lit "func"; RPlus ws;
              ROpt (RCat [lit "("; RPlus wd; RPlus ws; ROpt (lit "*");
                          RPlus wd; lit ")"; RPlus ws]);
              RGroup (RPlus wd); RStar ws; lit "("] ]);
    (js "rust",
      [ RCat [RBol; RStar ws; ROpt (RSeq (lit "pub") (RPlus ws));
              ROpt (RSeq (lit "async") (RPlus ws)); lit "fn"; RPlus ws;
              RGroup (RPlus wd)] ]);
    (js "cpp",
      [ RCat [RBol; RStar ws; RPlus (RSeq (RPlus wd) (RPlus ws));
              RGroup (RPlus wd); RStar ws; lit "(";
              RStar (RClass notCloseParen); lit ")"; RStar ws;
              ROpt (lit "const"); RStar ws; ROpt (lit "{"); REol] ]);
    (js "csharp",
      [ RCat [RBol; RStar ws;
              ROpt (RAlt (lit "public")
                      (RAlt (lit "private")
                         (RAlt (lit "protected") (lit "internal"))));
              RStar ws; ROpt (lit "static"); RStar ws; RPlus wd; RPlus ws;
              RGroup (RPlus wd); RStar ws; lit "("] ]);
    (js "php",
      [ RCat [RBol; RStar ws;
              ROpt (RAlt (lit "public") (RAlt (lit "private") (lit "protected")));
              RStar ws; ROpt (lit "static"); RStar ws; lit "function"; RPlus ws;
              RGroup (RPlus wd)] ]);
    (js "ruby",
      [ RCat [RBol; RStar ws; lit "def"; RPlus ws; RGroup (RPlus wd)] ]) ].

(** [patterns[language] || patterns.javascript].  [None] stands for a value
    that is not a pattern list: the member of [Object.prototype] that the
    lookup finds for a language named like one (it is truthy, so the
    default is not taken). *)
Definition getFunctionPatterns (language : jsstring) : option (list regex) :=
  match ownProperty functionPatternTable language with
  | Some patterns => Some patterns
  | None =>
      if inheritedKey language then None
      else ownProperty functionPatternTable (js "javascript")
  end.

(** The length of capture 1 of the pattern: caret, then a group of any
    number of white space units; 0 without a match. *)
Definition getIndentLevel (line : jsstring) : nat :=
  match exec false (RSeq RBol (RGroup (RStar ws))) line with
  | Some m => match m_group1 m with Some g => length g | None => 0 end
  | None => 0
  end.

(** The Python loop of [findFunctionEnd], over the lines from [i] on:
    the value returned inside the loop, if any. *)
Fixpoint pythonScan (startIndent : nat) (rest : list jsstring) (i : nat)
  : option nat :=
  match rest with
  | [] => None
  | l :: rest' =>
      let line := trim l in
      if streq line [] || startsWith line (js "#")
      then pythonScan startIndent rest' (S i)
      else
        let currentIndent := getIndentLevel l in
        if (currentIndent <=? startIndent) && negb (streq line [])
        then Some (i - 1)
        else pythonScan startIndent rest' (S i)
  end.

(** One character of the brace loop.  (The source iterates by code point;
    no half of a surrogate pair is a brace, so the counts are the same by
    code unit.) *)
Definition braceStep (acc : Z * bool) (char : jschar) : Z * bool :=
  let '(braceCount, started) := acc in
  if (char =? chr "{")%N then ((braceCount + 1)%Z, true)
  else if (char =? chr "}")%N then ((braceCount - 1)%Z, started)
  else (braceCount, started).

(** The brace loop of [findFunctionEnd], over the lines from [i] on: the
    value returned inside the loop, if any. *)
Fixpoint braceScan (rest : list jsstring) (i : nat) (braceCount : Z)
    (started : bool) : option nat :=
  match rest with
  | [] => None
  | line :: rest' =>
      let '(braceCount', started') := foldl braceStep (braceCount, started) line in
      if started' && (braceCount' =? 0)%Z then Some i
      else braceScan rest' (S i) braceCount' started'
  end.

Definition findFunctionEnd (lines : list jsstring) (startLine : nat)
    (language : jsstring) : result exn nat :=
  if streq language (js "python") then
    match lines !! startLine with
    | None => Throw TypeError
    | Some l0 =>
        let startIndent := getIndentLevel l0 in
        match pythonScan startIndent (drop (startLine + 1) lines) (startLine + 1) with
        | Some e => Ok e
        | None => Ok (length lines - 1)
        end
    end
  else
    match braceScan (drop startLine lines) startLine 0%Z false with
    | Some e => Ok e
    | None => Ok startLine
    end.

(** The pattern of [extractParameters]: an opening parenthesis, a group
    of any number of units other than a closing parenthesis, a closing
    parenthesis. *)
Definition parameterPattern : regex :=
  RCat [lit "("; RGroup (RStar (RClass notCloseParen)); lit ")"].

Definition extractParameters (line language : jsstring) : list jsstring :=
  match exec false parameterPattern line with
  | None => []
  | Some m =>
      let paramsStr := trim (default [] (m_group1 m)) in
      if streq paramsStr [] then []
      else trim <$> split (chr ",") paramsStr
  end.

(** [lines.slice(from, to)]. *)
Definition slice (lines : list jsstring) (from to : nat) : list jsstring :=
  take (to - from) (drop from lines).

(** [match[1] || 'anonymous']. *)
Definition nameOf (m : match_result) : jsstring :=
  match m_group1 m with
  | Some (c :: g) => c :: g
  | _ => js "anonymous"
  end.

(** The body of the outer loop of [findFunctionAtPosition] at line [i]:
    the patterns are tried in order on [lines[i]]. *)
Fixpoint tryPatterns (lines : list jsstring) (language : jsstring) (i : nat)
    (patterns : list regex) : result exn (option ParsedFunction) :=
  match patterns with
  | [] => Ok None
  | pattern :: patterns' =>
      match lines !! i with
      | None => Throw TypeError
      | Some line =>
          match exec false pattern line with
          | Some m =>
              match findFunctionEnd lines i language with
              | Throw e => Throw e
              | Ok endLine =>
                  Ok (Some {| name := nameOf m;
                              startLine := i;
                              endLine := endLine;
                              parameters := extractParameters line language;
                              isAsync := includes line (js "async");
                              isMethod := false;
                              code := join [LF] (slice lines i (endLine + 1)) |})
              end
          | None => tryPatterns lines language i patterns'
          end
      end
  end.

(** The outer loop, at line [lo + d] and then downwards to line [lo]. *)
Fixpoint scanBack (lines : list jsstring) (language : jsstring)
    (patterns : option (list regex)) (lo d : nat)
  : result exn (option ParsedFunction) :=
  match patterns with
  | None => Throw TypeError
  | Some ps =>
      match tryPatterns lines language (lo + d) ps with
      | Throw e => Throw e
      | Ok (Some f) => Ok (Some f)
      | Ok None =>
          match d with
          | O => Ok None
          | S d' => scanBack lines language patterns lo d'
          end
      end
  end.

Definition findFunctionAtPosition (text : jsstring) (position : Position)
    (language : jsstring) : result exn (option ParsedFunction) :=
  let lines := split LF text in
  let lineNumber := line position in
  let patterns := getFunctionPatterns language in
  let lo := Nat.max 0 (lineNumber - 20) in
  scanBack lines language patterns lo (lineNumber - lo).

Definition hasDocumentation (document : TextDocument) (lineNumber : nat)
  : result exn bool :=
  match lineNumber with
  | O => Ok false
  | S _ =>
      match lineAt document (lineNumber - 1) with
      | Throw e => Throw e
      | Ok t =>
          let prevLine := trim t in
          Ok (endsWith prevLine (js "*/")
              || endsWith prevLine [34; 34; 34]%N
              || endsWith prevLine (js "'''")
              || startsWith prevLine (js "///"))
      end
  end.

(** The two fence patterns of [cleanDocumentation], both with flags [gm]. *)
Definition fenceOpen : regex :=
  RCat [RBol; lit "```"; RStar wd; ROpt (RChar LF)].
Definition fenceClose : regex := RSeq (lit "```") REol.

Definition stripFences (doc : jsstring) : jsstring :=
  trim (replace_all true fenceClose (replace_all true fenceOpen doc []) []).

Definition cleanDocumentation (doc style : jsstring) : jsstring :=
  let cleaned := stripFences doc in
  if streq style (js "jsdoc") || streq style (js "tsdoc")
     || streq style (js "javadoc")
  then
    let cleaned1 :=
      if negb (startsWith cleaned (js "/**")) then js "/**" ++ [LF] ++ cleaned
      else cleaned in
    if negb (endsWith cleaned1 (js "*/")) then cleaned1 ++ [LF] ++ js " */"
    else cleaned1
  else cleaned.

(** The loop of [findAllFunctions] over the [n] lines from line [i] on:
    on each line the patterns are tried in order and the first that matches
    adds a function. *)
Fixpoint allFrom (lines : list jsstring) (language : jsstring)
    (patterns : option (list regex)) (i n : nat)
  : result exn (list ParsedFunction) :=
  match n with
  | O => Ok []
  | S n' =>
      match patterns with
      | None => Throw TypeError
      | Some ps =>
          match tryPatterns lines language i ps with
          | Throw e => Throw e
          | Ok found =>
              match allFrom lines language patterns (S i) n' with
              | Throw e => Throw e
              | Ok functions =>
                  Ok (match found with
                      | Some f => f :: functions
                      | None => functions
                      end)
              end
          end
      end
  end.

Definition findAllFunctions (text language : jsstring)
  : result exn (list ParsedFunction) :=
  let lines := split LF text in
  let patterns := getFunctionPatterns language in
  allFrom lines language patterns 0 (length lines).

(** [indentDocumentation]: both arms of the conditional on the index are
    the same. *)
Definition indentDocumentation (doc indentation : jsstring) : jsstring :=
  join [LF]
    (imap (λ index line,
             if index =? 0 then indentation ++ line else indentation ++ line)
       (split LF doc)).

End DocumentationService.

(** ** GeminiService *)

Module GeminiService.
Import JS.

Record UsageStats : Type := {
  todayRequests : Z;
  totalRequests : Z;
  dailyLimit : Z;
  hasOwnKey : bool;
  poolRemaining : Z
}.

Record DocumentationRequest : Type := {
  code : jsstring;
  language : jsstring;
  style : jsstring;
  includeExamples : bool;
  includeTypes : bool
}.

(** [context.globalState]: the three keys the service keeps there, each at
    the type the service reads and writes it with; [None] is a key never
    written.  Counters are integers. *)
Record GlobalState : Type := {
  quad_lastUsageDate : option jsstring;
  quad_todayUsage : option Z;
  quad_totalUsage : option Z
}.

(** The handle [getGenerativeModel] returns. *)
Record GenerativeModel : Type := { modelKey : jsstring; modelName : jsstring }.

(** The fields of the service object. *)
Record Service : Type := {
  model : option GenerativeModel;
  apiKey : jsstring;
  isUsingPool : bool
}.

Definition DAILY_POOL_LIMIT : Z := 20.
Definition DAILY_OWN_KEY_LIMIT : Z := 1500.

(** What a call can throw: an [Error] object with its message, or any
    other value. *)
Inductive thrown : Type :=
| ErrorObject (message : jsstring)
| OtherValue.

(** What the service reads from outside during one call: the clock
    ([new Date().toDateString()]) and the outcome of the text-generation
    call for a model and a prompt. *)
Record Env : Type := {
  today : jsstring;
  generateContent : GenerativeModel → jsstring → result thrown jsstring
}.

(** What the service changes: the persisted state, and the external calls
    made so far (the prompts, oldest first). *)
Record World : Type := {
  globalState : GlobalState;
  calls : list jsstring
}.

(** Computations that read [Env], change [World] and may throw. *)
Definition M (A : Type) : Type := Env → World → result thrown A * World.

Definition ret {A : Type} (a : A) : M A := λ _ w, (Ok a, w).
Definition throw {A : Type} (e : thrown) : M A := λ _ w, (Throw e, w).
Definition bind {A B : Type} (f : A → M B) (m : M A) : M B :=
  λ env w,
    match m env w with
    | (Ok a, w') => f a env w'
    | (Throw e, w') => (Throw e, w')
    end.
#[global] Instance M_ret : MRet M := @ret.
#[global] Instance M_bind : MBind M := @bind.
Definition try_catch {A : Type} (m : M A) (handler : thrown → M A) : M A :=
  λ env w,
    match m env w with
    | (Ok a, w') => (Ok a, w')
    | (Throw e, w') => handler e env w'
    end.


(** [new Date().toDateString()]. *)
Definition toDateString : M jsstring := λ env w, (Ok (today env), w).

(** [globalState.get(key, defaultValue)] and [globalState.update(key, value)]
    for the three keys.  A later [get] sees what an [update] wrote. *)
Definition get_lastUsageDate (defaultValue : jsstring) : M jsstring :=
  λ _ w, (Ok (default defaultValue (quad_lastUsageDate (globalState w))), w).
Definition get_todayUsage (defaultValue : Z) : M Z :=
  λ _ w, (Ok (default defaultValue (quad_todayUsage (globalState w))), w).
Definition get_totalUsage (defaultValue : Z) : M Z :=
  λ _ w, (Ok (default defaultValue (quad_totalUsage (globalState w))), w).

Definition update_lastUsageDate (value : jsstring) : M unit :=
  λ _ w, (Ok tt,
          {| globalState :=
               {| quad_lastUsageDate := Some value;
                  quad_todayUsage := quad_todayUsage (globalState w);
                  quad_totalUsage := quad_totalUsage (globalState w) |};
             calls := calls w |}).
Definition update_todayUsage (value : Z) : M unit :=
  λ _ w, (Ok tt,
          {| globalState :=
               {| quad_lastUsageDate := quad_lastUsageDate (globalState w);
                  quad_todayUsage := Some value;
                  quad_totalUsage := quad_totalUsage (globalState w) |};
             calls := calls w |}).
Definition update_totalUsage (value : Z) : M unit :=
  λ _ w, (Ok tt,
          {| globalState :=
               {| quad_lastUsageDate := quad_lastUsageDate (globalState w);
                  quad_todayUsage := quad_todayUsage (globalState w);
                  quad_totalUsage := Some value |};
             calls := calls w |}).

(** [await model.generateContent(prompt)] and the reading of the response
    text: the call is recorded, its outcome comes from outside. *)
Definition callModel (m : GenerativeModel) (prompt : jsstring) : M jsstring :=
  λ env w, (generateContent env m prompt,
            {| globalState := globalState w; calls := calls w ++ [prompt] |}).

(** [initializeApiKey] (with [initializeModel], taken not to fail), from
    the two settings it reads.  [QUAD_POOL_KEY] is the text the build puts
    in place of the placeholder. *)
Definition initializeApiKey (QUAD_POOL_KEY userKey : jsstring) (usePool : bool)
  : Service :=
  let '(key, pool) :=
    if negb (streq userKey []) then (userKey, false)
    else if usePool then (QUAD_POOL_KEY, true)
    else ([], false) in
  {| model :=
       if negb (streq key []) && negb (streq key (js "QUAD_POOL_PLACEHOLDER"))
       then Some {| modelKey := key; modelName := js "gemini-pro" |}
       else None;
     apiKey := key;
     isUsingPool := pool |}.

(** The pool key as the source has it, and the service its constructor
    builds from the two settings. *)
Definition QUAD_POOL_KEY : jsstring := js "QUAD_POOL_PLACEHOLDER".

Definition newGeminiService (userKey : jsstring) (usePool : bool) : Service :=
  initializeApiKey QUAD_POOL_KEY userKey usePool.

Definition isReady (svc : Service) : bool :=
  match model svc with Some _ => true | None => false end.

Definition checkQuota (svc : Service) : M bool :=
  today ← toDateString;
  lastDate ← get_lastUsageDate [];
  todayCount ← get_todayUsage 0;
  if negb (streq lastDate today) then
    update_lastUsageDate today;;
    update_todayUsage 0;;
    ret true
  else
    let limit := if isUsingPool svc then DAILY_POOL_LIMIT else DAILY_OWN_KEY_LIMIT in
    ret (todayCount <? limit)%Z.

Definition incrementUsage : M unit :=
  todayCount ← get_todayUsage 0;
  totalCount ← get_totalUsage 0;
  update_todayUsage (todayCount + 1);;
  update_totalUsage (totalCount + 1).

Definition getUsageStats (svc : Service) : M UsageStats :=
  today ← toDateString;
  lastDate ← get_lastUsageDate [];
  todayRequests0 ← get_todayUsage 0;
  let todayRequests := if negb (streq lastDate today) then 0%Z else todayRequests0 in
  totalRequests ← get_totalUsage 0;
  let dailyLimit := if isUsingPool svc then DAILY_POOL_LIMIT else DAILY_OWN_KEY_LIMIT in
  ret {| todayRequests := todayRequests;
         totalRequests := totalRequests;
         dailyLimit := dailyLimit;
         hasOwnKey := negb (isUsingPool svc);
         poolRemaining :=
           if isUsingPool svc
           then Z.max 0 (DAILY_POOL_LIMIT - todayRequests)
           else 0%Z |}.

Section Generation.

(** The prompt text is built from the request alone; its wording plays no
    part in what follows. *)
Variable buildDocumentationPrompt : DocumentationRequest → jsstring.

(** [generateDocumentation] (its cancellation token is never read). *)
Definition generateDocumentation (svc : Service) (request : DocumentationRequest)
  : M jsstring :=
  match model svc with
  | None => throw (ErrorObject (js "API_KEY: Gemini API key not configured"))
  | Some m =>
      quotaOk ← checkQuota svc;
      if negb quotaOk
      then throw (ErrorObject (js "QUOTA: Daily request limit exceeded"))
      else
        let prompt := buildDocumentationPrompt request in
        try_catch
          (text ← callModel m prompt;
           incrementUsage;;
           ret text)
          (λ error,
             match error with
             | ErrorObject message =>
                 if includes message (js "429")
                 then throw (ErrorObject
                               (js "QUOTA: Rate limit exceeded. Please try again later."))
                 else throw error
             | OtherValue => throw error
             end)
  end.

End Generation.

(** [updateApiKey] (with [initializeModel], taken not to fail). *)
Definition updateApiKey (svc : Service) (newKey : jsstring) : Service :=
  {| model := Some {| modelKey := newKey; modelName := js "gemini-pro" |};
     apiKey := newKey;
     isUsingPool := false |}.

(** The prompt of [suggestImprovements]. *)
Definition improvementPrompt (code programmingLanguage : jsstring) : jsstring :=
  js "You are a senior software engineer conducting a code review." ++ [LF] ++
  [LF] ++
  js "Analyze this " ++ programmingLanguage ++
  js " code and suggest improvements." ++ [LF] ++
  [LF] ++
  js "Code to review:" ++ [LF] ++
  js "```" ++ programmingLanguage ++ [LF] ++
  code ++ [LF] ++
  js "```" ++ [LF] ++
  [LF] ++
  js "Provide suggestions in these categories:" ++ [LF] ++
  js "1. **Performance**: Any performance optimizations" ++ [LF] ++
  js "2. **Readability**: Code clarity improvements" ++ [LF] ++
  js "3. **Best Practices**: Language-specific best practices" ++ [LF] ++
  js "4. **Security**: Any security concerns" ++ [LF] ++
  js "5. **Maintainability**: Long-term maintenance considerations" ++ [LF] ++
  [LF] ++
  js "For each suggestion:" ++ [LF] ++
  js "- Explain why it's an improvement" ++ [LF] ++
  js "- Show the improved code snippet" ++ [LF] ++
  [LF] ++
  js "Be specific and actionable. Only suggest improvements that add real value.".

(** [suggestImprovements] (its cancellation token is never read). *)
Definition suggestImprovements (svc : Service)
    (code programmingLanguage : jsstring) : M jsstring :=
  match model svc with
  | None => throw (ErrorObject (js "API_KEY: Gemini API key not configured"))
  | Some m =>
      quotaOk ← checkQuota svc;
      if negb quotaOk
      then throw (ErrorObject (js "QUOTA: Daily request limit exceeded"))
      else
        let prompt := improvementPrompt code programmingLanguage in
        try_catch
          (text ← callModel m prompt;
           incrementUsage;;
           ret text)
          (λ error,
             match error with
             | ErrorObject message =>
                 if includes message (js "429")
                 then throw (ErrorObject
                               (js "QUOTA: Rate limit exceeded. Please try again later."))
                 else throw error
             | OtherValue => throw error
             end)
  end.

(** A generation method ([generateDocumentation], [suggestImprovements])
    is suspended once, at [await this.model.generateContent(prompt)], and
    other calls on the same service can run while it waits.
    [beforeAwait] is what runs up to the suspension, for the prompt the
    method builds: the two checks and the start of the external call.
    [afterAwait] is what runs when the call resumes with the outcome of the
    external call: the increment and the return, or the catch block. *)
Definition beforeAwait (svc : Service) (prompt : jsstring) : M GenerativeModel :=
  match model svc with
  | None => throw (ErrorObject (js "API_KEY: Gemini API key not configured"))
  | Some m =>
      quotaOk ← checkQuota svc;
      if negb quotaOk
      then throw (ErrorObject (js "QUOTA: Daily request limit exceeded"))
      else
        λ _ w, (Ok m, {| globalState := globalState w;
                         calls := calls w ++ [prompt] |})
  end.

Definition afterAwait (outcome : result thrown jsstring) : M jsstring :=
  match outcome with
  | Ok text =>
      incrementUsage;;
      ret text
  | Throw error =>
      match error with
      | ErrorObject message =>
          if includes message (js "429")
          then throw (ErrorObject
                        (js "QUOTA: Rate limit exceeded. Please try again later."))
          else throw error
      | OtherValue => throw error
      end
  end.

(** The list inside [detectLanguage]. *)
Definition validLanguages : list jsstring :=
  [ js "english"; js "telugu"; js "hindi"; js "tamil"; js "kannada";
    js "malayalam"; js "marathi"; js "bengali"; js "gujarati"; js "punjabi";
    js "spanish"; js "french"; js "german"; js "portuguese"; js "chinese";
    js "japanese"; js "korean"; js "arabic"; js "russian" ].

(** The prompt of [detectLanguage], around the first 100 units of the text. *)
Definition detectionPrompt (text : jsstring) : jsstring :=
  js "Detect the language of this text and respond with ONLY the language name in lowercase (e.g., "
  ++ [34%N] ++ js "telugu" ++ [34%N] ++ js ", "
  ++ [34%N] ++ js "hindi" ++ [34%N] ++ js ", "
  ++ [34%N] ++ js "english" ++ [34%N] ++ js "):" ++ [LF] ++
  [LF] ++
  [34%N] ++ take 100 text ++ [34%N].

Section Detection.

(** [String.prototype.toLowerCase], the engine's mapping of the Unicode
    letters. *)
Variable toLowerCase : jsstring → jsstring.

Definition detectLanguage (svc : Service) (text : jsstring) : M jsstring :=
  match model svc with
  | None => ret (js "english")
  | Some m =>
      let prompt := detectionPrompt text in
      try_catch
        (response ← callModel m prompt;
         let detected := toLowerCase (trim response) in
         ret (if existsb (streq detected) validLanguages
              then detected else js "english"))
        (λ _, ret (js "english"))
  end.

End Detection.

End GeminiService.

(** ** DocumentationService: [documentFunction] and [documentFile] *)

Module Orchestrator.
Import JS RegExp DocumentationService GeminiService.

(** What the two methods can throw: what the locator throws, or what the
    generation call throws. *)
Inductive failure : Type :=
| LocatorError (e : exn)
| ServiceError (e : thrown).

Record DocumentationResult : Type := {
  position : Position;
  documentation : jsstring;
  functionName : jsstring
}.

(** [vscode.TextDocument], as the two methods read it: the language
    identifier, the whole text ([getText()]) and the lines ([lineAt]). *)
Record EditorDocument : Type := {
  languageId : jsstring;
  getText : jsstring;
  textDocument : TextDocument
}.

(** The operand pair of a division whose quotient is only passed on. *)
Record quotient : Type := { dividend : nat; divisor : nat }.

(** What the methods do to the host, in order: a warning shown without
    waiting, a warning with buttons whose answer is awaited, an information
    message, a progress report, a line on the error console, a pause. *)
Inductive event : Type :=
| WarningMessage (message : jsstring)
| Question (message : jsstring) (items : list jsstring)
| InformationMessage (message : jsstring)
| ProgressReport (message : jsstring) (increment : quotient)
| ConsoleError (message : jsstring) (error : failure)
| Delay (milliseconds : nat).

(** What a method reads from outside while it runs: the three settings of
    the [quad] section ([None] for a setting that is not set), the button
    the user picks for a question ([None] when the message is dismissed),
    and what the generation service reads. *)
Record Host : Type := {
  quad_documentationStyle : option jsstring;
  quad_includeExamples : option bool;
  quad_includeTypes : option bool;
  answer : jsstring → list jsstring → option jsstring;
  serviceEnv : Env
}.

(** What a method changes: the world of the generation service and the
    events at the host (oldest first). *)
Record Session : Type := {
  world : World;
  events : list event
}.

(** Computations that read [Host], change [Session] and may throw. *)
Definition H (A : Type) : Type := Host → Session → result failure A * Session.

Definition pure {A : Type} (a : A) : H A := λ _ s, (Ok a, s).
Definition bindH {A B : Type} (f : A → H B) (m : H A) : H B :=
  λ host s,
    match m host s with
    | (Ok a, s') => f a host s'
    | (Throw e, s') => (Throw e, s')
    end.
#[global] Instance H_bind : MBind H := @bindH.

(** A call into the locator: it changes nothing. *)
Definition locator {A : Type} (r : result exn A) : H A :=
  λ _ s,
    (match r with Ok a => Ok a | Throw e => Throw (LocatorError e) end, s).

(** A call into the generation service. *)
Definition service {A : Type} (m : M A) : H A :=
  λ host s,
    match m (serviceEnv host) (world s) with
    | (Ok a, w') => (Ok a, {| world := w'; events := events s |})
    | (Throw e, w') =>
        (Throw (ServiceError e), {| world := w'; events := events s |})
    end.

Definition emit (ev : event) (s : Session) : Session :=
  {| world := world s; events := events s ++ [ev] |}.

Definition showWarningMessage (message : jsstring) : H unit :=
  λ _ s, (Ok tt, emit (WarningMessage message) s).

Definition askWarningMessage (message : jsstring) (items : list jsstring)
  : H (option jsstring) :=
  λ host s, (Ok (answer host message items), emit (Question message items) s).

Definition getConfiguration : H Host := λ host s, (Ok host, s).

(** [LANGUAGE_STYLE_MAP[language] || 'jsdoc'].  (For a language named like
    a member of [Object.prototype] the lookup gives that member and not a
    text; [documentFunction] has thrown before it gets there.) *)
Definition styleOf (language : jsstring) : jsstring :=
  match ownProperty LANGUAGE_STYLE_MAP language with
  | Some style => style
  | None => js "jsdoc"
  end.

(** The text matched by caret and any number of white space units, or the
    empty text. *)
Definition leadingWhiteSpace (text : jsstring) : jsstring :=
  match exec false (RSeq RBol (RStar ws)) text with
  | Some m => m_text m
  | None => []
  end.

Definition replaceQuestion (func : ParsedFunction) : jsstring :=
  js "Function " ++ [34%N] ++ name func ++ [34%N]
  ++ js " already has documentation. Replace it?".

Section Methods.

Variable buildDocumentationPrompt : DocumentationRequest → jsstring.

(** [documentFunction] (its cancellation token is only handed to
    [generateDocumentation], which never reads it). *)
Definition documentFunction (svc : Service) (document : EditorDocument)
    (position : Position) : H (option DocumentationResult) :=
  let language := languageId document in
  let text := getText document in
  found ← locator (findFunctionAtPosition text position language);
  match found with
  | None =>
      showWarningMessage (js "No function found at cursor position");;
      pure None
  | Some func =>
      documented ← locator (hasDocumentation (textDocument document)
                              (startLine func));
      proceed ← (if documented : bool then
                   action ← askWarningMessage (replaceQuestion func)
                              [js "Replace"; js "Cancel"];
                   pure (match action with
                         | Some item => streq item (js "Replace")
                         | None => false
                         end)
                 else pure true);
      if negb proceed then pure None
      else
        config ← getConfiguration;
        let style0 := default (js "auto") (quad_documentationStyle config) in
        let style :=
          if streq style0 (js "auto") then styleOf language else style0 in
        documentation ←
          service (generateDocumentation buildDocumentationPrompt svc
                     {| GeminiService.code := DocumentationService.code func;
                        GeminiService.language := language;
                        GeminiService.style := style;
                        includeExamples :=
                          default true (quad_includeExamples config);
                        includeTypes :=
                          default true (quad_includeTypes config) |});
        let cleanedDoc := cleanDocumentation documentation style in
        lineText ← locator (lineAt (textDocument document) (startLine func));
        let indentation := leadingWhiteSpace lineText in
        let indentedDoc := indentDocumentation cleanedDoc indentation in
        pure (Some {| position := {| line := startLine func; character := 0 |};
                      documentation := indentedDoc;
                      functionName := name func |})
  end.

(** [functions.filter((func) => !this.hasDocumentation(...))]. *)
Fixpoint filterUndocumented (document : TextDocument)
    (functions : list ParsedFunction) : result exn (list ParsedFunction) :=
  match functions with
  | [] => Ok []
  | func :: rest =>
      match hasDocumentation document (startLine func) with
      | Throw e => Throw e
      | Ok documented =>
          match filterUndocumented document rest with
          | Throw e => Throw e
          | Ok kept => Ok (if negb documented then func :: kept else kept)
          end
      end
  end.

Definition progressMessage (func : ParsedFunction) (i total : nat) : jsstring :=
  js "Documenting " ++ name func ++ js "... (" ++ js (pretty (i + 1))
  ++ js "/" ++ js (pretty total) ++ js ")".

(** The loop of [documentFile] from item [i] on.  [hosts i] is what is
    read from outside while item [i] is handled, and
    [isCancellationRequested i] what the token says when it is asked before
    item [i] (always [false] without a token). *)
Fixpoint documentLoop (svc : Service) (document : EditorDocument)
    (hosts : nat → Host) (isCancellationRequested : nat → bool)
    (total : nat) (rest : list ParsedFunction) (i : nat)
    (results : list DocumentationResult) (s : Session)
  : list DocumentationResult * Session :=
  match rest with
  | [] => (results, s)
  | func :: rest' =>
      if isCancellationRequested i then (results, s)
      else
        let s1 :=
          emit (ProgressReport (progressMessage func i total)
                  {| dividend := 100; divisor := total |}) s in
        let '(results', s2) :=
          match documentFunction svc document
                  {| line := startLine func; character := 0 |} (hosts i) s1 with
          | (Ok (Some result), s2) => (results ++ [result], s2)
          | (Ok None, s2) => (results, s2)
          | (Throw error, s2) =>
              (results,
               emit (ConsoleError (js "Failed to document " ++ name func
                                   ++ js ":") error) s2)
          end in
        documentLoop svc document hosts isCancellationRequested total rest'
          (S i) results' (emit (Delay 500) s2)
  end.

Definition documentFile (svc : Service) (document : EditorDocument)
    (hosts : nat → Host) (isCancellationRequested : nat → bool)
    (s : Session) : result failure (list DocumentationResult) * Session :=
  let language := languageId document in
  let text := getText document in
  match findAllFunctions text language with
  | Throw e => (Throw (LocatorError e), s)
  | Ok functions =>
      if length functions =? 0
      then (Ok [], emit (InformationMessage (js "No functions found in file")) s)
      else
        match filterUndocumented (textDocument document) functions with
        | Throw e => (Throw (LocatorError e), s)
        | Ok undocumented =>
            if length undocumented =? 0
            then (Ok [],
                  emit (InformationMessage
                          (js "All functions are already documented")) s)
            else
              let '(results, s') :=
                documentLoop svc document hosts isCancellationRequested
                  (length undocumented) undocumented 0 [] s in
              (Ok results, s')
        end
  end.

End Methods.

End Orchestrator.

(** ** The extension's error notice and HTML escaping *)

Module Extension.
Import JS RegExp GeminiService.

(** What [handleError] shows: an error message with an action button, or a
    plain error message. *)
Inductive notice : Type :=
| ErrorWithAction (message action : jsstring)
| ErrorNotice (message : jsstring).

(** [handleError]: the line written to the console (beside the error
    itself) and the notice shown. *)
Definition handleError (error : thrown) (context : jsstring)
  : jsstring * notice :=
  let consoleLine := js "QUAD Error: " ++ context in
  let message := context in
  match error with
  | ErrorObject errorMessage =>
      if includes errorMessage (js "API_KEY") then
        let message :=
          js "Invalid or missing API key. Please set your Gemini API key." in
        (consoleLine, ErrorWithAction message (js "Set API Key"))
      else
        let message :=
          if includes errorMessage (js "QUOTA")
          then js "API quota exceeded. Try again tomorrow or use your own API key."
          else message in
        let message := context ++ js ": " ++ errorMessage in
        (consoleLine, ErrorNotice (js "QUAD: " ++ message))
  | OtherValue => (consoleLine, ErrorNotice (js "QUAD: " ++ message))
  end.

(** [escapeHtml]: five global replacements, one after the other. *)
Definition escapeHtml (text : jsstring) : jsstring :=
  let text1 := replace_all false (RChar (chr "&")) text (js "&amp;") in
  let text2 := replace_all false (RChar (chr "<")) text1 (js "&lt;") in
  let text3 := replace_all false (RChar (chr ">")) text2 (js "&gt;") in
  let text4 := replace_all false (RChar 34%N) text3 (js "&quot;") in
  replace_all false (RChar (chr "'")) text4 (js "&#039;").

End Extension.

(** * Specification notions

    The words of the specification, as definitions over the embedding. *)

Module Spec.
Import JS RegExp DocumentationService GeminiService Extension.

(** ** The end of a Python function *)

(** A line that ends the function: not blank, not a comment, and indented
    no deeper than the start line. *)
Definition dedentLine (startIndent : nat) (l : jsstring) : bool :=
  negb (streq (trim l) []) && negb (startsWith (trim l) (js "#"))
  && (getIndentLevel l <=? startIndent).

(** ** The end of a brace-delimited function *)










(** ** The search window *)

(** Some pattern of the list matches the line. *)
Definition matchesAny (patterns : list regex) (line : jsstring) : bool :=
  existsb (λ p, bool_decide (is_Some (exec false p line))) patterns.

(** ** The usage counters *)

(** The values the service reads back from the persisted state. *)
Definition storedDate (w : World) : jsstring :=
  default [] (quad_lastUsageDate (globalState w)).
Definition todayCount (w : World) : Z :=
  default 0%Z (quad_todayUsage (globalState w)).
Definition totalCount (w : World) : Z :=
  default 0%Z (quad_totalUsage (globalState w)).

(** The two operations on the counters, and runs of them on one date. *)
Inductive usageOp : Type := Check | Increment.

Definition runOp (svc : Service) (env : Env) (w : World) (op : usageOp) : World :=
  match op with
  | Check => snd (checkQuota svc env w)
  | Increment => snd (incrementUsage env w)
  end.

Definition runOps (svc : Service) (env : Env) (ops : list usageOp) (w : World)
  : World :=
  foldl (runOp svc env) w ops.

Fixpoint increments (ops : list usageOp) : Z :=
  match ops with
  | [] => 0
  | Check :: ops' => increments ops'
  | Increment :: ops' => 1 + increments ops'
  end.

(** ** Runs of generation calls *)

(** The daily limit the service checks against. *)
Definition limitOf (svc : Service) : Z :=
  if isUsingPool svc then DAILY_POOL_LIMIT else DAILY_OWN_KEY_LIMIT.

(** Today's count as a check on date [d] sees it: the stored count on the
    stored date, 0 on any other date. *)
Definition countOn (d : jsstring) (w : World) : Z :=
  if streq (storedDate w) d then todayCount w else 0%Z.

(** The error a generation method throws for an error of the external
    call. *)
Definition translateError (e : thrown) : thrown :=
  match e with
  | ErrorObject message =>
      if includes message (js "429")
      then ErrorObject (js "QUOTA: Rate limit exceeded. Please try again later.")
      else e
  | OtherValue => e
  end.

(** The world with one more external call on record. *)
Definition logged (prompt : jsstring) (w : World) : World :=
  {| globalState := globalState w; calls := calls w ++ [prompt] |}.

(** A call of one of the two generation methods. *)
Inductive generation : Type :=
| Document (request : DocumentationRequest)
| Improve (code programmingLanguage : jsstring).

Definition promptOf (buildDocumentationPrompt : DocumentationRequest → jsstring)
    (g : generation) : jsstring :=
  match g with
  | Document request => buildDocumentationPrompt request
  | Improve code programmingLanguage => improvementPrompt code programmingLanguage
  end.

Definition generate (buildDocumentationPrompt : DocumentationRequest → jsstring)
    (svc : Service) (g : generation) : M jsstring :=
  match g with
  | Document request => generateDocumentation buildDocumentationPrompt svc request
  | Improve code programmingLanguage =>
      suggestImprovements svc code programmingLanguage
  end.

(** Generation calls on one service that may overlap.  A turn is a
    stretch that runs without interruption: a call enters (it runs up to
    its await, and is in flight if it gets there), or a call in flight
    leaves (it resumes with the outcome of its external call and runs to
    its end).  Every resumption does the same to the world, so the calls
    in flight are only counted.  A [Leave] with no call in flight is no
    turn of a real run and changes nothing. *)
Inductive turn : Type :=
| Enter (env : Env) (g : generation)
| Leave (env : Env) (outcome : result thrown jsstring).

(** The world, the number of calls in flight, the most that were in
    flight at once so far, and the number of calls that have returned. *)
Record flight : Type := {
  flightWorld : World;
  inFlight : nat;
  peak : nat;
  returned : Z
}.

Definition takeTurn
    (buildDocumentationPrompt : DocumentationRequest → jsstring)
    (svc : Service) (f : flight) (t : turn) : flight :=
  match t with
  | Enter env g =>
      match beforeAwait svc (promptOf buildDocumentationPrompt g) env
              (flightWorld f) with
      | (Ok _, w') =>
          {| flightWorld := w';
             inFlight := S (inFlight f);
             peak := Nat.max (peak f) (S (inFlight f));
             returned := returned f |}
      | (Throw _, w') =>
          {| flightWorld := w';
             inFlight := inFlight f;
             peak := peak f;
             returned := returned f |}
      end
  | Leave env outcome =>
      match inFlight f with
      | O => f
      | S n =>
          match afterAwait outcome env (flightWorld f) with
          | (Ok _, w') =>
              {| flightWorld := w';
                 inFlight := n;
                 peak := peak f;
                 returned := returned f + 1 |}
          | (Throw _, w') =>
              {| flightWorld := w';
                 inFlight := n;
                 peak := peak f;
                 returned := returned f |}
          end
      end
  end.

Definition runTurns
    (buildDocumentationPrompt : DocumentationRequest → jsstring)
    (svc : Service) (turns : list turn) (w : World) : flight :=
  foldl (takeTurn buildDocumentationPrompt svc)
    {| flightWorld := w; inFlight := 0; peak := 0; returned := 0 |} turns.

(** What holds after every turn of a run on one date [d] that starts
    from the world [w] with no call in flight. *)
Definition flightInvariant (svc : Service) (d : jsstring) (w : World)
    (f : flight) : Prop :=
  countOn d (flightWorld f) = (countOn d w + returned f)%Z
  ∧ (countOn d (flightWorld f) + Z.of_nat (inFlight f)
     ≤ Z.max (countOn d w) (limitOf svc - 1 + Z.of_nat (peak f)))%Z
  ∧ inFlight f ≤ peak f
  ∧ (0 < peak f → storedDate (flightWorld f) = d)
  ∧ (0 ≤ returned f)%Z.

(** ** Escaping *)

(** A text with each unit replaced by a text. *)
Fixpoint mapUnits (f : jschar → jsstring) (s : jsstring) : jsstring :=
  match s with
  | [] => []
  | c :: s' => f c ++ mapUnits f s'
  end.

(** The entity that stands for a unit in HTML text. *)
Definition entityOf (c : jschar) : jsstring :=
  if (c =? chr "&")%N then js "&amp;"
  else if (c =? chr "<")%N then js "&lt;"
  else if (c =? chr ">")%N then js "&gt;"
  else if (c =? 34)%N then js "&quot;"
  else if (c =? chr "'")%N then js "&#039;"
  else [c].

(** The text an escaped text stands for: at an ampersand one of the five
    entities is read back, any other unit stands for itself. *)
Fixpoint unescapeHtml (fuel : nat) (s : jsstring) : jsstring :=
  match fuel with
  | O => []
  | S fuel' =>
      match s with
      | [] => []
      | c :: s' =>
          if (c =? chr "&")%N then
            if startsWith s' (js "amp;")
            then chr "&" :: unescapeHtml fuel' (drop 4 s')
            else if startsWith s' (js "lt;")
            then chr "<" :: unescapeHtml fuel' (drop 3 s')
            else if startsWith s' (js "gt;")
            then chr ">" :: unescapeHtml fuel' (drop 3 s')
            else if startsWith s' (js "quot;")
            then 34%N :: unescapeHtml fuel' (drop 5 s')
            else if startsWith s' (js "#039;")
            then chr "'" :: unescapeHtml fuel' (drop 5 s')
            else c :: unescapeHtml fuel' s'
          else c :: unescapeHtml fuel' s'
      end
  end.

(** ** Runs of a character class *)

(** What is left of a text after its longest prefix of units of a class. *)
Fixpoint skipWhile (p : jschar → bool) (s : jsstring) : jsstring :=
  match s with
  | [] => []
  | c :: s' => if p c then skipWhile p s' else s
  end.

(** ** All functions of a document *)

(** The numbers of the lines, counted from [i], that match a pattern. *)
Fixpoint matchingFrom (patterns : list regex) (rest : list jsstring) (i : nat)
  : list nat :=
  match rest with
  | [] => []
  | l :: rest' =>
      if matchesAny patterns l then i :: matchingFrom patterns rest' (S i)
      else matchingFrom patterns rest' (S i)
  end.

Definition matchingLines (patterns : list regex) (lines : list jsstring)
  : list nat :=
  matchingFrom patterns lines 0.

(** ** Runs of the documentation methods *)

Import Orchestrator.

(** The style [documentFunction] settles on for a document, and the
    request it sends for a function. *)
Definition styleFor (document : EditorDocument) (host : Host) : jsstring :=
  let configured := default (js "auto") (quad_documentationStyle host) in
  if streq configured (js "auto") then styleOf (languageId document)
  else configured.

Definition requestFor (document : EditorDocument) (host : Host)
    (func : ParsedFunction) : DocumentationRequest :=
  {| GeminiService.code := DocumentationService.code func;
     GeminiService.language := languageId document;
     GeminiService.style := styleFor document host;
     includeExamples := default true (quad_includeExamples host);
     includeTypes := default true (quad_includeTypes host) |}.

(** The question [documentFunction] asks, with its two buttons. *)
Definition replaceItems : list jsstring := [js "Replace"; js "Cancel"].

Definition isQuestion (ev : event) : bool :=
  match ev with Question _ _ => true | _ => false end.

(** The line a result is to be inserted at. *)
Definition insertionLine (r : DocumentationResult) : nat := line (position r).

(** A function without a documentation comment before it. *)
Definition undocumentedIn (document : TextDocument) (func : ParsedFunction)
  : bool :=
  match hasDocumentation document (startLine func) with
  | Ok false => true
  | _ => false
  end.

(** A document whose lines are the pieces of its text between line
    feeds. *)
Definition lineFeedDocument (document : EditorDocument) : Prop :=
  lineTexts (textDocument document) = split LF (getText document).

End Spec.

(** * Scenarios

    The documents and states of the specification's scenarios. *)

Module Scenarios.
Import JS RegExp DocumentationService GeminiService.

(** The three-line document of the scenario. *)
Definition addDocument : jsstring :=
  js "function add(a, b) {" ++ [LF] ++ js "  return a + b;" ++ [LF] ++ js "}".

(** The document of the scenario. *)
Definition twoDefs : list jsstring :=
  [js "def f():"; js "    return 1"; []; js "def g():"].

(** The block of the scenario. *)
Definition addsBlock : jsstring :=
  js "/**" ++ [LF] ++ js " * Adds two numbers." ++ [LF] ++ js " */".


(** The service the source builds with no key configured and the pool
    switched on, the service it builds with a key of the user's, and a
    state with 20 uses on the current date. *)
Definition poolService : Service := newGeminiService [] true.
Definition ownKeyService : Service :=
  newGeminiService (js "AIza-own-key") true.
Definition exhaustedWorld : World :=
  {| globalState := {| quad_lastUsageDate := Some (js "Mon Nov 02 2026");
                       quad_todayUsage := Some 20%Z;
                       quad_totalUsage := Some 57%Z |};
     calls := [] |}.
Definition answering (text : jsstring) : Env :=
  {| today := js "Mon Nov 02 2026"; generateContent := λ _ _, Ok text |}.
Definition codeAsPrompt (request : DocumentationRequest) : jsstring :=
  code request.
Definition someRequest : DocumentationRequest :=
  {| code := js "function add(a, b) {}"; language := js "javascript";
     style := js "jsdoc"; includeExamples := true; includeTypes := true |}.

(** A state with 19 uses on the current date. *)
Definition nearlyExhaustedWorld : World :=
  {| globalState := {| quad_lastUsageDate := Some (js "Mon Nov 02 2026");
                       quad_todayUsage := Some 19%Z;
                       quad_totalUsage := Some 56%Z |};
     calls := [] |}.

(** States with 1500 and with 1499 uses on the current date. *)
Definition ownKeyExhaustedWorld : World :=
  {| globalState := {| quad_lastUsageDate := Some (js "Mon Nov 02 2026");
                       quad_todayUsage := Some 1500%Z;
                       quad_totalUsage := Some 1537%Z |};
     calls := [] |}.
Definition ownKeyNearlyExhaustedWorld : World :=
  {| globalState := {| quad_lastUsageDate := Some (js "Mon Nov 02 2026");
                       quad_todayUsage := Some 1499%Z;
                       quad_totalUsage := Some 1536%Z |};
     calls := [] |}.


(** A state left by the day before, with 5 uses counted. *)
Definition yesterdayWorld : World :=
  {| globalState := {| quad_lastUsageDate := Some (js "Sun Nov 01 2026");
                       quad_todayUsage := Some 5%Z;
                       quad_totalUsage := Some 57%Z |};
     calls := [] |}.

(** The function of the three-line document. *)
Definition addFunction : ParsedFunction :=
  {| name := js "add"; startLine := 0; endLine := 2;
     parameters := [js "a"; js "b"]; isAsync := false; isMethod := false;
     DocumentationService.code := addDocument |}.

(** The three-line document in the editor, a host with no setting set and
    no answer given, and a session that starts from a world. *)
Definition addEditorDocument : Orchestrator.EditorDocument :=
  {| Orchestrator.languageId := js "javascript";
     Orchestrator.getText := addDocument;
     Orchestrator.textDocument := {| lineTexts := split LF addDocument |} |}.
Definition plainHost (env : Env) : Orchestrator.Host :=
  {| Orchestrator.quad_documentationStyle := None;
     Orchestrator.quad_includeExamples := None;
     Orchestrator.quad_includeTypes := None;
     Orchestrator.answer := λ _ _, None;
     Orchestrator.serviceEnv := env |}.
Definition sessionFrom (w : World) : Orchestrator.Session :=
  {| Orchestrator.world := w; Orchestrator.events := [] |}.

(** The three-line document after its documentation block. *)
Definition documentedEditorDocument : Orchestrator.EditorDocument :=
  {| Orchestrator.languageId := js "javascript";
     Orchestrator.getText := addsBlock ++ [LF] ++ addDocument;
     Orchestrator.textDocument :=
       {| lineTexts := split LF (addsBlock ++ [LF] ++ addDocument) |} |}.

End Scenarios.

(** * Properties *)

(** ** Strings *)

Module JSFacts.
Import JS.

Lemma streq_true (a b : jsstring) : streq a b = true ↔ a = b.
Proof. unfold streq. apply bool_decide_eq_true. Qed.

Lemma streq_false (a b : jsstring) : streq a b = false ↔ a ≠ b.
Proof. unfold streq. apply bool_decide_eq_false. Qed.

Lemma streq_refl (a : jsstring) : streq a a = true.
Proof. by apply streq_true. Qed.

(** [startsWith] decides the prefix relation. *)
Lemma startsWith_prefix (s p : jsstring) :
  startsWith s p = true ↔ p `prefix_of` s.
Proof.
  unfold startsWith. rewrite bool_decide_eq_true. split.
  - intros H. exists (drop (length p) s).
    rewrite <- H at 1. by rewrite take_drop.
  - intros [k ->]. by rewrite take_app_length.
Qed.

(** [endsWith] decides the suffix relation. *)
Lemma endsWith_suffix (s p : jsstring) :
  endsWith s p = true ↔ p `suffix_of` s.
Proof.
  unfold endsWith. rewrite andb_true_iff, Nat.leb_le, bool_decide_eq_true.
  split.
  - intros [_ H]. exists (take (length s - length p) s).
    rewrite <- H at 2. by rewrite take_drop.
  - intros [k ->]. rewrite length_app. split; [lia|].
    replace (length k + length p - length p) with (length k) by lia.
    by rewrite drop_app_length.
Qed.

Lemma startsWith_not_prefix (s p : jsstring) :
  startsWith s p = false ↔ ¬ p `prefix_of` s.
Proof. rewrite <- startsWith_prefix. by destruct (startsWith s p). Qed.

Lemma endsWith_not_suffix (s p : jsstring) :
  endsWith s p = false ↔ ¬ p `suffix_of` s.
Proof. rewrite <- endsWith_suffix. by destruct (endsWith s p). Qed.

(** [includes] decides the occurrence of a run of units. *)
Lemma includes_infix (s p : jsstring) :
  includes s p = true ↔ ∃ a b, s = a ++ p ++ b.
Proof.
  induction s as [|c s IH]; simpl.
  - rewrite orb_false_r, startsWith_prefix. split.
    + intros [k Hk]. by exists [], k.
    + intros (a & b & H). destruct a; [by exists b|done].
  - rewrite orb_true_iff, startsWith_prefix, IH. split.
    + intros [[k Hk]|(a & b & ->)]; [by exists [], k|by exists (c :: a), b].
    + intros (a & b & H). destruct a as [|d a]; [left; by exists b|].
      right. simpl in H. injection H as -> ->. by exists a, b.
Qed.

(** Splitting at a separator and joining with it gives the text back. *)
Lemma split_cons (sep : jschar) (s : jsstring) :
  ∃ p ps, split sep s = p :: ps.
Proof.
  induction s as [|c s (p & ps & IH)]; simpl; [by eexists _, _|].
  destruct (c =? sep)%N; [by eexists _, _|]. rewrite IH. by eexists _, _.
Qed.

Lemma join_cons (sep p q : jsstring) (ps : list jsstring) :
  join sep (p :: q :: ps) = p ++ sep ++ join sep (q :: ps).
Proof. reflexivity. Qed.

Lemma join_split (sep : jschar) (s : jsstring) :
  join [sep] (split sep s) = s.
Proof.
  induction s as [|c s IH]; [done|]. simpl.
  destruct (split_cons sep s) as (p & ps & Hs). rewrite Hs in IH |- *.
  destruct (c =? sep)%N eqn:Hc.
  - apply N.eqb_eq in Hc as ->. by rewrite join_cons, IH.
  - destruct ps as [|q ps]; [by rewrite <- IH|].
    rewrite join_cons in IH |- *. by rewrite <- IH.
Qed.

(** Trimming leaves alone a text that neither starts nor ends with white
    space. *)
Lemma trimStart_id (c : jschar) (s : jsstring) :
  isWhiteSpace c = false → trimStart (c :: s) = c :: s.
Proof. intros H. simpl. by rewrite H. Qed.

Lemma trim_id (c d : jschar) (s t : jsstring) :
  isWhiteSpace c = false → isWhiteSpace d = false →
  c :: s = t ++ [d] → trim (c :: s) = c :: s.
Proof.
  intros Hc Hd Heq. unfold trim, trimEnd. rewrite (trimStart_id _ _ Hc).
  rewrite Heq, reverse_snoc, (trimStart_id _ _ Hd).
  by rewrite <- reverse_snoc, reverse_involutive.
Qed.

(** What trimming removes is white space, and what it leaves neither
    starts nor ends with white space. *)
Lemma trimStart_split (s : jsstring) :
  ∃ a, s = a ++ trimStart s ∧ forallb isWhiteSpace a = true.
Proof.
  induction s as [|c s (a & Ha & Hw)]; [by exists []|].
  simpl. destruct (isWhiteSpace c) eqn:Hc.
  - exists (c :: a). simpl. rewrite Hc, Hw. split; [by f_equal|done].
  - by exists [].
Qed.

Lemma trimStart_head (s : jsstring) (c : jschar) (t : jsstring) :
  trimStart s = c :: t → isWhiteSpace c = false.
Proof.
  induction s as [|d s IH]; [done|]. simpl.
  destruct (isWhiteSpace d) eqn:Hd; [done|]. by intros [= <- _].
Qed.

Lemma trim_split (s : jsstring) :
  ∃ a b, s = a ++ trim s ++ b
         ∧ forallb isWhiteSpace a = true ∧ forallb isWhiteSpace b = true.
Proof.
  destruct (trimStart_split s) as (a & Ha & Hwa).
  destruct (trimStart_split (reverse (trimStart s))) as (b & Hb & Hwb).
  exists a, (reverse b). unfold trim, trimEnd. split; [|split; [done|]].
  - rewrite <- reverse_app, <- Hb, reverse_involutive. exact Ha.
  - rewrite forallb_forall in Hwb |- *. intros x Hx. apply Hwb.
    apply list_elem_of_In. apply list_elem_of_In in Hx.
    by rewrite elem_of_reverse in Hx.
Qed.

Lemma trim_ends (s : jsstring) :
  (∀ c t, trim s = c :: t → isWhiteSpace c = false)
  ∧ (∀ t c, trim s = t ++ [c] → isWhiteSpace c = false).
Proof.
  unfold trim, trimEnd. split.
  - intros c t H.
    destruct (trimStart_split (reverse (trimStart s))) as (b & Hb & _).
    apply (f_equal reverse) in Hb. rewrite reverse_involutive, reverse_app in Hb.
    rewrite H in Hb. simpl in Hb. by apply trimStart_head in Hb.
  - intros t c H. apply (f_equal reverse) in H.
    rewrite reverse_involutive, reverse_snoc in H.
    by apply trimStart_head in H.
Qed.

End JSFacts.

(** ** The matcher on literal text, and replacement without a match *)

Module RegExpFacts.
Import JS RegExp JSFacts.

(** The matcher only looks at what its continuation returns. *)
Lemma rmatch_ext (ml : bool) (r : regex) (st : mstate)
    (k1 k2 : mstate → option mstate) :
  (∀ st', k1 st' = k2 st') → rmatch ml r st k1 = rmatch ml r st k2.
Proof.
  revert st k1 k2.
  induction r as [|c|p|r1 IH1 r2 IH2|r1 IH1 r2 IH2|r1 IH1|r1 IH1| |];
    intros st k1 k2 Hk; cbn [rmatch]; try by rewrite ?Hk.
  - destruct (after st) as [|d rest]; [done|]. by rewrite Hk.
  - destruct (after st) as [|d rest]; [done|]. by rewrite Hk.
  - apply IH1. intros st1. by apply IH2.
  - by rewrite (IH1 st k1 k2 Hk), (IH2 st k1 k2 Hk).
  - generalize (S (length (after st))). intros fuel. revert st.
    induction fuel as [|fuel IHf]; intros st; cbn [starLoop]; [done|].
    rewrite Hk. erewrite IH1; [done|].
    intros st1. cbn beta. by rewrite IHf.
  - apply IH1. intros st1. by rewrite Hk.
Qed.

Lemma starLoop_S (body : mstate → (mstate → option mstate) → option mstate)
    (k : mstate → option mstate) (fuel : nat) (st0 : mstate) :
  starLoop body k (S fuel) st0
  = match body st0
            (λ st1, if length (after st1) <? length (after st0)
                    then starLoop body k fuel st1 else None) with
    | Some res => Some res
    | None => k st0
    end.
Proof. reflexivity. Qed.

(** The counter of the star loop is never used up: with more rounds
    allowed than units of input left, one more changes nothing. *)
Lemma starLoop_fuel (ml : bool) (r : regex) (k : mstate → option mstate)
    (fuel : nat) (st : mstate) :
  length (after st) < fuel →
  starLoop (rmatch ml r) k (S fuel) st = starLoop (rmatch ml r) k fuel st.
Proof.
  revert st. induction fuel as [|fuel IH]; intros st Hlen; [lia|].
  rewrite (starLoop_S _ _ (S fuel) st), (starLoop_S _ _ fuel st).
  erewrite rmatch_ext; [done|].
  intros st1. cbn beta.
  destruct (length (after st1) <? length (after st)) eqn:Hlt; [|done].
  apply Nat.ltb_lt in Hlt. apply IH. lia.
Qed.

Lemma rmatch_RStar_fuel (ml : bool) (r : regex) (k : mstate → option mstate)
    (n : nat) (st : mstate) :
  rmatch ml (RStar r) st k
  = starLoop (rmatch ml r) k (S (length (after st)) + n) st.
Proof.
  cbn [rmatch]. induction n as [|n IH]; [by rewrite Nat.add_0_r|].
  rewrite Nat.add_succ_r.
  rewrite (starLoop_fuel ml r k (S (length (after st)) + n) st); [exact IH|lia].
Qed.

Lemma rmatch_RClass (ml : bool) (p : jschar → bool) (st : mstate)
    (k : mstate → option mstate) :
  rmatch ml (RClass p) st k
  = match after st with
    | d :: rest =>
        if p d then k (MState (d :: before st) rest (capture st)) else None
    | [] => None
    end.
Proof. reflexivity. Qed.

(** A greedy star over white space, before a continuation that cannot
    fail, takes the whole run of white space. *)
Lemma starLoop_white (ml : bool) (k : mstate → option mstate) (fuel : nat)
    (bef aft : jsstring) (cap : option jsstring) :
  (∀ st, is_Some (k st)) →
  length aft < fuel →
  ∃ bef', starLoop (rmatch ml (RClass isWhiteSpace)) k fuel (MState bef aft cap)
          = k (MState bef' (trimStart aft) cap).
Proof.
  intros Hk. revert bef aft.
  induction fuel as [|fuel IH]; intros bef aft Hlen; [lia|].
  rewrite starLoop_S, rmatch_RClass. cbn [after before capture].
  destruct aft as [|d rest]; [by exists bef|].
  cbn [trimStart]. destruct (isWhiteSpace d); [|by exists bef].
  replace (length rest <? length (d :: rest)) with true
    by (symmetry; apply Nat.ltb_lt; simpl; lia).
  destruct (IH (d :: bef) rest ltac:(simpl in Hlen; lia)) as [bef' Hbef'].
  exists bef'. rewrite Hbef'.
  by destruct (Hk (MState bef' (trimStart rest) cap)) as [res ->].
Qed.

(** A pattern that begins with a literal only matches where the input
    continues with that literal. *)
Lemma rmatch_RLit_prefix (ml : bool) (p : jsstring) (st : mstate)
    (k : mstate → option mstate) (res : mstate) :
  rmatch ml (RLit p) st k = Some res → p `prefix_of` after st.
Proof.
  revert st k. induction p as [|c p IH]; intros st k H.
  - apply prefix_nil.
  - simpl in H. destruct (after st) as [|d rest] eqn:Haft; [done|].
    destruct (d =? c)%N eqn:Hd; [|done].
    apply N.eqb_eq in Hd as ->.
    apply IH in H. simpl in H. by apply prefix_cons.
Qed.

Lemma rmatch_RBol_RLit_prefix (ml : bool) (p : jsstring) (r : regex)
    (st res : mstate) :
  match_here ml (RSeq RBol (RSeq (RLit p) r)) st = Some res →
  p `prefix_of` after st.
Proof.
  unfold match_here. simpl. intros H.
  destruct (before st) as [|c ?];
    [|destruct (ml && isLineTerminator c); [|done]];
    by apply rmatch_RLit_prefix in H.
Qed.

Lemma rmatch_RLit_seq_prefix (ml : bool) (p : jsstring) (r : regex)
    (st res : mstate) :
  match_here ml (RSeq (RLit p) r) st = Some res → p `prefix_of` after st.
Proof. unfold match_here. simpl. apply rmatch_RLit_prefix. Qed.

(** Where no match can start, a global replacement changes nothing. *)
Lemma replace_loop_no_match (ml : bool) (r : regex) (p replacement : jsstring)
    (fuel : nat) (bef aft : jsstring) :
  (∀ st res, match_here ml r st = Some res → p `prefix_of` after st) →
  (¬ ∃ a b, aft = a ++ p ++ b) →
  length aft < fuel →
  replace_loop ml r replacement fuel bef aft = aft.
Proof.
  intros Hstart. revert bef aft.
  induction fuel as [|fuel IH]; intros bef aft Hno Hfuel; [lia|].
  simpl. destruct (match_here ml r (MState bef aft None)) as [res|] eqn:Hm.
  - exfalso. apply Hno. apply Hstart in Hm as [b Hb]. simpl in Hb.
    by exists [], b.
  - destruct aft as [|c aft]; [done|]. f_equal. apply IH.
    + intros (a & b & ->). apply Hno. by exists (c :: a), b.
    + simpl in Hfuel. lia.
Qed.

(** The counter of the replacement loop is never used up either. *)
Lemma replace_loop_fuel (ml : bool) (r : regex) (replacement : jsstring)
    (fuel : nat) (bef aft : jsstring) :
  length aft < fuel →
  replace_loop ml r replacement (S fuel) bef aft
  = replace_loop ml r replacement fuel bef aft.
Proof.
  revert bef aft. induction fuel as [|fuel IH]; intros bef aft Hlen; [lia|].
  cbn [replace_loop].
  destruct (match_here ml r (MState bef aft None)) as [st'|].
  - destruct (length (after st') <? length aft) eqn:Hlt.
    + apply Nat.ltb_lt in Hlt. by rewrite <- IH by lia.
    + destruct aft as [|c aft]; [done|].
      by rewrite <- IH by (simpl in Hlen; lia).
  - destruct aft as [|c aft]; [done|].
    by rewrite <- IH by (simpl in Hlen; lia).
Qed.

Lemma replace_all_no_match (ml : bool) (r : regex) (p s replacement : jsstring) :
  (∀ st res, match_here ml r st = Some res → p `prefix_of` after st) →
  (¬ ∃ a b, s = a ++ p ++ b) →
  replace_all ml r s replacement = s.
Proof.
  intros Hstart Hno. unfold replace_all.
  apply (replace_loop_no_match ml r p); [done|done|lia].
Qed.

End RegExpFacts.

(** ** The already-documented check and the scenario of a located function *)

Module LocatorFacts.
Import JS RegExp DocumentationService JSFacts Spec Scenarios.

(** C7. [hasDocumentation] is false for line 0; for a line after an
    existing line it returns a boolean that is true exactly when the
    trimmed text of the line before ends with the close of a block comment,
    ends with three double quotes, ends with three single quotes, or starts
    with three slashes. *)
Theorem hasDocumentation_spec (document : TextDocument) :
  hasDocumentation document 0 = Ok false ∧
  ∀ (n : nat) (prev : jsstring),
    lineTexts document !! n = Some prev →
    ∃ b, hasDocumentation document (S n) = Ok b ∧
         (b = true ↔
            js "*/" `suffix_of` trim prev
            ∨ [34; 34; 34]%N `suffix_of` trim prev
            ∨ js "'''" `suffix_of` trim prev
            ∨ js "///" `prefix_of` trim prev).
Proof.
  split; [reflexivity|]. intros n prev Hprev.
  unfold hasDocumentation, lineAt.
  replace (S n - 1) with n by lia. rewrite Hprev.
  eexists. split; [reflexivity|].
  rewrite !orb_true_iff, !endsWith_suffix, startsWith_prefix. tauto.
Qed.

Lemma hasDocumentation_spec_witness :
  hasDocumentation {| lineTexts := [js " */  "; js "function f() {}"] |} 0
    = Ok false ∧
  hasDocumentation {| lineTexts := [js " */  "; js "function f() {}"] |} 1
    = Ok true.
Proof.
  destruct (hasDocumentation_spec
              {| lineTexts := [js " */  "; js "function f() {}"] |})
    as [H0 HS].
  split; [exact H0|].
  destruct (HS 0 (js " */  ") eq_refl) as (b & Hb & Hiff).
  rewrite Hb. f_equal. apply Hiff. left. by exists [].
Defined.

(** Without a line before it the host call fails. *)
Lemma hasDocumentation_no_line (document : TextDocument) (n : nat) :
  lineTexts document !! n = None →
  hasDocumentation document (S n) = Throw IllegalLine.
Proof.
  intros H. unfold hasDocumentation, lineAt.
  replace (S n - 1) with n by lia. by rewrite H.
Qed.

(** C9. On the three-line document, language [javascript], query point
    on line 0, [findFunctionAtPosition] returns a function with name [add],
    parameters [a] and [b], start line 0 and end line 2. *)
Theorem findFunctionAtPosition_add :
  ∃ f, findFunctionAtPosition addDocument {| line := 0; character := 0 |}
         (js "javascript") = Ok (Some f) ∧
       name f = js "add" ∧
       parameters f = [js "a"; js "b"] ∧
       startLine f = 0 ∧
       endLine f = 2.
Proof. eexists. split; [vm_compute; reflexivity|]. by repeat split. Qed.

(** The other fields of that result. *)
Lemma findFunctionAtPosition_add_rest :
  ∃ f, findFunctionAtPosition addDocument {| line := 0; character := 0 |}
         (js "javascript") = Ok (Some f) ∧
       isAsync f = false ∧ isMethod f = false ∧ code f = addDocument.
Proof. eexists. split; [vm_compute; reflexivity|]. by repeat split. Qed.

End LocatorFacts.

(** ** The end of a Python function *)

Module PythonEndFacts.
Import JS RegExp DocumentationService JSFacts RegExpFacts Spec Scenarios.

(** The indentation level is the number of leading white space units. *)
Lemma getIndentLevel_leading (l : jsstring) :
  getIndentLevel l = length l - length (trimStart l).
Proof.
  unfold getIndentLevel, exec.
  set (k := λ st1 : mstate,
         Some (MState (before st1) (after st1)
                 (Some (take (length l - length (after st1)) l)))).
  assert (match_here false (RSeq RBol (RGroup (RStar ws))) (MState [] l None)
          = starLoop (rmatch false (RClass isWhiteSpace)) k (S (length l))
              (MState [] l None)) as Hhere by reflexivity.
  destruct (starLoop_white false k (S (length l)) [] l None) as [bef' Hloop];
    [by eauto|lia|].
  rewrite Hloop in Hhere. unfold k in Hhere. cbn [before after] in Hhere.
  assert (search false (RSeq RBol (RGroup (RStar ws))) [] l
          = Some (MState [] l None,
                  MState bef' (trimStart l)
                    (Some (take (length l - length (trimStart l)) l)))) as ->.
  { destruct l; cbn [search]; by rewrite Hhere. }
  cbn [m_group1 capture]. rewrite length_take. lia.
Qed.

Lemma pythonScan_cons (startIndent : nat) (l : jsstring)
    (rest : list jsstring) (i : nat) :
  pythonScan startIndent (l :: rest) i =
    if dedentLine startIndent l then Some (i - 1)
    else pythonScan startIndent rest (S i).
Proof.
  unfold dedentLine. simpl.
  destruct (streq (trim l) []); simpl; [done|].
  destruct (startsWith (trim l) (js "#")); simpl; [done|].
  by rewrite andb_true_r.
Qed.

(** The loop stops at the first dedent line. *)
Lemma pythonScan_first (startIndent : nat) (rest : list jsstring)
    (i k : nat) (lk : jsstring) :
  rest !! k = Some lk →
  dedentLine startIndent lk = true →
  (∀ j lj, j < k → rest !! j = Some lj → dedentLine startIndent lj = false) →
  pythonScan startIndent rest i = Some (i + k - 1).
Proof.
  revert i k. induction rest as [|l rest IH]; intros i k Hk Hstop Hbefore.
  - done.
  - rewrite pythonScan_cons. destruct k as [|k]; simpl in Hk.
    + injection Hk as ->. rewrite Hstop. f_equal. lia.
    + rewrite (Hbefore 0 l) by (done || lia).
      rewrite (IH (S i) k Hk Hstop).
      * f_equal. lia.
      * intros j lj Hj Hlj. apply (Hbefore (S j) lj); [lia|done].
Qed.

(** Without a dedent line the loop runs to the end of the document. *)
Lemma pythonScan_none (startIndent : nat) (rest : list jsstring) (i : nat) :
  (∀ j lj, rest !! j = Some lj → dedentLine startIndent lj = false) →
  pythonScan startIndent rest i = None.
Proof.
  revert i. induction rest as [|l rest IH]; intros i Hall; [done|].
  rewrite pythonScan_cons, (Hall 0 l) by done.
  apply IH. intros j lj Hlj. by apply (Hall (S j) lj).
Qed.

(** C1, as stated, fails on the scenario: the end line is not 1. *)
Lemma findFunctionEnd_python_scenario_not_1 :
  findFunctionEnd twoDefs 0 (js "python") ≠ Ok 1.
Proof. vm_compute. discriminate. Qed.

(** C1, amended. For Python, [findFunctionEnd] returns the line just
    before the first later line that is not blank, not a comment and
    indented at or below the start line, and the last line index when there
    is no such line; on the scenario it returns 2, the blank line. *)
Theorem findFunctionEnd_python :
  (∀ (lines : list jsstring) (startLine : nat) (l0 : jsstring),
     lines !! startLine = Some l0 →
     (∀ i li,
        startLine < i → lines !! i = Some li →
        dedentLine (getIndentLevel l0) li = true →
        (∀ j lj, startLine < j < i → lines !! j = Some lj →
                 dedentLine (getIndentLevel l0) lj = false) →
        findFunctionEnd lines startLine (js "python") = Ok (i - 1))
     ∧ ((∀ j lj, startLine < j → lines !! j = Some lj →
                 dedentLine (getIndentLevel l0) lj = false) →
        findFunctionEnd lines startLine (js "python") = Ok (length lines - 1)))
  ∧ findFunctionEnd twoDefs 0 (js "python") = Ok 2.
Proof.
  split; [|by vm_compute].
  intros lines startLine l0 Hstart. unfold findFunctionEnd.
  replace (streq (js "python") (js "python")) with true by done.
  rewrite Hstart. split.
  - intros i li Hi Hli Hstop Hbefore.
    rewrite (pythonScan_first _ _ _ (i - (startLine + 1)) li).
    + f_equal. lia.
    + rewrite lookup_drop.
      by replace (startLine + 1 + (i - (startLine + 1))) with i by lia.
    + done.
    + intros j lj Hj Hlj. rewrite lookup_drop in Hlj.
      apply (Hbefore (startLine + 1 + j) lj); [lia|done].
  - intros Hall. rewrite pythonScan_none; [done|].
    intros j lj Hlj. rewrite lookup_drop in Hlj.
    apply (Hall (startLine + 1 + j) lj); [lia|done].
Qed.

Lemma findFunctionEnd_python_witness :
  findFunctionEnd twoDefs 0 (js "python") = Ok 2.
Proof.
  apply (proj1 (proj1 findFunctionEnd_python twoDefs 0 (js "def f():") eq_refl)
           3 (js "def g():")).
  - lia.
  - reflexivity.
  - reflexivity.
  - intros j lj Hj Hlj.
    destruct j as [|[|[|j]]]; try lia; injection Hlj as <-; reflexivity.
Defined.

(** Outside the document the start line has no indentation to read. *)
Lemma findFunctionEnd_python_no_line (lines : list jsstring) (startLine : nat) :
  lines !! startLine = None →
  findFunctionEnd lines startLine (js "python") = Throw TypeError.
Proof.
  intros H. unfold findFunctionEnd.
  replace (streq (js "python") (js "python")) with true by done.
  by rewrite H.
Qed.

End PythonEndFacts.

(** ** The clean-up of generated documentation *)

Module CleanFacts.
Import JS RegExp DocumentationService JSFacts RegExpFacts Spec Scenarios.

(** Without a fence, stripping only trims. *)
Lemma stripFences_no_fence (doc : jsstring) :
  (¬ ∃ a b, doc = a ++ js "```" ++ b) → stripFences doc = trim doc.
Proof.
  intros Hno. unfold stripFences.
  rewrite (replace_all_no_match true fenceOpen (js "```") doc []); [|..|done].
  - rewrite (replace_all_no_match true fenceClose (js "```") doc []); [done|..|done].
    intros st res. apply rmatch_RLit_seq_prefix.
  - intros st res. apply rmatch_RBol_RLit_prefix.
Qed.

(** Putting the opening delimiter in front does not make the text end
    with the closing one. *)
Lemma endsWith_after_open (c : jsstring) :
  endsWith (js "/**" ++ [LF] ++ c) (js "*/") = endsWith c (js "*/").
Proof.
  apply eq_true_iff_eq. rewrite !endsWith_suffix. split.
  - rewrite !suffix_prefix_reverse, !reverse_app.
    change (reverse (js "*/")) with [47; 42]%N.
    change (reverse (js "/**")) with [42; 42; 47]%N.
    change (reverse [LF]) with [10]%N.
    destruct (reverse c) as [|x [|y rest]]; simpl.
    + intros [k Hk]. simpl in Hk. discriminate.
    + intros [k Hk]. simpl in Hk. discriminate.
    + intros [k Hk]. simpl in Hk. injection Hk as -> -> _. by exists rest.
  - intros H. rewrite app_assoc. by apply suffix_app_r.
Qed.

(** What [cleanDocumentation] does for the three styles it names. *)
Lemma cleanDocumentation_named (doc style : jsstring) :
  style = js "jsdoc" ∨ style = js "tsdoc" ∨ style = js "javadoc" →
  cleanDocumentation doc style =
    (if startsWith (stripFences doc) (js "/**") then [] else js "/**" ++ [LF])
    ++ stripFences doc
    ++ (if endsWith (stripFences doc) (js "*/") then [] else [LF] ++ js " */").
Proof.
  intros Hstyle. unfold cleanDocumentation.
  replace (streq style (js "jsdoc") || streq style (js "tsdoc")
           || streq style (js "javadoc")) with true
    by (destruct Hstyle as [->|[->| ->]]; done).
  destruct (startsWith (stripFences doc) (js "/**")) eqn:Hs; cbn [negb].
  - destruct (endsWith (stripFences doc) (js "*/")); cbn [negb];
      [by rewrite app_nil_r|done].
  - rewrite endsWith_after_open.
    destruct (endsWith (stripFences doc) (js "*/")); cbn [negb].
    + by rewrite app_nil_r.
    + by rewrite <- !app_assoc.
Qed.

(** What it does for every other style. *)
Lemma cleanDocumentation_other (doc style : jsstring) :
  style ≠ js "jsdoc" → style ≠ js "tsdoc" → style ≠ js "javadoc" →
  cleanDocumentation doc style = stripFences doc.
Proof.
  intros H1 H2 H3. unfold cleanDocumentation.
  apply streq_false in H1, H2, H3. by rewrite H1, H2, H3.
Qed.

(** C3, as stated, fails: C++ maps to the style [doxygen], and for that
    style the result carries no delimiters. *)
Lemma cleanDocumentation_doxygen_undelimited :
  ownProperty LANGUAGE_STYLE_MAP (js "cpp") = Some (js "doxygen") ∧
  ¬ (js "/**" `prefix_of` cleanDocumentation (js "Adds two numbers.") (js "doxygen")
     ∧ js "*/" `suffix_of` cleanDocumentation (js "Adds two numbers.") (js "doxygen")).
Proof.
  split; [reflexivity|]. intros [H _].
  apply startsWith_prefix in H. vm_compute in H. discriminate.
Qed.

(** The same for PHP and [phpdoc]. *)
Lemma cleanDocumentation_phpdoc_undelimited :
  ownProperty LANGUAGE_STYLE_MAP (js "php") = Some (js "phpdoc") ∧
  cleanDocumentation (js "Adds two numbers.") (js "phpdoc") = js "Adds two numbers.".
Proof. split; reflexivity. Qed.

(** C3, amended. For the styles [jsdoc], [tsdoc] and [javadoc] the result
    of [cleanDocumentation] starts with the opening delimiter and ends with
    the closing one, and it is the stripped text with each delimiter added
    exactly when the stripped text lacks it; for every other style the
    result is the stripped text alone. *)
Theorem cleanDocumentation_delimiters (doc style : jsstring) :
  (style = js "jsdoc" ∨ style = js "tsdoc" ∨ style = js "javadoc" →
   js "/**" `prefix_of` cleanDocumentation doc style
   ∧ js "*/" `suffix_of` cleanDocumentation doc style
   ∧ cleanDocumentation doc style =
       (if startsWith (stripFences doc) (js "/**") then [] else js "/**" ++ [LF])
       ++ stripFences doc
       ++ (if endsWith (stripFences doc) (js "*/") then [] else [LF] ++ js " */"))
  ∧ (style ≠ js "jsdoc" → style ≠ js "tsdoc" → style ≠ js "javadoc" →
     cleanDocumentation doc style = stripFences doc).
Proof.
  split; [|apply cleanDocumentation_other].
  intros Hstyle. rewrite (cleanDocumentation_named doc style Hstyle).
  split; [|split; [|done]].
  - destruct (startsWith (stripFences doc) (js "/**")) eqn:Hs.
    + apply startsWith_prefix in Hs. rewrite app_nil_l. by apply prefix_app_r.
    + rewrite <- app_assoc. by eexists.
  - destruct (endsWith (stripFences doc) (js "*/")) eqn:He.
    + apply endsWith_suffix in He. rewrite app_nil_r. by apply suffix_app_r.
    + do 2 apply suffix_app_r. by exists [LF; chr " "].
Qed.

Lemma cleanDocumentation_delimiters_witness :
  cleanDocumentation (js "Adds two numbers.") (js "jsdoc")
    = js "/**" ++ [LF] ++ js "Adds two numbers." ++ [LF] ++ js " */"
  ∧ cleanDocumentation (js "Adds two numbers.") (js "yard")
    = js "Adds two numbers.".
Proof.
  destruct (cleanDocumentation_delimiters (js "Adds two numbers.") (js "jsdoc"))
    as [Hnamed _].
  destruct (cleanDocumentation_delimiters (js "Adds two numbers.") (js "yard"))
    as [_ Hother].
  split.
  - destruct Hnamed as (_ & _ & ->); [by left|]. reflexivity.
  - rewrite Hother; [reflexivity|discriminate..].
Defined.

(** The scenario of a fenced answer: the fences go, the delimiters stay
    single. *)
Lemma cleanDocumentation_fenced :
  cleanDocumentation
    (js "```" ++ [LF] ++ js "/**" ++ [LF] ++ js " * Adds two numbers." ++ [LF]
     ++ js " */" ++ [LF] ++ js "```") (js "jsdoc")
  = js "/**" ++ [LF] ++ js " * Adds two numbers." ++ [LF] ++ js " */".
Proof. reflexivity. Qed.

(** A clean block is left as it is. *)
Lemma cleanDocumentation_clean (text style : jsstring) :
  js "/**" `prefix_of` text →
  js "*/" `suffix_of` text →
  (¬ ∃ a b, text = a ++ js "```" ++ b) →
  cleanDocumentation text style = text.
Proof.
  intros Hpre Hsuf Hno.
  assert (stripFences text = text) as Hstrip.
  { rewrite stripFences_no_fence by done.
    destruct Hpre as [k ->]. destruct Hsuf as [k' Hk'].
    apply (trim_id (chr "/") (chr "/") _ (k' ++ [chr "*"])); [done|done|].
    rewrite <- app_assoc. exact Hk'. }
  unfold cleanDocumentation. rewrite Hstrip.
  apply startsWith_prefix in Hpre. apply endsWith_suffix in Hsuf.
  rewrite Hpre. cbn [negb]. rewrite Hsuf. cbn [negb].
  by destruct (_ || _).
Qed.

(** C8. On a text that starts with the opening delimiter, ends with the
    closing one and holds no fence, cleaning twice gives what cleaning once
    gives, and that is the text itself: no delimiter is added. *)
Theorem cleanDocumentation_idempotent (text style : jsstring) :
  js "/**" `prefix_of` text →
  js "*/" `suffix_of` text →
  (¬ ∃ a b, text = a ++ js "```" ++ b) →
  cleanDocumentation (cleanDocumentation text style) style
    = cleanDocumentation text style
  ∧ cleanDocumentation text style = text.
Proof.
  intros Hpre Hsuf Hno.
  pose proof (cleanDocumentation_clean text style Hpre Hsuf Hno) as Hclean.
  split; [|exact Hclean]. by rewrite !Hclean.
Qed.

Lemma cleanDocumentation_idempotent_witness :
  cleanDocumentation (cleanDocumentation addsBlock (js "jsdoc")) (js "jsdoc")
    = cleanDocumentation addsBlock (js "jsdoc")
  ∧ cleanDocumentation addsBlock (js "jsdoc") = addsBlock.
Proof.
  apply (cleanDocumentation_idempotent addsBlock (js "jsdoc")).
  - by apply startsWith_prefix.
  - by apply endsWith_suffix.
  - intros H. apply includes_infix in H. vm_compute in H. discriminate.
Defined.

End CleanFacts.

(** ** The end of a brace-delimited function *)

Module BraceEndFacts.
Import JS RegExp DocumentationService JSFacts Spec Scenarios.













(** The count is read at the end of a line only: a line on which it
    passes through 0 and ends above 0 is not the end line. *)
Lemma findFunctionEnd_braces_midline :
  findFunctionEnd [js "if (a) { b(); } else {"; js "  c();"; js "}"] 0
    (js "javascript") = Ok 2.
Proof. reflexivity. Qed.

End BraceEndFacts.

(** ** The search window of the locator *)

Module WindowFacts.
Import JS RegExp DocumentationService JSFacts Spec Scenarios.

Lemma matchesAny_false (patterns : list regex) (line : jsstring) :
  matchesAny patterns line = false ↔
  ∀ p, p ∈ patterns → exec false p line = None.
Proof.
  unfold matchesAny. induction patterns as [|q ps IH]; simpl.
  - split; [|done]. intros _ p Hp. by apply elem_of_nil in Hp.
  - rewrite orb_false_iff, IH, bool_decide_eq_false.
    rewrite <- eq_None_not_Some. split.
    + intros [Hq Hps] p Hp. apply elem_of_cons in Hp as [->|Hp]; auto.
    + intros H. split; [apply H; by left|]. intros p Hp. apply H. by right.
Qed.

(** The patterns tried on an existing line: a function is found exactly
    when one of them matches, and it starts on that line. *)
Lemma tryPatterns_none (lines : list jsstring) (language : jsstring) (i : nat)
    (patterns : list regex) (line : jsstring) :
  lines !! i = Some line →
  (tryPatterns lines language i patterns = Ok None ↔
   matchesAny patterns line = false).
Proof.
  intros Hline. unfold matchesAny.
  induction patterns as [|p ps IH]; simpl; [done|].
  rewrite Hline. destruct (exec false p line) as [m|] eqn:Hm.
  - rewrite bool_decide_eq_true_2 by eauto. simpl.
    split; [|done]. by destruct (findFunctionEnd lines i language).
  - rewrite bool_decide_eq_false_2 by (intros [? ?]; done). simpl. exact IH.
Qed.

Lemma tryPatterns_some (lines : list jsstring) (language : jsstring) (i : nat)
    (patterns : list regex) (f : ParsedFunction) :
  tryPatterns lines language i patterns = Ok (Some f) →
  startLine f = i ∧
  ∃ line, lines !! i = Some line ∧ matchesAny patterns line = true.
Proof.
  unfold matchesAny. induction patterns as [|p ps IH]; simpl; [done|].
  destruct (lines !! i) as [line|] eqn:Hline; [|done].
  destruct (exec false p line) as [m|] eqn:Hm.
  - destruct (findFunctionEnd lines i language) as [e|]; [|done].
    intros [= <-]. split; [done|]. exists line. split; [done|].
    by rewrite bool_decide_eq_true_2 by eauto.
  - intros H. destruct (IH H) as (Hs & line' & [= <-] & Hany).
    split; [done|]. exists line. split; [done|].
    by rewrite Hany, orb_true_r.
Qed.





(** Beyond the last line there is no text to match against. *)
Lemma findFunctionAtPosition_beyond (text : jsstring) (position : Position)
    (language : jsstring) (p : regex) (patterns : list regex) :
  getFunctionPatterns language = Some (p :: patterns) →
  length (split LF text) ≤ line position →
  findFunctionAtPosition text position language = Throw TypeError.
Proof.
  intros Hpat Hout. unfold findFunctionAtPosition. rewrite Hpat.
  assert (split LF text
            !! (Nat.max 0 (line position - 20)
                + (line position - Nat.max 0 (line position - 20))) = None)
    as Hnone by (apply lookup_ge_None; lia).
  destruct (line position - Nat.max 0 (line position - 20));
    cbn [scanBack tryPatterns]; by rewrite Hnone.
Qed.

(** A language named like a member of [Object.prototype] has no pattern
    list to iterate over. *)
Lemma findFunctionAtPosition_inherited (text : jsstring) (position : Position)
    (language : jsstring) :
  getFunctionPatterns language = None →
  findFunctionAtPosition text position language = Throw TypeError.
Proof.
  intros Hpat. unfold findFunctionAtPosition. rewrite Hpat.
  by destruct (line position - Nat.max 0 (line position - 20)).
Qed.

End WindowFacts.

(** ** The usage quota *)

Module QuotaFacts.
Import JS GeminiService JSFacts Spec Scenarios.

Lemma increments_nonneg (ops : list usageOp) : (0 ≤ increments ops)%Z.
Proof. induction ops as [|[|] ops IH]; simpl; lia. Qed.

Ltac run_M :=
  unfold checkQuota, incrementUsage, getUsageStats, toDateString,
    get_lastUsageDate, get_todayUsage, get_totalUsage, update_lastUsageDate,
    update_todayUsage, update_totalUsage, callModel, try_catch, throw,
    mbind, mret, M_bind, M_ret, bind, ret;
  cbn [fst snd globalState calls quad_lastUsageDate quad_todayUsage
         quad_totalUsage].

(** A check on a date other than the stored one. *)
Lemma checkQuota_rollover (svc : Service) (env : Env) (w : World) :
  storedDate w ≠ today env →
  checkQuota svc env w =
    (Ok true,
     {| globalState :=
          {| quad_lastUsageDate := Some (today env);
             quad_todayUsage := Some 0%Z;
             quad_totalUsage := quad_totalUsage (globalState w) |};
        calls := calls w |}).
Proof.
  intros Hne. run_M. fold (storedDate w).
  apply streq_false in Hne. by rewrite Hne.
Qed.

(** A check on the stored date. *)
Lemma checkQuota_same_date (svc : Service) (env : Env) (w : World) :
  storedDate w = today env →
  checkQuota svc env w =
    (Ok (todayCount w <? (if isUsingPool svc then DAILY_POOL_LIMIT
                          else DAILY_OWN_KEY_LIMIT))%Z, w).
Proof.
  intros Heq. run_M. fold (storedDate w). fold (todayCount w).
  apply streq_true in Heq. by rewrite Heq.
Qed.

Lemma incrementUsage_run (env : Env) (w : World) :
  incrementUsage env w =
    (Ok tt,
     {| globalState :=
          {| quad_lastUsageDate := quad_lastUsageDate (globalState w);
             quad_todayUsage := Some (todayCount w + 1)%Z;
             quad_totalUsage := Some (totalCount w + 1)%Z |};
        calls := calls w |}).
Proof. by run_M. Qed.

(** On the stored date, an operation leaves the date and adds one to both
    counters (an increment) or nothing (a check). *)
Lemma runOp_same_date (svc : Service) (env : Env) (w : World) (op : usageOp) :
  storedDate w = today env →
  storedDate (runOp svc env w op) = today env
  ∧ todayCount (runOp svc env w op) = (todayCount w + increments [op])%Z
  ∧ totalCount (runOp svc env w op) = (totalCount w + increments [op])%Z
  ∧ calls (runOp svc env w op) = calls w.
Proof.
  intros Heq. destruct op; unfold runOp.
  - rewrite checkQuota_same_date by done. simpl. repeat split; [done|lia|lia].
  - rewrite incrementUsage_run. by unfold storedDate, todayCount, totalCount.
Qed.

Lemma runOps_same_date (svc : Service) (env : Env) (ops : list usageOp)
    (w : World) :
  storedDate w = today env →
  storedDate (runOps svc env ops w) = today env
  ∧ todayCount (runOps svc env ops w) = (todayCount w + increments ops)%Z
  ∧ totalCount (runOps svc env ops w) = (totalCount w + increments ops)%Z.
Proof.
  revert w. induction ops as [|op ops IH]; intros w Heq.
  - simpl. repeat split; [done|lia..].
  - unfold runOps. cbn [foldl]. fold (runOps svc env ops (runOp svc env w op)).
    destruct (runOp_same_date svc env w op Heq) as (Hd & Ht & Hs & _).
    destruct (IH _ Hd) as (Hd' & Ht' & Hs').
    rewrite Ht', Hs', Ht, Hs. split; [done|].
    destruct op; simpl; lia.
Qed.

(** C4.  With the stored date equal to the current date and today's
    count at the limit in force or beyond (20 under the pool, 1500 with a
    key of the user's), [generateDocumentation] throws and leaves the world
    as it was: no external call is recorded and no counter moves.  It
    throws the QUOTA error when the service has a model and the API_KEY
    error when it has none; and a service the source builds has no model
    whenever it is on the pool. *)
Theorem generateDocumentation_at_limit
    (buildDocumentationPrompt : DocumentationRequest → jsstring)
    (svc : Service) (request : DocumentationRequest) (env : Env) (w : World) :
  storedDate w = today env →
  (limitOf svc ≤ todayCount w)%Z →
  generateDocumentation buildDocumentationPrompt svc request env w
  = (Throw (ErrorObject
              (if isReady svc
               then js "QUOTA: Daily request limit exceeded"
               else js "API_KEY: Gemini API key not configured")), w)
  ∧ limitOf svc = (if isUsingPool svc then 20 else 1500)%Z
  ∧ (∀ userKey usePool,
       isUsingPool (newGeminiService userKey usePool) = true →
       isReady (newGeminiService userKey usePool) = false)
  ∧ (∀ svc0 newKey, isUsingPool (updateApiKey svc0 newKey) = false).
Proof.
  intros Hdate Hfull. split; [|split; [done|split; [|done]]].
  - unfold generateDocumentation, isReady.
    destruct (model svc) as [m|]; [|done].
    unfold mbind, M_bind, bind. rewrite checkQuota_same_date by done.
    fold (limitOf svc).
    replace (todayCount w <? limitOf svc)%Z with false; [done|].
    symmetry. by apply Z.ltb_ge.
  - intros userKey usePool.
    unfold newGeminiService, initializeApiKey, isReady.
    destruct (streq userKey []); cbn [negb]; [|done].
    by destruct usePool.
Qed.

Lemma generateDocumentation_at_limit_witness :
  generateDocumentation codeAsPrompt ownKeyService someRequest
    (answering (js "/** */")) ownKeyExhaustedWorld
  = (Throw (ErrorObject (js "QUOTA: Daily request limit exceeded")),
     ownKeyExhaustedWorld).
Proof.
  apply (generateDocumentation_at_limit codeAsPrompt ownKeyService someRequest
           (answering (js "/** */")) ownKeyExhaustedWorld).
  - reflexivity.
  - vm_compute. discriminate.
Defined.

(** C4, as stated, fails: the service the source builds for the pool has
    the placeholder for a key and so no model, and with the pool in use, the
    stored date the current one and today's count at 20 the call fails on
    that, with the API_KEY error, before it looks at the quota. *)
Lemma generateDocumentation_pool_not_quota :
  poolService = initializeApiKey (js "QUAD_POOL_PLACEHOLDER") [] true
  ∧ isUsingPool poolService = true
  ∧ storedDate exhaustedWorld = today (answering (js "/** */"))
  ∧ todayCount exhaustedWorld = 20%Z
  ∧ generateDocumentation codeAsPrompt poolService someRequest
      (answering (js "/** */")) exhaustedWorld
    = (Throw (ErrorObject (js "API_KEY: Gemini API key not configured")),
       exhaustedWorld).
Proof. repeat split; reflexivity. Qed.

(** Before the limit the call goes out. *)
Lemma generateDocumentation_below_limit :
  generateDocumentation codeAsPrompt ownKeyService someRequest
    (answering (js "/** */")) ownKeyNearlyExhaustedWorld
  = (Ok (js "/** */"),
     {| globalState := {| quad_lastUsageDate := Some (js "Mon Nov 02 2026");
                          quad_todayUsage := Some 1500%Z;
                          quad_totalUsage := Some 1537%Z |};
        calls := [js "function add(a, b) {}"] |}).
Proof. reflexivity. Qed.

(** C5. The today counter is set to zero by the first check on a date
    other than the stored one, which also stores the new date; from then on
    no check and no increment on that date resets it: a check changes
    nothing, an increment adds one to the today counter and one to the
    total, and after any run of them the counters stand at their values
    after the first check plus the number of increments.  No operation
    lowers the total, and none lowers the today counter on the stored date.
    A successful generation adds exactly one to each counter. *)
Theorem usage_counters
    (buildDocumentationPrompt : DocumentationRequest → jsstring)
    (svc : Service) (env : Env) (w : World) :
  (storedDate w ≠ today env →
   storedDate (runOp svc env w Check) = today env
   ∧ todayCount (runOp svc env w Check) = 0%Z
   ∧ totalCount (runOp svc env w Check) = totalCount w)
  ∧ (storedDate w = today env → runOp svc env w Check = w)
  ∧ (storedDate (runOp svc env w Increment) = storedDate w
     ∧ todayCount (runOp svc env w Increment) = (todayCount w + 1)%Z
     ∧ totalCount (runOp svc env w Increment) = (totalCount w + 1)%Z)
  ∧ (∀ ops,
       storedDate (runOps svc env (Check :: ops) w) = today env
       ∧ todayCount (runOps svc env (Check :: ops) w)
         = (todayCount (runOp svc env w Check) + increments ops)%Z
       ∧ totalCount (runOps svc env (Check :: ops) w)
         = (totalCount w + increments ops)%Z
       ∧ (0 ≤ increments ops)%Z)
  ∧ (∀ op,
       (totalCount w ≤ totalCount (runOp svc env w op))%Z
       ∧ (storedDate w = today env →
          (todayCount w ≤ todayCount (runOp svc env w op))%Z))
  ∧ (∀ request m text,
       model svc = Some m →
       fst (checkQuota svc env w) = Ok true →
       generateContent env m (buildDocumentationPrompt request) = Ok text →
       ∃ w', generateDocumentation buildDocumentationPrompt svc request env w
             = (Ok text, w')
             ∧ storedDate w' = today env
             ∧ todayCount w' = (todayCount (runOp svc env w Check) + 1)%Z
             ∧ totalCount w' = (totalCount w + 1)%Z).
Proof.
  assert (storedDate (runOp svc env w Check) = today env
          ∧ totalCount (runOp svc env w Check) = totalCount w) as [Hd1 Hs1].
  { unfold runOp. destruct (decide (storedDate w = today env)) as [Heq|Hne].
    - by rewrite checkQuota_same_date.
    - by rewrite checkQuota_rollover. }
  split; [|split; [|split; [|split; [|split]]]].
  - intros Hne. split; [done|split; [|done]].
    unfold runOp. by rewrite checkQuota_rollover.
  - intros Heq. unfold runOp. by rewrite checkQuota_same_date.
  - unfold runOp. by rewrite incrementUsage_run.
  - intros ops. unfold runOps. cbn [foldl].
    fold (runOps svc env ops (runOp svc env w Check)).
    destruct (runOps_same_date svc env ops _ Hd1) as (Hd & Ht & Hs).
    rewrite Hd, Ht, Hs, Hs1. repeat split. apply increments_nonneg.
  - intros op. split.
    + destruct op; [lia|]. unfold runOp. rewrite incrementUsage_run.
      unfold totalCount at 2. simpl. lia.
    + intros Heq. destruct (runOp_same_date svc env w op Heq) as (_ & Ht & _).
      rewrite Ht. destruct op; simpl; lia.
  - intros request m text Hmodel Hquota Hcall.
    unfold generateDocumentation. rewrite Hmodel.
    unfold mbind, M_bind, bind at 1.
    unfold runOp in Hd1, Hs1 |- *.
    destruct (checkQuota svc env w) as [r w1] eqn:Hcheck.
    simpl in Hquota, Hd1, Hs1 |- *. subst r. cbn [negb].
    unfold try_catch, bind, callModel. rewrite Hcall.
    rewrite incrementUsage_run. unfold ret.
    eexists. split; [reflexivity|].
    unfold storedDate, todayCount, totalCount in *. simpl.
    split; [done|]. split; [done|]. by rewrite Hs1.
Qed.

Lemma usage_counters_witness :
  todayCount (runOp ownKeyService (answering (js "/** */")) yesterdayWorld Check)
    = 0%Z
  ∧ todayCount (runOps ownKeyService (answering (js "/** */"))
                  [Check; Increment; Check; Increment; Check] yesterdayWorld)
    = 2%Z
  ∧ ∃ w', generateDocumentation codeAsPrompt ownKeyService someRequest
            (answering (js "/** */")) yesterdayWorld = (Ok (js "/** */"), w')
          ∧ todayCount w' = 1%Z ∧ totalCount w' = 58%Z.
Proof.
  destruct (usage_counters codeAsPrompt ownKeyService (answering (js "/** */"))
              yesterdayWorld) as (Hroll & _ & _ & Hrun & _ & Hgen).
  destruct Hroll as (_ & Hzero & _); [vm_compute; discriminate|].
  split; [exact Hzero|split].
  - destruct (Hrun [Increment; Check; Increment; Check]) as (_ & Ht & _).
    rewrite Ht, Hzero. reflexivity.
  - destruct (Hgen someRequest
                {| modelKey := js "AIza-own-key"; modelName := js "gemini-pro" |}
                (js "/** */") eq_refl eq_refl eq_refl)
      as (w' & Hw' & _ & Ht & Hs).
    exists w'. split; [exact Hw'|]. rewrite Ht, Hs, Hzero. by split.
Defined.

(** C10. [getUsageStats] returns its statistics and leaves the world as it
    was, also when the stored date is not the current date: it then reports
    0 requests for today while the stored counter and date stay.  The
    reported pool remainder is never negative. *)
Theorem getUsageStats_reads_only (svc : Service) (env : Env) (w : World) :
  ∃ stats,
    getUsageStats svc env w = (Ok stats, w)
    ∧ (storedDate w ≠ today env → todayRequests stats = 0%Z)
    ∧ (storedDate w = today env → todayRequests stats = todayCount w)
    ∧ totalRequests stats = totalCount w
    ∧ (0 ≤ poolRemaining stats)%Z.
Proof.
  eexists. split; [by run_M|]. cbn [todayRequests totalRequests poolRemaining].
  fold (storedDate w). fold (todayCount w). fold (totalCount w).
  split; [|split; [|split; [done|]]].
  - intros Hne. apply streq_false in Hne. by rewrite Hne.
  - intros Heq. apply streq_true in Heq. by rewrite Heq.
  - destruct (isUsingPool svc); lia.
Qed.

Lemma getUsageStats_reads_only_witness :
  ∃ stats,
    getUsageStats poolService (answering (js "/** */")) yesterdayWorld
      = (Ok stats, yesterdayWorld)
    ∧ todayRequests stats = 0%Z
    ∧ todayCount yesterdayWorld = 5%Z
    ∧ poolRemaining stats = 20%Z.
Proof.
  destruct (getUsageStats_reads_only poolService (answering (js "/** */"))
              yesterdayWorld) as (stats & Hrun & Hne & _ & _ & _).
  exists stats. split; [exact Hrun|].
  split; [apply Hne; vm_compute; discriminate|].
  split; [reflexivity|].
  vm_compute in Hrun. by injection Hrun as <-.
Defined.

End QuotaFacts.

(** ** Bounds of the end line, and all functions of a document *)

Module AllFunctionsFacts.
Import JS RegExp DocumentationService JSFacts RegExpFacts Spec Scenarios.
Import WindowFacts.

Lemma pythonScan_bounds (startIndent : nat) (rest : list jsstring) (i e : nat) :
  pythonScan startIndent rest i = Some e →
  i - 1 ≤ e ∧ e < i + length rest.
Proof.
  revert i. induction rest as [|l rest IH]; intros i; [done|].
  cbn [pythonScan length].
  destruct (streq (trim l) [] || startsWith (trim l) (js "#")).
  - intros H. apply IH in H. lia.
  - destruct ((getIndentLevel l <=? startIndent) && negb (streq (trim l) [])).
    + intros [= <-]. lia.
    + intros H. apply IH in H. lia.
Qed.

Lemma braceScan_bounds (rest : list jsstring) (i : nat) (braceCount : Z)
    (started : bool) (e : nat) :
  braceScan rest i braceCount started = Some e →
  i ≤ e < i + length rest.
Proof.
  revert i braceCount started.
  induction rest as [|l rest IH]; intros i braceCount started; [done|].
  cbn [braceScan length].
  destruct (foldl braceStep (braceCount, started) l) as [bc st].
  destruct (st && (bc =? 0)%Z).
  - intros [= <-]. lia.
  - intros H. apply IH in H. lia.
Qed.

Lemma findFunctionEnd_inside (lines : list jsstring) (startLine : nat)
    (language : jsstring) :
  startLine < length lines →
  ∃ e, findFunctionEnd lines startLine language = Ok e
       ∧ startLine ≤ e < length lines.
Proof.
  intros Hin. unfold findFunctionEnd.
  destruct (streq language (js "python")).
  - destruct (lookup_lt_is_Some_2 lines startLine Hin) as [l0 ->].
    destruct (pythonScan _ _ _) as [e|] eqn:Hscan.
    + exists e. split; [done|]. apply pythonScan_bounds in Hscan.
      rewrite length_drop in Hscan. lia.
    + eexists. split; [done|]. lia.
  - destruct (braceScan _ _ _ _) as [e|] eqn:Hscan.
    + exists e. split; [done|]. apply braceScan_bounds in Hscan.
      rewrite length_drop in Hscan. lia.
    + eexists. split; [done|]. lia.
Qed.

(** From a start line inside the document, [findFunctionEnd] never throws
    and its end line lies between the start line and the last line, for
    every language. *)
Theorem findFunctionEnd_bounds (lines : list jsstring) (startLine : nat)
    (language : jsstring) :
  startLine < length lines →
  ∃ e, findFunctionEnd lines startLine language = Ok e
       ∧ startLine ≤ e < length lines.
Proof. apply findFunctionEnd_inside. Qed.

Lemma findFunctionEnd_bounds_witness :
  ∃ e, findFunctionEnd twoDefs 0 (js "python") = Ok e ∧ 0 ≤ e < 4.
Proof. apply (findFunctionEnd_bounds twoDefs 0 (js "python")). simpl. lia. Defined.

(** What a function found on a line carries. *)
Lemma tryPatterns_fields (lines : list jsstring) (language : jsstring) (i : nat)
    (patterns : list regex) (f : ParsedFunction) :
  tryPatterns lines language i patterns = Ok (Some f) →
  startLine f = i
  ∧ findFunctionEnd lines i language = Ok (endLine f)
  ∧ code f = join [LF] (slice lines i (endLine f + 1))
  ∧ name f ≠ []
  ∧ isMethod f = false.
Proof.
  induction patterns as [|p ps IH]; cbn [tryPatterns]; [done|].
  destruct (lines !! i) as [line|]; [|done].
  destruct (exec false p line) as [m|]; [|exact IH].
  destruct (findFunctionEnd lines i language) as [e|]; [|done].
  intros [= <-]. cbn. repeat split.
  unfold nameOf. by destruct (m_group1 m) as [[|c g]|].
Qed.

Lemma tryPatterns_found (lines : list jsstring) (language : jsstring) (i : nat)
    (patterns : list regex) (line : jsstring) :
  lines !! i = Some line →
  matchesAny patterns line = true →
  ∃ f, tryPatterns lines language i patterns = Ok (Some f).
Proof.
  intros Hline Hany.
  destruct (findFunctionEnd_inside lines i language) as (e & He & _);
    [by eapply lookup_lt_Some|].
  pose proof (tryPatterns_none lines language i patterns line Hline) as Hnone.
  induction patterns as [|p ps IH]; [done|].
  cbn [tryPatterns]. rewrite Hline, He.
  destruct (exec false p line) as [m|] eqn:Hm; [by eexists|].
  apply IH.
  - unfold matchesAny in Hany |- *. cbn [existsb] in Hany. rewrite Hm in Hany.
    by rewrite bool_decide_eq_false_2 in Hany by (intros [? ?]; done).
  - by apply tryPatterns_none.
Qed.

(** The loop of [findAllFunctions], line by line. *)
Lemma allFrom_spec (lines : list jsstring) (language : jsstring)
    (patterns : list regex) (n i : nat) :
  i + n = length lines →
  ∃ functions,
    allFrom lines language (Some patterns) i n = Ok functions
    ∧ startLine <$> functions = matchingFrom patterns (drop i lines) i
    ∧ Forall (λ f, tryPatterns lines language (startLine f) patterns
                   = Ok (Some f)) functions.
Proof.
  revert i. induction n as [|n IH]; intros i Hlen.
  - exists []. rewrite drop_ge by lia. by repeat split.
  - destruct (lookup_lt_is_Some_2 lines i ltac:(lia)) as [line Hline].
    destruct (IH (S i) ltac:(lia)) as (fs & Hfs & Hstarts & Hall).
    cbn [allFrom]. rewrite Hfs.
    rewrite (drop_S _ _ _ Hline). cbn [matchingFrom].
    destruct (matchesAny patterns line) eqn:Hany.
    + destruct (tryPatterns_found lines language i patterns line Hline Hany)
        as [f Hf].
      rewrite Hf. exists (f :: fs).
      destruct (tryPatterns_fields _ _ _ _ _ Hf) as (Hs & _).
      split; [done|]. split.
      * rewrite fmap_cons, Hs. by f_equal.
      * constructor; [by rewrite Hs|done].
    + apply (tryPatterns_none lines language i patterns line Hline) in Hany.
      rewrite Hany. by exists fs.
Qed.

Lemma matchingFrom_bounds (patterns : list regex) (rest : list jsstring)
    (i j : nat) :
  j ∈ matchingFrom patterns rest i → i ≤ j < i + length rest.
Proof.
  revert i. induction rest as [|l rest IH]; intros i; cbn [matchingFrom length].
  - by intros ?%elem_of_nil.
  - destruct (matchesAny patterns l).
    + intros [->|H%IH]%elem_of_cons; lia.
    + intros H%IH. lia.
Qed.

Lemma matchingFrom_sorted (patterns : list regex) (rest : list jsstring)
    (i : nat) :
  StronglySorted lt (matchingFrom patterns rest i).
Proof.
  revert i. induction rest as [|l rest IH]; intros i; cbn [matchingFrom].
  - constructor.
  - destruct (matchesAny patterns l); [|apply IH].
    constructor; [apply IH|]. apply Forall_forall. intros j Hj.
    apply matchingFrom_bounds in Hj. lia.
Qed.

Lemma matchingFrom_elem (patterns : list regex) (rest : list jsstring)
    (i j : nat) :
  j ∈ matchingFrom patterns rest i ↔
  ∃ l, i ≤ j ∧ rest !! (j - i) = Some l ∧ matchesAny patterns l = true.
Proof.
  revert i. induction rest as [|l rest IH]; intros i; cbn [matchingFrom].
  - split; [by intros ?%elem_of_nil|]. by intros (? & _ & ? & _).
  - assert (j ∈ matchingFrom patterns rest (S i) ↔
            ∃ l', i < j ∧ (l :: rest) !! (j - i) = Some l'
                  ∧ matchesAny patterns l' = true) as Htail.
    { rewrite IH. split; intros (l' & Hj & Hl' & Hm); exists l'.
      - split; [lia|]. split; [|done].
        replace (j - i) with (S (j - S i)) by lia. done.
      - split; [lia|]. split; [|done].
        replace (j - i) with (S (j - S i)) in Hl' by lia. done. }
    destruct (matchesAny patterns l) eqn:Hl.
    + rewrite elem_of_cons, Htail. split.
      * intros [->|(l' & Hj & Hl' & Hm)].
        -- exists l. rewrite Nat.sub_diag. by repeat split.
        -- exists l'. split; [lia|done].
      * intros (l' & Hj & Hl' & Hm).
        destruct (decide (j = i)) as [->|Hne]; [by left|].
        right. exists l'. split; [lia|done].
    + rewrite Htail. split.
      * intros (l' & Hj & Hl' & Hm). exists l'. split; [lia|done].
      * intros (l' & Hj & Hl' & Hm).
        destruct (decide (j = i)) as [->|Hne].
        -- rewrite Nat.sub_diag in Hl'. injection Hl' as <-. congruence.
        -- exists l'. split; [lia|done].
Qed.

(** [findAllFunctions] returns, without throwing, one function for each
    line that matches a pattern of the language and none for any other line,
    in line order: nested and overlapping functions are all listed. *)
Theorem findAllFunctions_lines (text language : jsstring)
    (patterns : list regex) :
  getFunctionPatterns language = Some patterns →
  ∃ functions,
    findAllFunctions text language = Ok functions
    ∧ startLine <$> functions = matchingLines patterns (split LF text)
    ∧ StronglySorted lt (startLine <$> functions)
    ∧ (∀ j, j ∈ (startLine <$> functions) ↔
            ∃ l, split LF text !! j = Some l ∧ matchesAny patterns l = true).
Proof.
  intros Hpat. unfold findAllFunctions. rewrite Hpat.
  destruct (allFrom_spec (split LF text) language patterns
              (length (split LF text)) 0 eq_refl) as (fs & Hfs & Hstarts & _).
  exists fs. rewrite drop_0 in Hstarts. fold (matchingLines patterns (split LF text)) in Hstarts.
  split; [done|]. split; [done|]. rewrite Hstarts. split.
  - apply matchingFrom_sorted.
  - intros j. unfold matchingLines. rewrite matchingFrom_elem.
    rewrite Nat.sub_0_r. split.
    + intros (l & _ & Hl & Hm). by exists l.
    + intros (l & Hl & Hm). exists l. split; [lia|done].
Qed.

Lemma findAllFunctions_lines_witness :
  ∃ functions,
    findAllFunctions addDocument (js "javascript") = Ok functions
    ∧ startLine <$> functions = [0].
Proof.
  destruct (findAllFunctions_lines addDocument (js "javascript")
              (default [] (getFunctionPatterns (js "javascript"))) eq_refl)
    as (fs & Hfs & Hstarts & _).
  exists fs. split; [exact Hfs|]. rewrite Hstarts. reflexivity.
Defined.

Lemma findAllFunctions_member (text language : jsstring)
    (functions : list ParsedFunction) (f : ParsedFunction) :
  findAllFunctions text language = Ok functions →
  f ∈ functions →
  startLine f ≤ endLine f < length (split LF text)
  ∧ code f = join [LF] (slice (split LF text) (startLine f) (endLine f + 1))
  ∧ findFunctionAtPosition text {| line := startLine f; character := 0 |}
      language = Ok (Some f).
Proof.
  unfold findAllFunctions, findFunctionAtPosition. intros Hall Hf.
  destruct (getFunctionPatterns language) as [patterns|] eqn:Hpat.
  - destruct (allFrom_spec (split LF text) language patterns
                (length (split LF text)) 0 eq_refl) as (fs & Hfs & _ & Hfound).
    rewrite Hfs in Hall. injection Hall as <-.
    rewrite Forall_forall in Hfound. specialize (Hfound f Hf).
    destruct (tryPatterns_fields _ _ _ _ _ Hfound) as (_ & Hend & Hcode & _).
    destruct (tryPatterns_some _ _ _ _ _ Hfound) as (_ & l & Hl & _).
    apply lookup_lt_Some in Hl.
    destruct (findFunctionEnd_inside (split LF text) (startLine f) language Hl)
      as (e & He & Hbounds).
    rewrite Hend in He. injection He as <-.
    split; [done|]. split; [done|].
    cbn [line].
    replace (Nat.max 0 (startLine f - 20)
             + (startLine f - Nat.max 0 (startLine f - 20)))
      with (startLine f) in * by lia.
    assert (∀ lo d, lo + d = startLine f →
              scanBack (split LF text) language (Some patterns) lo d
              = Ok (Some f)) as Hscan.
    { intros lo d Hd. destruct d; cbn [scanBack]; by rewrite Hd, Hfound. }
    apply Hscan. lia.
  - destruct (split_cons LF text) as (p & ps & Hsplit).
    rewrite Hsplit in Hall. by cbn in Hall.
Qed.

(** Each function [findAllFunctions] returns ends at or after its start
    line and inside the document, carries as code the lines from its start
    line to its end line, and is the function [findFunctionAtPosition]
    finds at its start line: locating again at a listed start line gives
    the listed function. *)
Theorem findAllFunctions_each (text language : jsstring)
    (functions : list ParsedFunction) (f : ParsedFunction) :
  findAllFunctions text language = Ok functions →
  f ∈ functions →
  startLine f ≤ endLine f < length (split LF text)
  ∧ code f = join [LF] (slice (split LF text) (startLine f) (endLine f + 1))
  ∧ findFunctionAtPosition text {| line := startLine f; character := 0 |}
      language = Ok (Some f).
Proof. apply findAllFunctions_member. Qed.

Lemma findAllFunctions_each_witness :
  findAllFunctions addDocument (js "javascript") = Ok [addFunction]
  ∧ findFunctionAtPosition addDocument {| line := 0; character := 0 |}
      (js "javascript") = Ok (Some addFunction).
Proof.
  assert (findAllFunctions addDocument (js "javascript") = Ok [addFunction])
    as Hall by reflexivity.
  split; [exact Hall|].
  apply (findAllFunctions_each addDocument (js "javascript") [addFunction]
           addFunction Hall).
  by apply list_elem_of_singleton.
Defined.

(** A language named like a member of [Object.prototype] makes
    [findAllFunctions] throw on the first line. *)
Lemma findAllFunctions_inherited (text language : jsstring) :
  getFunctionPatterns language = None →
  findAllFunctions text language = Throw TypeError.
Proof.
  intros Hpat. unfold findAllFunctions. rewrite Hpat.
  destruct (split_cons LF text) as (p & ps & ->). reflexivity.
Qed.

End AllFunctionsFacts.

(** ** The parameters of a signature *)

Module ParameterFacts.
Import JS RegExp DocumentationService JSFacts RegExpFacts Spec Scenarios.

(** A greedy star over a class, before a continuation that fails wherever
    the class could still go on, takes the whole run of the class. *)
Lemma starLoop_class_run (ml : bool) (p : jschar → bool)
    (k : mstate → option mstate) (fuel : nat) (bef aft : jsstring)
    (cap : option jsstring) :
  (∀ st d rest, after st = d :: rest → p d = true → k st = None) →
  length aft < fuel →
  ∃ bef', starLoop (rmatch ml (RClass p)) k fuel (MState bef aft cap)
          = k (MState bef' (skipWhile p aft) cap).
Proof.
  intros Hk. revert bef aft.
  induction fuel as [|fuel IH]; intros bef aft Hlen; [lia|].
  rewrite starLoop_S, rmatch_RClass. cbn [after before capture].
  destruct aft as [|d rest]; [by exists bef|].
  cbn [skipWhile]. destruct (p d) eqn:Hd; [|by exists bef].
  replace (length rest <? length (d :: rest)) with true
    by (symmetry; apply Nat.ltb_lt; simpl; lia).
  destruct (IH (d :: bef) rest ltac:(simpl in Hlen; lia)) as [bef' Hbef'].
  exists bef'. rewrite Hbef'.
  rewrite (Hk (MState bef (d :: rest) cap) d rest eq_refl Hd).
  by destruct (k _).
Qed.

Lemma take_app_minus {A : Type} (a b : list A) :
  take (length (a ++ b) - length b) (a ++ b) = a.
Proof.
  rewrite length_app, Nat.add_sub. apply take_app_length.
Qed.

Lemma skipWhile_app (p : jschar → bool) (s : jsstring) (c : jschar)
    (t : jsstring) :
  forallb p s = true → p c = false → skipWhile p (s ++ c :: t) = c :: t.
Proof.
  intros Hs Hc. induction s as [|d s IH]; simpl; [by rewrite Hc|].
  simpl in Hs. apply andb_true_iff in Hs as [-> Hs]. by apply IH.
Qed.

Lemma skipWhile_split (p : jschar → bool) (s : jsstring) :
  ∃ a, s = a ++ skipWhile p s ∧ forallb p a = true.
Proof.
  induction s as [|c s (a & Ha & Hp)]; [by exists []|].
  simpl. destruct (p c) eqn:Hc; [|by exists []].
  exists (c :: a). simpl. rewrite Hc, Hp. split; [by f_equal|done].
Qed.

Lemma forallb_notCloseParen (s : jsstring) :
  forallb notCloseParen s = true ↔ chr ")" ∉ s.
Proof.
  induction s as [|c s IH]; cbn [forallb].
  - split; [|done]. intros _ H. by apply elem_of_nil in H.
  - rewrite andb_true_iff, IH, not_elem_of_cons. unfold notCloseParen.
    rewrite negb_true_iff, N.eqb_neq.
    split; intros [? ?]; (split; [congruence|done]).
Qed.

(** One attempt of the parameter pattern: at an opening parenthesis, with
    a closing one after the run of other units. *)
Lemma match_here_parameter (bef aft : jsstring) :
  ∃ bef',
    match_here false parameterPattern (MState bef aft None)
    = match aft with
      | c :: rest =>
          if (c =? chr "(")%N then
            match skipWhile notCloseParen rest with
            | d :: post =>
                if (d =? chr ")")%N
                then Some (MState (d :: bef') post
                             (Some (take (length rest - length (d :: post))
                                      rest)))
                else None
            | [] => None
            end
          else None
      | [] => None
      end.
Proof.
  destruct aft as [|c rest]; [by exists []|].
  set (k := λ st2 : mstate,
         match after st2 with
         | d :: post =>
             if (d =? chr ")")%N
             then Some (MState (d :: before st2) post
                          (Some (take (length rest - length (after st2)) rest)))
             else None
         | [] => None
         end).
  assert (match_here false parameterPattern (MState bef (c :: rest) None)
          = if (c =? chr "(")%N
            then starLoop (rmatch false (RClass notCloseParen)) k
                   (S (length rest)) (MState (c :: bef) rest None)
            else None) as -> by reflexivity.
  destruct (c =? chr "(")%N; [|by exists []].
  destruct (starLoop_class_run false notCloseParen k (S (length rest))
              (c :: bef) rest None) as [bef' Hrun]; [|lia|].
  { intros st d rest' Haft Hd. unfold k. rewrite Haft.
    unfold notCloseParen in Hd. apply negb_true_iff in Hd. by rewrite Hd. }
  exists bef'. rewrite Hrun. unfold k. cbn [after before capture].
  by destruct (skipWhile notCloseParen rest).
Qed.

(** The leftmost match: nothing before the first opening parenthesis. *)
Lemma search_parameter_skip (pre bef aft : jsstring) :
  chr "(" ∉ pre →
  search false parameterPattern bef (pre ++ aft)
  = search false parameterPattern (reverse pre ++ bef) aft.
Proof.
  revert bef. induction pre as [|c pre IH]; intros bef Hpre; [done|].
  apply not_elem_of_cons in Hpre as [Hc Hpre].
  cbn [app search].
  destruct (match_here_parameter bef (c :: pre ++ aft)) as [bef' ->].
  replace (c =? chr "(")%N with false
    by (symmetry; apply N.eqb_neq; congruence).
  rewrite IH by done. by rewrite reverse_cons, <- app_assoc.
Qed.

Lemma search_parameter_none (bef aft : jsstring) :
  (∀ pre inner post : jsstring,
     aft ≠ pre ++ [chr "("] ++ inner ++ [chr ")"] ++ post) →
  search false parameterPattern bef aft = None.
Proof.
  revert bef. induction aft as [|c aft IH]; intros bef Hno.
  - cbn [search]. by destruct (match_here_parameter bef []) as [bef' ->].
  - cbn [search].
    destruct (match_here_parameter bef (c :: aft)) as [bef' ->].
    assert (search false parameterPattern (c :: bef) aft = None) as ->.
    { apply IH. intros pre inner post ->. by apply (Hno (c :: pre) inner post). }
    destruct (c =? chr "(")%N eqn:Hc; [|done].
    apply N.eqb_eq in Hc as ->.
    destruct (skipWhile_split notCloseParen aft) as (inner & Hsplit & Hinner).
    destruct (skipWhile notCloseParen aft) as [|d post]; [done|].
    destruct (d =? chr ")")%N eqn:Hd; [|done].
    apply N.eqb_eq in Hd as ->. exfalso.
    apply (Hno [] inner post). by rewrite Hsplit at 1.
Qed.

(** [extractParameters] reads the text between the first opening
    parenthesis of the line and the first closing parenthesis after it: it
    returns the pieces between the commas of that text, trimmed, and no
    parameter when that text is blank; a line without such a pair of
    parentheses has no parameters. *)
Theorem extractParameters_between (line language : jsstring) :
  (∀ pre inner post : jsstring,
     line = pre ++ [chr "("] ++ inner ++ [chr ")"] ++ post →
     chr "(" ∉ pre → chr ")" ∉ inner →
     extractParameters line language
     = if streq (trim inner) [] then []
       else trim <$> split (chr ",") (trim inner))
  ∧ ((∀ pre inner post : jsstring,
        line ≠ pre ++ [chr "("] ++ inner ++ [chr ")"] ++ post) →
     extractParameters line language = []).
Proof.
  unfold extractParameters, exec. split.
  - intros pre inner post -> Hpre Hinner.
    rewrite search_parameter_skip by done. cbn [app search].
    destruct (match_here_parameter (reverse pre ++ [])
                (chr "(" :: inner ++ chr ")" :: post)) as [bef' ->].
    rewrite N.eqb_refl.
    rewrite skipWhile_app; [|by apply forallb_notCloseParen|done].
    rewrite N.eqb_refl. cbn [capture m_group1 default].
    by rewrite take_app_minus.
  - intros Hno. by rewrite search_parameter_none.
Qed.

Lemma extractParameters_between_witness :
  extractParameters (js "def area( width ,height=2 ) -> int:") (js "python")
    = [js "width"; js "height=2"]
  ∧ extractParameters (js "fn main") (js "rust") = [].
Proof.
  destruct (extractParameters_between
              (js "def area( width ,height=2 ) -> int:") (js "python"))
    as [Hpair _].
  destruct (extractParameters_between (js "fn main") (js "rust"))
    as [_ Hnone].
  split.
  - rewrite (Hpair (js "def area") (js " width ,height=2 ") (js " -> int:")).
    + reflexivity.
    + reflexivity.
    + intros H. apply list_elem_of_In in H. vm_compute in H. intuition discriminate.
    + intros H. apply list_elem_of_In in H. vm_compute in H. intuition discriminate.
  - apply Hnone. intros pre inner post H.
    assert (chr "(" ∈ js "fn main") as Hin
      by (rewrite H, !elem_of_app; right; left; by apply list_elem_of_singleton).
    apply list_elem_of_In in Hin. vm_compute in Hin. intuition discriminate.
Defined.

End ParameterFacts.

(** ** Indentation of the documentation, and its recognition *)

Module IndentFacts.
Import JS RegExp DocumentationService JSFacts RegExpFacts Spec Scenarios.
Import CleanFacts.

Lemma split_free (sep : jschar) (s : jsstring) :
  sep ∉ s → split sep s = [s].
Proof.
  induction s as [|c s IH]; [done|].
  intros [Hc Hs]%not_elem_of_cons. cbn [split].
  replace (c =? sep)%N with false by (symmetry; apply N.eqb_neq; congruence).
  by rewrite IH.
Qed.

Lemma split_app (sep : jschar) (a rest : jsstring) :
  sep ∉ a → split sep (a ++ sep :: rest) = a :: split sep rest.
Proof.
  induction a as [|c a IH]; intros Ha.
  - cbn [app split]. by rewrite N.eqb_refl.
  - apply not_elem_of_cons in Ha as [Hc Ha]. cbn [app split].
    replace (c =? sep)%N with false by (symmetry; apply N.eqb_neq; congruence).
    by rewrite IH.
Qed.

(** No piece of a split holds the separator. *)
Lemma split_pieces (sep : jschar) (s : jsstring) :
  Forall (λ p, sep ∉ p) (split sep s).
Proof.
  induction s as [|c s IH]; cbn [split].
  - repeat constructor. by intros ?%elem_of_nil.
  - destruct (c =? sep)%N eqn:Hc.
    + constructor; [by intros ?%elem_of_nil|done].
    + apply N.eqb_neq in Hc.
      destruct (split sep s) as [|h t].
      * constructor; [|constructor]. rewrite list_elem_of_singleton. congruence.
      * inversion IH; subst.
        constructor; [|done]. apply not_elem_of_cons. split; [congruence|done].
Qed.

(** Joining pieces that are free of the separator and splitting again
    gives the pieces back. *)
Lemma split_join (sep : jschar) (parts : list jsstring) :
  parts ≠ [] → Forall (λ p, sep ∉ p) parts →
  split sep (join [sep] parts) = parts.
Proof.
  induction parts as [|p parts IH]; [done|]. intros _ Hfree.
  inversion Hfree as [|? ? Hp Hparts]; subst.
  destruct parts as [|q parts]; [by apply split_free|].
  rewrite join_cons. cbn [app]. rewrite split_app by done.
  by rewrite IH.
Qed.

Lemma indentDocumentation_join (doc indentation : jsstring) :
  indentDocumentation doc indentation
  = join [LF] ((λ l, indentation ++ l) <$> split LF doc).
Proof.
  unfold indentDocumentation. f_equal.
  rewrite <- (imap_const (λ l, indentation ++ l)).
  apply imap_ext. intros i l _. by destruct (i =? 0).
Qed.

Lemma indentDocumentation_split (doc indentation : jsstring) :
  LF ∉ indentation →
  split LF (indentDocumentation doc indentation)
  = (λ l, indentation ++ l) <$> split LF doc.
Proof.
  intros Hind. rewrite indentDocumentation_join. apply split_join.
  - destruct (split_cons LF doc) as (p & ps & ->). done.
  - apply Forall_fmap. eapply Forall_impl; [apply split_pieces|].
    intros l Hl. unfold compose. rewrite elem_of_app. by intros [?|?].
Qed.

(** [indentDocumentation] puts the indentation in front of every line of
    the documentation and changes nothing else: the lines of the result are
    the lines of the text, each after the indentation; with the empty
    indentation the text comes back as it is; indenting twice is indenting
    once with both indentations. *)
Theorem indentDocumentation_lines (doc indentation : jsstring) :
  indentDocumentation doc [] = doc
  ∧ (LF ∉ indentation →
     split LF (indentDocumentation doc indentation)
       = (λ l, indentation ++ l) <$> split LF doc
     ∧ ∀ outer,
         indentDocumentation (indentDocumentation doc indentation) outer
         = indentDocumentation doc (outer ++ indentation)).
Proof.
  split.
  - rewrite indentDocumentation_join.
    replace ((λ l : jsstring, [] ++ l) <$> split LF doc) with (split LF doc)
      by (symmetry; apply list_fmap_id).
    apply join_split.
  - intros Hind.
    pose proof (indentDocumentation_split doc indentation Hind) as Hlines.
    split; [exact Hlines|]. intros outer.
    rewrite (indentDocumentation_join _ outer), Hlines.
    rewrite indentDocumentation_join, <- list_fmap_compose.
    f_equal. apply list_fmap_ext. intros i l _. cbn. by rewrite app_assoc.
Qed.

Lemma indentDocumentation_lines_witness :
  split LF (indentDocumentation addsBlock (js "    "))
  = [js "    /**"; js "     * Adds two numbers."; js "     */"].
Proof.
  destruct (indentDocumentation_lines addsBlock (js "    ")) as [_ Hlines].
  destruct Hlines as [-> _]; [|reflexivity].
  intros H. apply list_elem_of_In in H. vm_compute in H. intuition discriminate.
Defined.

(** The last line of a text that ends with a word free of line feeds ends
    with that word. *)
Lemma last_split_suffix (sep : jschar) (x p : jsstring) :
  sep ∉ p → ∃ y, last (split sep (x ++ p)) = Some (y ++ p).
Proof.
  intros Hp. induction x as [|c x (y & IH)].
  - exists []. cbn [app]. by rewrite split_free.
  - cbn [app split]. destruct (split sep (x ++ p)) as [|h t] eqn:Hs; [done|].
    destruct (c =? sep)%N.
    + exists y. exact IH.
    + destruct t as [|h' t].
      * exists (c :: y). cbn in IH |- *. injection IH as IH. by rewrite IH.
      * exists y. exact IH.
Qed.

Lemma trimStart_app (z : jsstring) (c : jschar) (p : jsstring) :
  isWhiteSpace c = false → trimStart (z ++ c :: p) = trimStart z ++ c :: p.
Proof.
  intros Hc. induction z as [|d z IH]; cbn [app trimStart].
  - by rewrite Hc.
  - by destruct (isWhiteSpace d).
Qed.

(** Trimming keeps a closing delimiter at the end of a line. *)
Lemma trim_keeps_close (z : jsstring) :
  js "*/" `suffix_of` trim (z ++ js "*/").
Proof.
  unfold trim, trimEnd.
  change (js "*/") with (chr "*" :: [chr "/"]).
  rewrite trimStart_app by done.
  replace (trimStart z ++ [chr "*"; chr "/"])
    with ((trimStart z ++ [chr "*"]) ++ [chr "/"]) by by rewrite <- app_assoc.
  rewrite reverse_snoc, trimStart_id by done.
  rewrite <- reverse_snoc, reverse_involutive, <- app_assoc.
  by eexists.
Qed.

(** Documentation cleaned for one of the three named styles and indented
    is recognised as documentation: a line after its last line passes
    [hasDocumentation]. *)
Theorem documentation_recognised (doc style indentation : jsstring)
    (document : TextDocument) (n : nat) :
  style = js "jsdoc" ∨ style = js "tsdoc" ∨ style = js "javadoc" →
  LF ∉ indentation →
  lineTexts document !! n
    = last (split LF (indentDocumentation (cleanDocumentation doc style)
                        indentation)) →
  hasDocumentation document (S n) = Ok true.
Proof.
  intros Hstyle Hind Hline.
  rewrite (indentDocumentation_split _ _ Hind) in Hline.
  assert (js "*/" `suffix_of` cleanDocumentation doc style) as [x Hx].
  { rewrite (cleanDocumentation_named doc style Hstyle).
    destruct (endsWith (stripFences doc) (js "*/")) eqn:He.
    - apply endsWith_suffix in He. rewrite app_nil_r. by apply suffix_app_r.
    - do 2 apply suffix_app_r. by exists [LF; chr " "]. }
  destruct (last_split_suffix LF x (js "*/")) as [y Hy].
  { intros H. apply list_elem_of_In in H. vm_compute in H.
    intuition discriminate. }
  rewrite Hx, fmap_last, Hy in Hline. cbn [fmap option_fmap option_map] in Hline.
  unfold hasDocumentation, lineAt. replace (S n - 1) with n by lia.
  rewrite Hline. f_equal.
  rewrite app_assoc.
  pose proof (trim_keeps_close (indentation ++ y)) as Hkeep.
  apply endsWith_suffix in Hkeep. by rewrite Hkeep.
Qed.

Lemma documentation_recognised_witness :
  hasDocumentation
    {| lineTexts := [js "  /**"; js "  Adds two numbers."; js "   */";
                     js "  function add(a, b) {"] |} 3
  = Ok true.
Proof.
  apply (documentation_recognised (js "Adds two numbers.") (js "jsdoc")
           (js "  ")).
  - by left.
  - intros H. apply list_elem_of_In in H. vm_compute in H.
    intuition discriminate.
  - reflexivity.
Defined.

End IndentFacts.

(** ** Generation calls and the quota *)

Module GenerationFacts.
Import JS GeminiService JSFacts Spec Scenarios.
Import QuotaFacts.

(** [suggestImprovements] is [generateDocumentation] with its own prompt. *)
Lemma suggestImprovements_generate (svc : Service)
    (code programmingLanguage : jsstring) (request : DocumentationRequest) :
  suggestImprovements svc code programmingLanguage
  = generateDocumentation (λ _, improvementPrompt code programmingLanguage)
      svc request.
Proof. reflexivity. Qed.

(** One call of [generateDocumentation], case by case. *)
Lemma generateDocumentation_run
    (build : DocumentationRequest → jsstring) (svc : Service)
    (request : DocumentationRequest) (env : Env) (w : World) :
  generateDocumentation build svc request env w
  = match model svc with
    | None =>
        (Throw (ErrorObject (js "API_KEY: Gemini API key not configured")), w)
    | Some m =>
        if streq (storedDate w) (today env) && negb (todayCount w <? limitOf svc)%Z
        then (Throw (ErrorObject (js "QUOTA: Daily request limit exceeded")), w)
        else
          match generateContent env m (build request) with
          | Ok text =>
              (Ok text,
               runOp svc env (logged (build request) (runOp svc env w Check))
                 Increment)
          | Throw e =>
              (Throw (translateError e),
               logged (build request) (runOp svc env w Check))
          end
    end.
Proof.
  unfold generateDocumentation. destruct (model svc) as [m|]; [|done].
  unfold mbind, M_bind, bind at 1. unfold runOp.
  destruct (decide (storedDate w = today env)) as [Heq|Hne].
  - rewrite checkQuota_same_date by done. fold (limitOf svc).
    apply streq_true in Heq. rewrite Heq. cbn [andb snd].
    destruct (todayCount w <? limitOf svc)%Z; cbn [negb]; [|done].
    unfold try_catch, bind, callModel. fold (logged (build request) w).
    destruct (generateContent env m (build request)) as [text|e].
    + by rewrite incrementUsage_run.
    + by destruct e as [message|]; cbn [translateError];
        [destruct (includes message (js "429"))|].
  - rewrite checkQuota_rollover by done.
    apply streq_false in Hne. rewrite Hne. cbn [andb negb snd].
    unfold try_catch, bind, callModel.
    match goal with |- context [calls ?w0 ++ _] =>
      change (calls w0) with (calls w) end.
    set (w1 := {| globalState := _; calls := calls w |}).
    destruct (generateContent env m (build request)) as [text|e].
    + by rewrite incrementUsage_run.
    + by destruct e as [message|]; cbn [translateError];
        [destruct (includes message (js "429"))|].
Qed.

Lemma generate_run (build : DocumentationRequest → jsstring) (svc : Service)
    (g : generation) (env : Env) (w : World) :
  generate build svc g env w
  = match model svc with
    | None =>
        (Throw (ErrorObject (js "API_KEY: Gemini API key not configured")), w)
    | Some m =>
        if streq (storedDate w) (today env) && negb (todayCount w <? limitOf svc)%Z
        then (Throw (ErrorObject (js "QUOTA: Daily request limit exceeded")), w)
        else
          match generateContent env m (promptOf build g) with
          | Ok text =>
              (Ok text,
               runOp svc env (logged (promptOf build g) (runOp svc env w Check))
                 Increment)
          | Throw e =>
              (Throw (translateError e),
               logged (promptOf build g) (runOp svc env w Check))
          end
    end.
Proof.
  destruct g as [request|code programmingLanguage]; cbn [generate promptOf].
  - apply generateDocumentation_run.
  - rewrite (suggestImprovements_generate svc code programmingLanguage
               someRequest).
    apply generateDocumentation_run.
Qed.

(** The count a check on date [d] sees, after a check and after an
    increment on that date. *)
Lemma countOn_check (svc : Service) (env : Env) (w : World) :
  storedDate (runOp svc env w Check) = today env
  ∧ todayCount (runOp svc env w Check) = countOn (today env) w
  ∧ totalCount (runOp svc env w Check) = totalCount w
  ∧ calls (runOp svc env w Check) = calls w.
Proof.
  unfold runOp, countOn.
  destruct (decide (storedDate w = today env)) as [Heq|Hne].
  - rewrite checkQuota_same_date by done.
    by rewrite (proj2 (streq_true _ _) Heq).
  - rewrite checkQuota_rollover by done.
    by rewrite (proj2 (streq_false _ _) Hne).
Qed.

Lemma countOn_logged (d prompt : jsstring) (w : World) :
  countOn d (logged prompt w) = countOn d w.
Proof. reflexivity. Qed.

Lemma countOn_after_check (svc : Service) (env : Env) (w : World) :
  countOn (today env) (runOp svc env w Check) = countOn (today env) w.
Proof.
  destruct (countOn_check svc env w) as (Hd & Ht & _).
  unfold countOn at 1. by rewrite Hd, streq_refl.
Qed.

Lemma countOn_after_increment (svc : Service) (env : Env) (d : jsstring)
    (w : World) :
  storedDate w = d →
  countOn d (runOp svc env w Increment) = (countOn d w + 1)%Z.
Proof.
  intros <-. unfold runOp, countOn. rewrite incrementUsage_run.
  unfold storedDate, todayCount. cbn. by rewrite !streq_refl.
Qed.

Lemma increment_fields (svc : Service) (env : Env) (w : World) :
  totalCount (runOp svc env w Increment) = (totalCount w + 1)%Z
  ∧ calls (runOp svc env w Increment) = calls w
  ∧ storedDate (runOp svc env w Increment) = storedDate w
  ∧ todayCount (runOp svc env w Increment) = (todayCount w + 1)%Z.
Proof. unfold runOp. by rewrite incrementUsage_run. Qed.

Lemma limitOf_positive (svc : Service) : (0 < limitOf svc)%Z.
Proof. unfold limitOf. by destruct (isUsingPool svc). Qed.

Lemma generate_step
    (build : DocumentationRequest → jsstring) (svc : Service)
    (g : generation) (env : Env) (w : World) :
  match generate build svc g env w with
  | (Ok _, w') =>
      (countOn (today env) w < limitOf svc)%Z
      ∧ countOn (today env) w' = (countOn (today env) w + 1)%Z
      ∧ totalCount w' = (totalCount w + 1)%Z
      ∧ calls w' = calls w ++ [promptOf build g]
  | (Throw _, w') =>
      countOn (today env) w' = countOn (today env) w
      ∧ totalCount w' = totalCount w
      ∧ (calls w' = calls w ∨ calls w' = calls w ++ [promptOf build g])
  end.
Proof.
  rewrite generate_run.
  destruct (countOn_check svc env w) as (Hd & Ht & Hs & Hc).
  destruct (model svc) as [m|]; [|by repeat split; try left].
  destruct (streq (storedDate w) (today env)
            && negb (todayCount w <? limitOf svc)%Z) eqn:Hfull;
    [by repeat split; try left|].
  destruct (generateContent env m (promptOf build g)) as [text|e].
  - split; [|split; [|split]].
    + unfold countOn. destruct (streq (storedDate w) (today env));
        [|apply limitOf_positive].
      cbn [andb] in Hfull. apply negb_false_iff in Hfull. by apply Z.ltb_lt.
    + rewrite countOn_after_increment by exact Hd.
      by rewrite countOn_logged, countOn_after_check.
    + destruct (increment_fields svc env
                  (logged (promptOf build g) (runOp svc env w Check)))
        as (-> & _).
      change (totalCount (logged ?p ?w0)) with (totalCount w0). by rewrite Hs.
    + destruct (increment_fields svc env
                  (logged (promptOf build g) (runOp svc env w Check)))
        as (_ & -> & _).
      cbn [logged calls]. by rewrite Hc.
  - split; [|split].
    + by rewrite countOn_logged, countOn_after_check.
    + exact Hs.
    + right. cbn [logged calls]. by rewrite Hc.
Qed.

(** The accounting of one generation call ([generateDocumentation] or
    [suggestImprovements]): a call that returns has made exactly one
    external call and has added exactly one to today's count and to the
    total, and was admitted below the limit; a call that throws has made at
    most one external call and has added nothing to either count. *)
Theorem generation_accounting
    (build : DocumentationRequest → jsstring) (svc : Service)
    (g : generation) (env : Env) (w : World) :
  match generate build svc g env w with
  | (Ok _, w') =>
      (countOn (today env) w < limitOf svc)%Z
      ∧ countOn (today env) w' = (countOn (today env) w + 1)%Z
      ∧ totalCount w' = (totalCount w + 1)%Z
      ∧ calls w' = calls w ++ [promptOf build g]
  | (Throw _, w') =>
      countOn (today env) w' = countOn (today env) w
      ∧ totalCount w' = totalCount w
      ∧ (calls w' = calls w ∨ calls w' = calls w ++ [promptOf build g])
  end.
Proof. apply generate_step. Qed.

(** The two parts of a generation call, case by case. *)
Lemma beforeAwait_run (svc : Service) (prompt : jsstring) (env : Env)
    (w : World) :
  beforeAwait svc prompt env w
  = match model svc with
    | None =>
        (Throw (ErrorObject (js "API_KEY: Gemini API key not configured")), w)
    | Some m =>
        if streq (storedDate w) (today env) && negb (todayCount w <? limitOf svc)%Z
        then (Throw (ErrorObject (js "QUOTA: Daily request limit exceeded")), w)
        else (Ok m, logged prompt (runOp svc env w Check))
    end.
Proof.
  unfold beforeAwait. destruct (model svc) as [m|]; [|done].
  unfold mbind, M_bind, bind. unfold runOp.
  destruct (decide (storedDate w = today env)) as [Heq|Hne].
  - rewrite checkQuota_same_date by done. fold (limitOf svc).
    apply streq_true in Heq. rewrite Heq. cbn [andb snd].
    by destruct (todayCount w <? limitOf svc)%Z.
  - rewrite checkQuota_rollover by done.
    apply streq_false in Hne. by rewrite Hne.
Qed.

Lemma afterAwait_run (svc : Service) (outcome : result thrown jsstring)
    (env : Env) (w : World) :
  afterAwait outcome env w
  = match outcome with
    | Ok text => (Ok text, runOp svc env w Increment)
    | Throw e => (Throw (translateError e), w)
    end.
Proof.
  unfold afterAwait, runOp. destruct outcome as [text|e].
  - unfold mbind, M_bind, bind. by rewrite incrementUsage_run.
  - by destruct e as [message|]; cbn [translateError];
      [destruct (includes message (js "429"))|].
Qed.

(** A call that nothing interrupts is its first part and then its second
    part, with the outcome of its own external call. *)
Lemma generate_at_await
    (build : DocumentationRequest → jsstring) (svc : Service)
    (g : generation) (env : Env) (w : World) :
  generate build svc g env w
  = match beforeAwait svc (promptOf build g) env w with
    | (Ok m, w1) =>
        afterAwait (generateContent env m (promptOf build g)) env w1
    | (Throw e, w1) => (Throw e, w1)
    end.
Proof.
  rewrite generate_run, beforeAwait_run.
  destruct (model svc) as [m|]; [|done].
  destruct (streq (storedDate w) (today env)
            && negb (todayCount w <? limitOf svc)%Z); [done|].
  rewrite (afterAwait_run svc).
  by destruct (generateContent env m (promptOf build g)).
Qed.

Lemma takeTurn_invariant
    (build : DocumentationRequest → jsstring) (svc : Service)
    (d : jsstring) (w : World) (f : flight) (t : turn) :
  (∀ env g, t = Enter env g → today env = d) →
  flightInvariant svc d w f →
  flightInvariant svc d w (takeTurn build svc f t).
Proof.
  intros Hdate Hinv. pose proof Hinv as (Hcount & Hsum & Hpeak & Hstored & Hret).
  destruct t as [env g|env outcome]; cbn [takeTurn].
  - specialize (Hdate env g eq_refl).
    rewrite beforeAwait_run.
    destruct (countOn_check svc env (flightWorld f)) as (Hd & Ht & _).
    pose proof (countOn_after_check svc env (flightWorld f)) as Hc.
    rewrite Hdate in Hd, Hc.
    destruct (model svc) as [m|]; [|done].
    destruct (streq (storedDate (flightWorld f)) (today env)
              && negb (todayCount (flightWorld f) <? limitOf svc)%Z) eqn:Hfull;
      [done|].
    assert (countOn d (flightWorld f) < limitOf svc)%Z as Hbelow.
    { rewrite <- Hdate. unfold countOn.
      destruct (streq (storedDate (flightWorld f)) (today env));
        [|apply limitOf_positive].
      cbn [andb] in Hfull. apply negb_false_iff in Hfull. by apply Z.ltb_lt. }
    unfold flightInvariant.
    cbn [flightWorld inFlight peak returned].
    rewrite countOn_logged, Hc.
    split; [done|]. split; [lia|]. split; [lia|]. split; [|done].
    intros _. exact Hd.
  - destruct (inFlight f) as [|n] eqn:Hn; [exact Hinv|].
    rewrite (afterAwait_run svc).
    assert (storedDate (flightWorld f) = d) as Hd by (apply Hstored; lia).
    destruct outcome as [text|e]; unfold flightInvariant;
      cbn [flightWorld inFlight peak returned].
    + rewrite (countOn_after_increment svc env d (flightWorld f) Hd).
      destruct (increment_fields svc env (flightWorld f)) as (_ & _ & Hd' & _).
      split; [lia|]. split; [lia|]. split; [lia|]. split; [|lia].
      intros _. by rewrite Hd'.
    + split; [done|]. split; [lia|]. split; [lia|]. done.
Qed.

Lemma runTurns_invariant
    (build : DocumentationRequest → jsstring) (svc : Service)
    (d : jsstring) (w : World) (turns : list turn) :
  (∀ env g, Enter env g ∈ turns → today env = d) →
  flightInvariant svc d w (runTurns build svc turns w).
Proof.
  unfold runTurns.
  assert (flightInvariant svc d w
            {| flightWorld := w; inFlight := 0; peak := 0; returned := 0 |})
    as Hstart.
  { unfold flightInvariant. cbn [flightWorld inFlight peak returned].
    pose proof (limitOf_positive svc).
    split; [lia|]. split; [lia|]. split; [done|]. split; [lia|done]. }
  revert Hstart.
  generalize {| flightWorld := w; inFlight := 0; peak := 0; returned := 0 |}.
  induction turns as [|t turns IH]; intros f Hf Hdate; [done|].
  cbn [foldl]. apply IH.
  - apply takeTurn_invariant; [|done].
    intros env g ->. apply (Hdate env g). by left.
  - intros env g Hin. apply (Hdate env g). by right.
Qed.

(** The quota over generation calls that may overlap
    ([generateDocumentation] and [suggestImprovements] on one service, on
    one date, with any outcomes of the external calls).  Today's count is
    the count the date started with plus the number of calls that have
    returned.  With never more than [K] calls in flight at once, at most
    the room the limit leaves plus [K - 1] calls return, and the count goes
    no higher than the limit plus [K - 1] (or stays where it started, if
    that was higher): calls that run one after another keep to the limit,
    overlapping calls can pass it by one less than their number. *)
Theorem quota_bound_overlapping
    (build : DocumentationRequest → jsstring) (svc : Service)
    (turns : list turn) (w : World) (d : jsstring) (K : nat) :
  (∀ env g, Enter env g ∈ turns → today env = d) →
  peak (runTurns build svc turns w) ≤ K →
  countOn d (flightWorld (runTurns build svc turns w))
  = (countOn d w + returned (runTurns build svc turns w))%Z
  ∧ (returned (runTurns build svc turns w)
     ≤ Z.max 0 (limitOf svc - countOn d w + Z.of_nat K - 1))%Z
  ∧ (countOn d (flightWorld (runTurns build svc turns w))
     ≤ Z.max (countOn d w) (limitOf svc + Z.of_nat K - 1))%Z.
Proof.
  intros Hdate HK.
  destruct (runTurns_invariant build svc d w turns Hdate)
    as (Hcount & Hsum & _ & _ & Hret).
  split; [exact Hcount|]. split; lia.
Qed.

(** Two calls that overlap at 1499 of 1500 both return and leave the
    count at 1501; one after the other, the second is refused. *)
Lemma quota_bound_overlapping_witness :
  returned (runTurns codeAsPrompt ownKeyService
              [Enter (answering (js "/** */")) (Document someRequest);
               Enter (answering (js "- faster"))
                 (Improve (js "x = 1") (js "python"));
               Leave (answering (js "/** */")) (Ok (js "/** */"));
               Leave (answering (js "- faster")) (Ok (js "- faster"))]
              ownKeyNearlyExhaustedWorld) = 2%Z
  ∧ countOn (js "Mon Nov 02 2026")
      (flightWorld
         (runTurns codeAsPrompt ownKeyService
            [Enter (answering (js "/** */")) (Document someRequest);
             Enter (answering (js "- faster"))
               (Improve (js "x = 1") (js "python"));
             Leave (answering (js "/** */")) (Ok (js "/** */"));
             Leave (answering (js "- faster")) (Ok (js "- faster"))]
            ownKeyNearlyExhaustedWorld)) = 1501%Z
  ∧ (returned (runTurns codeAsPrompt ownKeyService
                 [Enter (answering (js "/** */")) (Document someRequest);
                  Leave (answering (js "/** */")) (Ok (js "/** */"));
                  Enter (answering (js "- faster"))
                    (Improve (js "x = 1") (js "python"));
                  Leave (answering (js "- faster")) (Ok (js "- faster"))]
                 ownKeyNearlyExhaustedWorld) ≤ 1)%Z.
Proof.
  split; [reflexivity|].
  destruct (quota_bound_overlapping codeAsPrompt ownKeyService
              [Enter (answering (js "/** */")) (Document someRequest);
               Enter (answering (js "- faster"))
                 (Improve (js "x = 1") (js "python"));
               Leave (answering (js "/** */")) (Ok (js "/** */"));
               Leave (answering (js "- faster")) (Ok (js "- faster"))]
              ownKeyNearlyExhaustedWorld (js "Mon Nov 02 2026") 2)
    as (Hcount & _ & _).
  - intros env g Hin.
    repeat (apply elem_of_cons in Hin as [Hin|Hin];
            [by (injection Hin as -> _) || discriminate Hin|]).
    by apply elem_of_nil in Hin.
  - vm_compute. lia.
  - split; [rewrite Hcount; reflexivity|].
    apply (proj1 (proj2 (quota_bound_overlapping codeAsPrompt ownKeyService
                           [Enter (answering (js "/** */")) (Document someRequest);
                            Leave (answering (js "/** */")) (Ok (js "/** */"));
                            Enter (answering (js "- faster"))
                              (Improve (js "x = 1") (js "python"));
                            Leave (answering (js "- faster")) (Ok (js "- faster"))]
                           ownKeyNearlyExhaustedWorld (js "Mon Nov 02 2026") 1
                           ltac:(intros env g Hin;
                                 repeat (apply elem_of_cons in Hin as [Hin|Hin];
                                         [by (injection Hin as -> _)
                                          || discriminate Hin|]);
                                 by apply elem_of_nil in Hin)
                           ltac:(vm_compute; lia)))).
Defined.

(** What a generation call can throw.  Without a model it is the API_KEY
    error, with a model and today's count at the limit on the stored date
    it is the daily QUOTA error, and in both cases nothing has changed and
    no external call was made.  Otherwise it is the error of the external
    call: replaced by the rate-limit QUOTA error when that is an [Error]
    whose message holds [429], and passed on as it is in every other case. *)
Theorem generation_errors
    (build : DocumentationRequest → jsstring) (svc : Service)
    (g : generation) (env : Env) (w : World) (e : thrown) :
  (generate build svc g env w).1 = Throw e →
  (model svc = None
   ∧ e = ErrorObject (js "API_KEY: Gemini API key not configured")
   ∧ (generate build svc g env w).2 = w)
  ∨ (is_Some (model svc)
     ∧ storedDate w = today env ∧ (limitOf svc ≤ todayCount w)%Z
     ∧ e = ErrorObject (js "QUOTA: Daily request limit exceeded")
     ∧ (generate build svc g env w).2 = w)
  ∨ (∃ m e0,
       model svc = Some m
       ∧ generateContent env m (promptOf build g) = Throw e0
       ∧ calls (generate build svc g env w).2 = calls w ++ [promptOf build g]
       ∧ match e0 with
         | ErrorObject message =>
             if includes message (js "429")
             then e = ErrorObject
                        (js "QUOTA: Rate limit exceeded. Please try again later.")
             else e = e0
         | OtherValue => e = e0
         end).
Proof.
  rewrite generate_run.
  destruct (countOn_check svc env w) as (_ & _ & _ & Hc).
  destruct (model svc) as [m|]; [|intros [= <-]; by left].
  destruct (streq (storedDate w) (today env)) eqn:Hdate; cbn [andb].
  - destruct (todayCount w <? limitOf svc)%Z eqn:Hlt; cbn [negb].
    + destruct (generateContent env m (promptOf build g)) as [text|e0] eqn:He0;
        [done|].
      intros [= <-]. right. right. exists m, e0.
      split; [done|]. split; [done|]. split; [by cbn [snd logged calls]; rewrite Hc|].
      destruct e0 as [message|]; cbn [translateError]; [|done].
      by destruct (includes message (js "429")).
    + intros [= <-]. right. left. apply streq_true in Hdate.
      apply Z.ltb_ge in Hlt. by repeat split.
  - destruct (generateContent env m (promptOf build g)) as [text|e0] eqn:He0;
      [done|].
    intros [= <-]. right. right. exists m, e0.
    split; [done|]. split; [done|]. split; [by cbn [snd logged calls]; rewrite Hc|].
    destruct e0 as [message|]; cbn [translateError]; [|done].
    by destruct (includes message (js "429")).
Qed.

Lemma generation_errors_witness :
  (generate codeAsPrompt ownKeyService (Document someRequest)
     {| today := js "Mon Nov 02 2026";
        generateContent :=
          λ _ _, Throw (ErrorObject (js "[429 Too Many Requests] slow down")) |}
     nearlyExhaustedWorld).1
  = Throw (ErrorObject (js "QUOTA: Rate limit exceeded. Please try again later.")).
Proof.
  set (env := {| today := js "Mon Nov 02 2026";
                 generateContent :=
                   λ _ _, Throw (ErrorObject
                                   (js "[429 Too Many Requests] slow down")) |}).
  destruct (generate codeAsPrompt ownKeyService (Document someRequest) env
              nearlyExhaustedWorld).1 as [text|e] eqn:Hrun;
    [vm_compute in Hrun; discriminate|].
  destruct (generation_errors codeAsPrompt ownKeyService (Document someRequest)
              env nearlyExhaustedWorld e Hrun)
    as [(Hnone & _)|[(_ & _ & Hfull & _)|(m & e0 & _ & He0 & _ & Hkind)]].
  - vm_compute in Hnone. discriminate.
  - vm_compute in Hfull. by destruct Hfull.
  - cbn in He0. injection He0 as <-. vm_compute in Hkind. by rewrite Hkind.
Defined.

(** [getUsageStats] reports the count and the limit the next check goes
    by: the check on the same date admits a request exactly when the
    reported count for today is below the reported limit.  Under the pool
    the reported remainder is the room between the two, never below 0; with
    an own key it is 0. *)
Theorem getUsageStats_agrees (svc : Service) (env : Env) (w : World) :
  ∃ stats,
    (getUsageStats svc env w).1 = Ok stats
    ∧ todayRequests stats = countOn (today env) w
    ∧ dailyLimit stats = limitOf svc
    ∧ (checkQuota svc env w).1
      = Ok (todayRequests stats <? dailyLimit stats)%Z
    ∧ poolRemaining stats
      = (if isUsingPool svc
         then Z.max 0 (dailyLimit stats - todayRequests stats) else 0)%Z
    ∧ hasOwnKey stats = negb (isUsingPool svc).
Proof.
  eexists. split; [by run_M|].
  cbn [todayRequests totalRequests dailyLimit poolRemaining hasOwnKey].
  fold (storedDate w). fold (todayCount w). fold (limitOf svc).
  unfold countOn.
  destruct (decide (storedDate w = today env)) as [Heq|Hne].
  - rewrite checkQuota_same_date by done. fold (limitOf svc).
    rewrite (proj2 (streq_true _ _) Heq). cbn [negb fst].
    repeat split. unfold limitOf. by destruct (isUsingPool svc).
  - rewrite checkQuota_rollover by done.
    rewrite (proj2 (streq_false _ _) Hne). cbn [negb fst].
    pose proof (limitOf_positive svc) as Hpos.
    repeat split.
    + f_equal. symmetry. by apply Z.ltb_lt.
    + unfold limitOf. by destruct (isUsingPool svc).
Qed.

(** After [updateApiKey] the service is ready and on the own-key limit:
    a request goes out to the external call while today's count is below
    1500, also from a state in which the pool limit was used up. *)
Theorem updateApiKey_lifts_pool_limit
    (build : DocumentationRequest → jsstring) (svc : Service)
    (newKey : jsstring) (request : DocumentationRequest) (env : Env)
    (w : World) :
  (countOn (today env) w < DAILY_OWN_KEY_LIMIT)%Z →
  isReady (updateApiKey svc newKey) = true
  ∧ limitOf (updateApiKey svc newKey) = 1500%Z
  ∧ calls (generateDocumentation build (updateApiKey svc newKey) request
             env w).2
    = calls w ++ [build request].
Proof.
  intros Hbelow. split; [done|]. split; [done|].
  rewrite generateDocumentation_run. cbn [updateApiKey model].
  destruct (countOn_check (updateApiKey svc newKey) env w) as (_ & _ & _ & Hc).
  replace (streq (storedDate w) (today env)
           && negb (todayCount w <? limitOf (updateApiKey svc newKey))%Z)
    with false.
  - destruct (generateContent env _ (build request)); cbn [snd].
    + destruct (increment_fields (updateApiKey svc newKey) env
                  (logged (build request)
                     (runOp (updateApiKey svc newKey) env w Check)))
        as (_ & -> & _).
      cbn [logged calls]. by rewrite Hc.
    + cbn [logged calls]. by rewrite Hc.
  - symmetry. unfold countOn in Hbelow.
    destruct (streq (storedDate w) (today env)); [|done]. cbn [andb].
    apply negb_false_iff. by apply Z.ltb_lt.
Qed.

Lemma updateApiKey_lifts_pool_limit_witness :
  calls (generateDocumentation codeAsPrompt
           (updateApiKey poolService (js "AIza-own-key")) someRequest
           (answering (js "/** */")) exhaustedWorld).2
  = [js "function add(a, b) {}"].
Proof.
  apply (updateApiKey_lifts_pool_limit codeAsPrompt poolService
           (js "AIza-own-key") someRequest (answering (js "/** */"))
           exhaustedWorld).
  reflexivity.
Defined.

(** [initializeApiKey]: a configured key always wins over the pool, and
    the service is ready with it unless it is the placeholder text; without
    a configured key the service is on the pool when the pool is switched
    on, and ready when the pool key is a real one.  A service that is not
    ready answers every documentation request with the API_KEY error and
    touches nothing. *)
Theorem initializeApiKey_cases (QUAD_POOL_KEY userKey : jsstring)
    (usePool : bool) :
  (userKey ≠ [] →
   apiKey (initializeApiKey QUAD_POOL_KEY userKey usePool) = userKey
   ∧ isUsingPool (initializeApiKey QUAD_POOL_KEY userKey usePool) = false
   ∧ (isReady (initializeApiKey QUAD_POOL_KEY userKey usePool) = true
      ↔ userKey ≠ js "QUAD_POOL_PLACEHOLDER"))
  ∧ (userKey = [] →
     isUsingPool (initializeApiKey QUAD_POOL_KEY userKey usePool) = usePool
     ∧ (isReady (initializeApiKey QUAD_POOL_KEY userKey usePool) = true
        ↔ usePool = true ∧ QUAD_POOL_KEY ≠ []
          ∧ QUAD_POOL_KEY ≠ js "QUAD_POOL_PLACEHOLDER"))
  ∧ (isReady (initializeApiKey QUAD_POOL_KEY userKey usePool) = false →
     ∀ build request env w,
       generateDocumentation build
         (initializeApiKey QUAD_POOL_KEY userKey usePool) request env w
       = (Throw (ErrorObject (js "API_KEY: Gemini API key not configured")), w)).
Proof.
  split; [|split].
  - intros Huser. unfold initializeApiKey, isReady.
    rewrite (proj2 (streq_false _ _) Huser).
    cbn [negb model apiKey isUsingPool andb].
    rewrite (proj2 (streq_false _ _) Huser). cbn [negb andb].
    split; [done|]. split; [done|].
    destruct (streq userKey (js "QUAD_POOL_PLACEHOLDER")) eqn:Hp; cbn [negb].
    + apply streq_true in Hp. split; [done|]. by intros [].
    + apply streq_false in Hp. by split.
  - intros ->. unfold initializeApiKey, isReady.
    rewrite streq_refl. cbn [negb].
    destruct usePool; cbn [model isUsingPool].
    + split; [done|].
      destruct (streq QUAD_POOL_KEY []) eqn:He; cbn [negb andb].
      * apply streq_true in He. split; [done|]. by intros (_ & [] & _).
      * apply streq_false in He.
        destruct (streq QUAD_POOL_KEY (js "QUAD_POOL_PLACEHOLDER")) eqn:Hp;
          cbn [negb].
        -- apply streq_true in Hp. split; [done|]. by intros (_ & _ & []).
        -- apply streq_false in Hp. by split.
    + split; [done|]. rewrite streq_refl. cbn [negb andb]. split; [done|].
      by intros [? _].
  - intros Hready build request env w. rewrite generateDocumentation_run.
    unfold isReady in Hready.
    by destruct (model (initializeApiKey QUAD_POOL_KEY userKey usePool)).
Qed.

Lemma initializeApiKey_cases_witness :
  isUsingPool (initializeApiKey QUAD_POOL_KEY (js "AIza-own-key") true) = false
  ∧ isReady (initializeApiKey QUAD_POOL_KEY (js "AIza-own-key") true) = true
  ∧ generateDocumentation codeAsPrompt
      (initializeApiKey QUAD_POOL_KEY [] true) someRequest
      (answering (js "/** */")) yesterdayWorld
    = (Throw (ErrorObject (js "API_KEY: Gemini API key not configured")),
       yesterdayWorld).
Proof.
  destruct (initializeApiKey_cases QUAD_POOL_KEY (js "AIza-own-key") true)
    as (Huser & _ & _).
  destruct (initializeApiKey_cases QUAD_POOL_KEY [] true)
    as (_ & _ & Hnot).
  destruct Huser as (_ & Hpool & Hready); [discriminate|].
  split; [exact Hpool|]. split; [apply Hready; discriminate|].
  apply Hnot. reflexivity.
Defined.

(** [detectLanguage] never throws and never touches the persisted
    counters: it answers with one of the nineteen listed languages,
    [english] when there is no model, when the external call fails or when
    the answer is not in the list; with a model it makes exactly one
    external call, whose prompt holds at most the first 100 units of the
    text, and that call is not counted against the quota. *)
Theorem detectLanguage_total (toLowerCase : jsstring → jsstring)
    (svc : Service) (text : jsstring) (env : Env) (w : World) :
  ∃ lang w',
    detectLanguage toLowerCase svc text env w = (Ok lang, w')
    ∧ lang ∈ validLanguages
    ∧ globalState w' = globalState w
    ∧ (model svc = None → lang = js "english" ∧ w' = w)
    ∧ (is_Some (model svc) → calls w' = calls w ++ [detectionPrompt text])
    ∧ length (detectionPrompt text) ≤ length (detectionPrompt []) + 100.
Proof.
  assert (length (detectionPrompt text) ≤ length (detectionPrompt []) + 100)
    as Hlen.
  { unfold detectionPrompt. rewrite !length_app, length_take. cbn [length].
    cbn [take length]. lia. }
  unfold detectLanguage. destruct (model svc) as [m|].
  - unfold try_catch, mbind, M_bind, bind, callModel, ret.
    destruct (generateContent env m (detectionPrompt text)) as [response|e].
    + destruct (existsb (streq (toLowerCase (trim response))) validLanguages)
        eqn:Hvalid.
      * eexists _, _. split; [reflexivity|].
        split; [|by repeat split].
        apply existsb_exists in Hvalid as (l & Hl & Heq).
        apply streq_true in Heq as ->. by apply list_elem_of_In.
      * eexists _, _. split; [reflexivity|].
        split; [by left|by repeat split].
    + eexists _, _. split; [reflexivity|].
      split; [by left|by repeat split].
  - eexists _, _. split; [reflexivity|].
    split; [by left|]. by repeat split.
Qed.

Lemma detectLanguage_total_witness :
  ∃ lang w',
    detectLanguage (λ s, s) ownKeyService (js "bonjour")
      (answering (js " french ")) yesterdayWorld = (Ok lang, w')
    ∧ lang ∈ validLanguages
    ∧ globalState w' = globalState yesterdayWorld.
Proof.
  destruct (detectLanguage_total (λ s, s) ownKeyService (js "bonjour")
              (answering (js " french ")) yesterdayWorld)
    as (lang & w' & Hrun & Hvalid & Hstate & _).
  by exists lang, w'.
Defined.

End GenerationFacts.

(** ** The error notice and HTML escaping *)

Module ExtensionFacts.
Import JS RegExp GeminiService Extension JSFacts RegExpFacts Spec Scenarios.
Import QuotaFacts GenerationFacts.

Lemma mapUnits_app (f : jschar → jsstring) (s t : jsstring) :
  mapUnits f (s ++ t) = mapUnits f s ++ mapUnits f t.
Proof.
  induction s as [|c s IH]; [done|]. cbn [app mapUnits].
  by rewrite IH, app_assoc.
Qed.

Lemma mapUnits_mapUnits (f g : jschar → jsstring) (s : jsstring) :
  mapUnits f (mapUnits g s) = mapUnits (λ c, mapUnits f (g c)) s.
Proof.
  induction s as [|c s IH]; [done|]. cbn [mapUnits].
  by rewrite mapUnits_app, IH.
Qed.

Lemma mapUnits_ext (f g : jschar → jsstring) (s : jsstring) :
  (∀ c, f c = g c) → mapUnits f s = mapUnits g s.
Proof.
  intros Hfg. induction s as [|c s IH]; [done|]. cbn [mapUnits].
  by rewrite Hfg, IH.
Qed.

(** A global replacement of one unit by a text, unit by unit. *)
Lemma replace_loop_char (c : jschar) (replacement : jsstring) (fuel : nat)
    (bef aft : jsstring) :
  length aft < fuel →
  replace_loop false (RChar c) replacement fuel bef aft
  = mapUnits (λ d, if (d =? c)%N then replacement else [d]) aft.
Proof.
  revert bef aft. induction fuel as [|fuel IH]; intros bef aft Hlen; [lia|].
  destruct aft as [|d rest]; [done|].
  cbn [replace_loop match_here rmatch after before capture mapUnits].
  destruct (d =? c)%N; cbn [after before].
  - replace (length rest <? length (d :: rest)) with true
      by (symmetry; apply Nat.ltb_lt; simpl; lia).
    rewrite IH by (simpl in Hlen; lia). done.
  - rewrite IH by (simpl in Hlen; lia). done.
Qed.

Lemma replace_all_char (c : jschar) (s replacement : jsstring) :
  replace_all false (RChar c) s replacement
  = mapUnits (λ d, if (d =? c)%N then replacement else [d]) s.
Proof. unfold replace_all. apply replace_loop_char. lia. Qed.

(** The five replacements, on one unit. *)
Lemma entityOf_steps (c : jschar) :
  mapUnits (λ d, if (d =? chr "'")%N then js "&#039;" else [d])
    (mapUnits (λ d, if (d =? 34)%N then js "&quot;" else [d])
       (mapUnits (λ d, if (d =? chr ">")%N then js "&gt;" else [d])
          (mapUnits (λ d, if (d =? chr "<")%N then js "&lt;" else [d])
             (if (c =? chr "&")%N then js "&amp;" else [c]))))
  = entityOf c.
Proof.
  unfold entityOf.
  destruct (c =? chr "&")%N eqn:H1; [reflexivity|].
  cbn [mapUnits]. rewrite app_nil_r.
  destruct (c =? chr "<")%N eqn:H2; [reflexivity|].
  cbn [mapUnits]. rewrite app_nil_r.
  destruct (c =? chr ">")%N eqn:H3; [reflexivity|].
  cbn [mapUnits]. rewrite app_nil_r.
  destruct (c =? 34)%N eqn:H4; [reflexivity|].
  cbn [mapUnits]. rewrite app_nil_r.
  by destruct (c =? chr "'")%N eqn:H5.
Qed.

Lemma escapeHtml_mapUnits (text : jsstring) :
  escapeHtml text = mapUnits entityOf text.
Proof.
  unfold escapeHtml. rewrite !replace_all_char, !mapUnits_mapUnits.
  apply mapUnits_ext. intros c.
  rewrite <- (entityOf_steps c), !mapUnits_mapUnits. done.
Qed.

Lemma entityOf_safe (c x : jschar) :
  x ∈ entityOf c →
  x ≠ chr "<" ∧ x ≠ chr ">" ∧ x ≠ 34%N ∧ x ≠ chr "'".
Proof.
  unfold entityOf.
  destruct (c =? chr "&")%N eqn:H1;
    [|destruct (c =? chr "<")%N eqn:H2;
      [|destruct (c =? chr ">")%N eqn:H3;
        [|destruct (c =? 34)%N eqn:H4;
          [|destruct (c =? chr "'")%N eqn:H5]]]].
  1-5: intros Hx; apply list_elem_of_In in Hx; vm_compute in Hx;
    repeat destruct Hx as [<-|Hx]; try done.
  intros ->%list_elem_of_singleton.
  apply N.eqb_neq in H2, H3, H4, H5. by repeat split.
Qed.

Lemma unescape_entity (c : jschar) (rest : jsstring) (fuel : nat) :
  unescapeHtml (S fuel) (entityOf c ++ rest)
  = c :: unescapeHtml fuel rest.
Proof.
  unfold entityOf.
  destruct (c =? chr "&")%N eqn:H1.
  { apply N.eqb_eq in H1 as ->. reflexivity. }
  destruct (c =? chr "<")%N eqn:H2.
  { apply N.eqb_eq in H2 as ->. reflexivity. }
  destruct (c =? chr ">")%N eqn:H3.
  { apply N.eqb_eq in H3 as ->. reflexivity. }
  destruct (c =? 34)%N eqn:H4.
  { apply N.eqb_eq in H4 as ->. reflexivity. }
  destruct (c =? chr "'")%N eqn:H5.
  { apply N.eqb_eq in H5 as ->. reflexivity. }
  cbn [app unescapeHtml]. by rewrite H1.
Qed.

Lemma unescape_mapUnits (s : jsstring) (fuel : nat) :
  length s ≤ fuel →
  unescapeHtml fuel (mapUnits entityOf s) = s.
Proof.
  revert fuel. induction s as [|c s IH]; intros fuel Hlen.
  - by destruct fuel.
  - destruct fuel as [|fuel]; [simpl in Hlen; lia|].
    cbn [mapUnits]. rewrite unescape_entity, IH; [done|simpl in Hlen; lia].
Qed.

Lemma mapUnits_entity_length (s : jsstring) :
  length s ≤ length (mapUnits entityOf s).
Proof.
  induction s as [|c s IH]; [done|]. cbn [mapUnits].
  rewrite length_app. cbn [length].
  assert (1 ≤ length (entityOf c)); [|lia].
  unfold entityOf. repeat (destruct (_ =? _)%N; [cbn; lia|]). cbn. lia.
Qed.

(** [escapeHtml] replaces each of the five special units by its entity
    and leaves every other unit alone, although it works in five passes;
    the escaped text holds no angle bracket and no quote; and nothing is
    lost: reading the entities back gives the text. *)
Theorem escapeHtml_safe (text : jsstring) :
  escapeHtml text = mapUnits entityOf text
  ∧ (∀ x, x ∈ escapeHtml text →
          x ≠ chr "<" ∧ x ≠ chr ">" ∧ x ≠ 34%N ∧ x ≠ chr "'")
  ∧ unescapeHtml (length (escapeHtml text)) (escapeHtml text) = text.
Proof.
  rewrite escapeHtml_mapUnits. split; [done|]. split.
  - induction text as [|c text IH]; cbn [mapUnits].
    + by intros x ?%elem_of_nil.
    + intros x [Hx|Hx]%elem_of_app; [by eapply entityOf_safe|by apply IH].
  - apply unescape_mapUnits, mapUnits_entity_length.
Qed.

(** What the user is shown when a generation call fails.  Without a model:
    the advice to set the API key, with the button for it.  With today's
    count at the limit: the context and the raw daily QUOTA message.  For
    an error of the external call with [429] in its message: the context
    and the raw rate-limit QUOTA message.  The advice text for quota
    errors is set aside and never shown. *)
Theorem failure_notice
    (build : DocumentationRequest → jsstring) (svc : Service)
    (g : generation) (env : Env) (w : World) (e : thrown)
    (context : jsstring) :
  (generate build svc g env w).1 = Throw e →
  (model svc = None →
   (handleError e context).2
   = ErrorWithAction
       (js "Invalid or missing API key. Please set your Gemini API key.")
       (js "Set API Key"))
  ∧ (is_Some (model svc) → storedDate w = today env →
     (limitOf svc ≤ todayCount w)%Z →
     (handleError e context).2
     = ErrorNotice (js "QUAD: " ++ context
                    ++ js ": QUOTA: Daily request limit exceeded"))
  ∧ (∀ m message,
       model svc = Some m →
       (storedDate w = today env → (todayCount w < limitOf svc)%Z) →
       generateContent env m (promptOf build g) = Throw (ErrorObject message) →
       includes message (js "429") = true →
       (handleError e context).2
       = ErrorNotice
           (js "QUAD: " ++ context
            ++ js ": QUOTA: Rate limit exceeded. Please try again later.")).
Proof.
  rewrite generate_run. intros Hrun. split; [|split].
  - intros Hnone. rewrite Hnone in Hrun. by injection Hrun as <-.
  - intros [m Hm] Hdate Hfull. rewrite Hm in Hrun.
    rewrite (proj2 (streq_true _ _) Hdate) in Hrun.
    replace (todayCount w <? limitOf svc)%Z with false in Hrun
      by (symmetry; by apply Z.ltb_ge).
    by injection Hrun as <-.
  - intros m message Hm Hroom Hthrow H429. rewrite Hm, Hthrow in Hrun.
    replace (streq (storedDate w) (today env)
             && negb (todayCount w <? limitOf svc)%Z)
      with false in Hrun.
    + cbn [fst translateError] in Hrun. rewrite H429 in Hrun.
      by injection Hrun as <-.
    + symmetry. destruct (streq (storedDate w) (today env)) eqn:Hd; [|done].
      apply streq_true in Hd. cbn [andb]. apply negb_false_iff.
      by apply Z.ltb_lt, Hroom.
Qed.

Lemma failure_notice_witness :
  (handleError
     (ErrorObject (js "QUOTA: Daily request limit exceeded"))
     (js "Failed to analyze code")).2
  = ErrorNotice
      (js "QUAD: Failed to analyze code: QUOTA: Daily request limit exceeded").
Proof.
  apply (proj1 (proj2 (failure_notice codeAsPrompt ownKeyService
                         (Improve (js "x = 1") (js "python"))
                         (answering (js "- faster")) ownKeyExhaustedWorld
                         (ErrorObject (js "QUOTA: Daily request limit exceeded"))
                         (js "Failed to analyze code") eq_refl))).
  - by eexists.
  - reflexivity.
  - vm_compute. discriminate.
Defined.

End ExtensionFacts.

(** ** The documentation methods *)

Module OrchestratorFacts.
Import JS RegExp DocumentationService GeminiService Orchestrator.
Import JSFacts RegExpFacts Spec Scenarios.
Import QuotaFacts AllFunctionsFacts IndentFacts GenerationFacts.

(** The indentation [documentFunction] takes from a line is its leading
    white space. *)
Lemma leadingWhiteSpace_trimStart (l : jsstring) :
  leadingWhiteSpace l ++ trimStart l = l
  ∧ forallb isWhiteSpace (leadingWhiteSpace l) = true.
Proof.
  unfold leadingWhiteSpace, exec.
  assert (match_here false (RSeq RBol (RStar ws)) (MState [] l None)
          = starLoop (rmatch false (RClass isWhiteSpace)) Some (S (length l))
              (MState [] l None)) as Hhere by reflexivity.
  destruct (starLoop_white false Some (S (length l)) [] l None) as [bef' Hloop];
    [by eauto|lia|].
  rewrite Hloop in Hhere.
  assert (search false (RSeq RBol (RStar ws)) [] l
          = Some (MState [] l None, MState bef' (trimStart l) None)) as ->.
  { destruct l; cbn [search]; by rewrite Hhere. }
  cbn [m_text after].
  destruct (trimStart_split l) as (a & Ha & Hw).
  assert (take (length l - length (trimStart l)) l = a) as ->.
  { rewrite Ha at 1 3. rewrite length_app.
    replace (length a + length (trimStart l) - length (trimStart l))
      with (length a) by lia.
    by rewrite take_app_length. }
  by rewrite <- Ha.
Qed.

(** [documentFunction] once the function is found and the user does not
    stand in the way. *)
Lemma documentFunction_proceeds
    (build : DocumentationRequest → jsstring) (svc : Service)
    (d : EditorDocument) (pos : Position) (host : Host) (s : Session)
    (f : ParsedFunction) (asked : bool) :
  findFunctionAtPosition (getText d) pos (languageId d) = Ok (Some f) →
  hasDocumentation (textDocument d) (startLine f) = Ok asked →
  (asked = true →
   answer host (replaceQuestion f) replaceItems = Some (js "Replace")) →
  documentFunction build svc d pos host s
  = let s0 := if asked then emit (Question (replaceQuestion f) replaceItems) s
              else s in
    match generateDocumentation build svc (requestFor d host f)
            (serviceEnv host) (world s0) with
    | (Ok response, w') =>
        match lineAt (textDocument d) (startLine f) with
        | Ok lineText =>
            (Ok (Some {| position := {| line := startLine f; character := 0 |};
                         documentation :=
                           indentDocumentation
                             (cleanDocumentation response (styleFor d host))
                             (leadingWhiteSpace lineText);
                         functionName := name f |}),
             {| world := w'; events := events s0 |})
        | Throw e =>
            (Throw (LocatorError e), {| world := w'; events := events s0 |})
        end
    | (Throw e, w') =>
        (Throw (ServiceError e), {| world := w'; events := events s0 |})
    end.
Proof.
  intros Hfound Hdoc Hanswer.
  unfold documentFunction, mbind, H_bind, bindH, locator.
  rewrite Hfound, Hdoc.
  destruct asked.
  - unfold askWarningMessage. fold replaceItems. rewrite (Hanswer eq_refl).
    unfold pure, getConfiguration, service.
    rewrite streq_refl. cbn [negb].
    fold (styleFor d host). fold (requestFor d host f).
    destruct (generateDocumentation _ _ _ _ _) as [[response|e] w']; [|done].
    by destruct (lineAt _ _).
  - unfold pure, getConfiguration, service. cbn [negb].
    fold (styleFor d host). fold (requestFor d host f).
    destruct (generateDocumentation _ _ _ _ _) as [[response|e] w']; [|done].
    by destruct (lineAt _ _).
Qed.

(** [documentFunction] gives up without side effect on the service: when
    no function is found it shows one warning, and when the function is
    documented and the user answers anything but [Replace] (or dismisses
    the question) it has asked one question; either way it returns no
    result, makes no external call and leaves the counters alone. *)
Theorem documentFunction_declined
    (build : DocumentationRequest → jsstring) (svc : Service)
    (d : EditorDocument) (pos : Position) (host : Host) (s : Session) :
  (findFunctionAtPosition (getText d) pos (languageId d) = Ok None →
   documentFunction build svc d pos host s
   = (Ok None,
      {| world := world s;
         events := events s
                   ++ [WarningMessage
                         (js "No function found at cursor position")] |}))
  ∧ (∀ f, findFunctionAtPosition (getText d) pos (languageId d) = Ok (Some f) →
          hasDocumentation (textDocument d) (startLine f) = Ok true →
          answer host (replaceQuestion f) replaceItems ≠ Some (js "Replace") →
          documentFunction build svc d pos host s
          = (Ok None,
             {| world := world s;
                events := events s
                          ++ [Question (replaceQuestion f) replaceItems] |})).
Proof.
  split.
  - intros Hnone. unfold documentFunction, mbind, H_bind, bindH, locator.
    by rewrite Hnone.
  - intros f Hfound Hdoc Hanswer.
    unfold documentFunction, mbind, H_bind, bindH, locator.
    rewrite Hfound, Hdoc. unfold askWarningMessage. fold replaceItems.
    destruct (answer host (replaceQuestion f) replaceItems) as [item|];
      [|done].
    destruct (streq item (js "Replace")) eqn:Hitem; [|done].
    apply streq_true in Hitem as ->. done.
Qed.

Lemma documentFunction_declined_witness :
  documentFunction codeAsPrompt poolService documentedEditorDocument
    {| line := 4; character := 2 |}
    (plainHost (answering addsBlock)) (sessionFrom nearlyExhaustedWorld)
  = (Ok None,
     {| world := nearlyExhaustedWorld;
        events := [Question
                     (js "Function " ++ [34%N] ++ js "add" ++ [34%N]
                      ++ js " already has documentation. Replace it?")
                     [js "Replace"; js "Cancel"]] |}).
Proof.
  apply (proj2 (documentFunction_declined codeAsPrompt poolService
                  documentedEditorDocument {| line := 4; character := 2 |}
                  (plainHost (answering addsBlock))
                  (sessionFrom nearlyExhaustedWorld))
           {| name := js "add"; startLine := 3; endLine := 5;
              parameters := [js "a"; js "b"]; isAsync := false;
              isMethod := false; DocumentationService.code := addDocument |}).
  - vm_compute. reflexivity.
  - vm_compute. reflexivity.
  - discriminate.
Defined.

Lemma documentFunction_succeeds
    (build : DocumentationRequest → jsstring) (svc : Service)
    (d : EditorDocument) (pos : Position) (host : Host) (s : Session)
    (f : ParsedFunction) (asked : bool) (m : GenerativeModel)
    (response lineText : jsstring) :
  findFunctionAtPosition (getText d) pos (languageId d) = Ok (Some f) →
  hasDocumentation (textDocument d) (startLine f) = Ok asked →
  (asked = true →
   answer host (replaceQuestion f) replaceItems = Some (js "Replace")) →
  model svc = Some m →
  (storedDate (world s) = today (serviceEnv host) →
   (todayCount (world s) < limitOf svc)%Z) →
  generateContent (serviceEnv host) m (build (requestFor d host f))
  = Ok response →
  lineAt (textDocument d) (startLine f) = Ok lineText →
  ∃ r s',
    documentFunction build svc d pos host s = (Ok (Some r), s')
    ∧ position r = {| line := startLine f; character := 0 |}
    ∧ functionName r = name f
    ∧ documentation r
      = join [LF] ((λ l, leadingWhiteSpace lineText ++ l)
                   <$> split LF (cleanDocumentation response (styleFor d host)))
    ∧ leadingWhiteSpace lineText ++ trimStart lineText = lineText
    ∧ calls (world s') = calls (world s) ++ [build (requestFor d host f)]
    ∧ totalCount (world s') = (totalCount (world s) + 1)%Z
    ∧ countOn (today (serviceEnv host)) (world s')
      = (countOn (today (serviceEnv host)) (world s) + 1)%Z.
Proof.
  intros Hfound Hdoc Hanswer Hm Hroom Hresponse Hline.
  rewrite (documentFunction_proceeds build svc d pos host s f asked
             Hfound Hdoc Hanswer).
  cbn zeta.
  set (s0 := if asked then emit _ s else s).
  assert (world s0 = world s) as Hw by (unfold s0; by destruct asked).
  rewrite Hw, Hline.
  pose proof (generate_step build svc (Document (requestFor d host f))
                (serviceEnv host) (world s)) as Hstep.
  cbn [generate promptOf] in Hstep.
  rewrite generateDocumentation_run in Hstep |- *.
  rewrite Hm, Hresponse in Hstep |- *.
  replace (streq (storedDate (world s)) (today (serviceEnv host))
           && negb (todayCount (world s) <? limitOf svc)%Z)
    with false in Hstep |- *.
  - destruct Hstep as (_ & Hcount & Htotal & Hcalls).
    eexists _, _. split; [reflexivity|]. cbn [position functionName documentation world].
    split; [done|]. split; [done|].
    split; [apply indentDocumentation_join|].
    split; [apply leadingWhiteSpace_trimStart|]. done.
  - symmetry.
    destruct (streq (storedDate (world s)) (today (serviceEnv host))) eqn:Hd;
      [|done].
    apply streq_true in Hd. cbn [andb]. apply negb_false_iff.
    by apply Z.ltb_lt, Hroom.
Qed.

(** [documentFunction] when everything goes well: the function is found,
    it is not documented or the user answers [Replace], the service has a
    model and room under the limit, the external call answers and the
    function's line exists.  Then the result is placed at column 0 of the
    function's start line and carries its name; its text is the lines of
    the cleaned response, each after the leading white space of the
    function's line, joined by line feeds; exactly one external call is made, with the prompt
    for the function's code and the settled style, and one is added to
    today's count and to the total. *)
Theorem documentFunction_generates
    (build : DocumentationRequest → jsstring) (svc : Service)
    (d : EditorDocument) (pos : Position) (host : Host) (s : Session)
    (f : ParsedFunction) (asked : bool) (m : GenerativeModel)
    (response lineText : jsstring) :
  findFunctionAtPosition (getText d) pos (languageId d) = Ok (Some f) →
  hasDocumentation (textDocument d) (startLine f) = Ok asked →
  (asked = true →
   answer host (replaceQuestion f) replaceItems = Some (js "Replace")) →
  model svc = Some m →
  (storedDate (world s) = today (serviceEnv host) →
   (todayCount (world s) < limitOf svc)%Z) →
  generateContent (serviceEnv host) m (build (requestFor d host f))
  = Ok response →
  lineAt (textDocument d) (startLine f) = Ok lineText →
  ∃ r s',
    documentFunction build svc d pos host s = (Ok (Some r), s')
    ∧ position r = {| line := startLine f; character := 0 |}
    ∧ functionName r = name f
    ∧ documentation r
      = join [LF] ((λ l, leadingWhiteSpace lineText ++ l)
                   <$> split LF (cleanDocumentation response (styleFor d host)))
    ∧ leadingWhiteSpace lineText ++ trimStart lineText = lineText
    ∧ calls (world s') = calls (world s) ++ [build (requestFor d host f)]
    ∧ totalCount (world s') = (totalCount (world s) + 1)%Z
    ∧ countOn (today (serviceEnv host)) (world s')
      = (countOn (today (serviceEnv host)) (world s) + 1)%Z.
Proof. apply documentFunction_succeeds. Qed.

Lemma documentFunction_generates_witness :
  ∃ r s',
    documentFunction codeAsPrompt ownKeyService addEditorDocument
      {| line := 1; character := 4 |} (plainHost (answering addsBlock))
      (sessionFrom nearlyExhaustedWorld) = (Ok (Some r), s')
    ∧ position r = {| line := 0; character := 0 |}
    ∧ documentation r = addsBlock
    ∧ calls (world s') = [addDocument]
    ∧ countOn (js "Mon Nov 02 2026") (world s') = 20%Z.
Proof.
  destruct (documentFunction_generates codeAsPrompt ownKeyService
              addEditorDocument {| line := 1; character := 4 |}
              (plainHost (answering addsBlock))
              (sessionFrom nearlyExhaustedWorld) addFunction false
              {| modelKey := js "AIza-own-key"; modelName := js "gemini-pro" |}
              addsBlock (js "function add(a, b) {"))
    as (r & s' & Hrun & Hpos & _ & Hdoc & _ & Hcalls & _ & Hcount).
  - vm_compute. reflexivity.
  - vm_compute. reflexivity.
  - discriminate.
  - reflexivity.
  - intros _. vm_compute. reflexivity.
  - reflexivity.
  - reflexivity.
  - exists r, s'. split; [exact Hrun|]. split; [exact Hpos|].
    split; [rewrite Hdoc; vm_compute; reflexivity|].
    split; [exact Hcalls|exact Hcount].
Defined.

(** One item of a whole-file run: the function is found again at its
    start line and has no documentation, so nothing is asked. *)
Lemma documentFunction_item
    (build : DocumentationRequest → jsstring) (svc : Service)
    (d : EditorDocument) (host : Host) (s : Session) (f : ParsedFunction) :
  findFunctionAtPosition (getText d) {| line := startLine f; character := 0 |}
    (languageId d) = Ok (Some f) →
  hasDocumentation (textDocument d) (startLine f) = Ok false →
  ∃ r s' extra,
    documentFunction build svc d {| line := startLine f; character := 0 |}
      host s = (r, s')
    ∧ events s' = events s
    ∧ calls (world s') = calls (world s) ++ extra
    ∧ length extra ≤ 1
    ∧ (countOn (today (serviceEnv host)) (world s')
       ≤ countOn (today (serviceEnv host)) (world s) + 1)%Z
    ∧ (∀ res, r = Ok (Some res) →
         length extra = 1
         ∧ position res = {| line := startLine f; character := 0 |}
         ∧ functionName res = name f).
Proof.
  intros Hfound Hdoc.
  rewrite (documentFunction_proceeds build svc d _ host s f false Hfound Hdoc)
    by discriminate.
  cbn zeta.
  pose proof (generate_step build svc (Document (requestFor d host f))
                (serviceEnv host) (world s)) as Hstep.
  cbn [generate promptOf] in Hstep.
  destruct (generateDocumentation build svc (requestFor d host f)
              (serviceEnv host) (world s)) as [[response|e] w'].
  - destruct Hstep as (_ & Hcount & _ & Hcalls).
    destruct (lineAt (textDocument d) (startLine f)) as [lineText|e].
    + eexists _, _, _. split; [reflexivity|]. cbn [world events].
      split; [done|]. split; [exact Hcalls|]. split; [done|].
      split; [lia|]. by intros res [= <-].
    + eexists _, _, _. split; [reflexivity|]. cbn [world events].
      split; [done|]. split; [exact Hcalls|]. split; [done|].
      split; [lia|]. done.
  - destruct Hstep as (Hcount & _ & [Hcalls|Hcalls]).
    + eexists _, _, []. split; [reflexivity|]. cbn [world events].
      split; [done|]. split; [by rewrite app_nil_r|]. split; [cbn; lia|].
      split; [lia|]. done.
    + eexists _, _, _. split; [reflexivity|]. cbn [world events].
      split; [done|]. split; [exact Hcalls|]. split; [done|].
      split; [lia|]. done.
Qed.

(** What [filterUndocumented] keeps. *)
Lemma filterUndocumented_kept (document : TextDocument)
    (functions undocumented : list ParsedFunction) :
  filterUndocumented document functions = Ok undocumented →
  undocumented = filter (λ f, undocumentedIn document f = true) functions
  ∧ Forall (λ f, hasDocumentation document (startLine f) = Ok false)
      undocumented.
Proof.
  revert undocumented.
  induction functions as [|f fs IH]; intros undocumented; cbn [filterUndocumented].
  - by intros [= <-].
  - destruct (hasDocumentation document (startLine f)) as [documented|e] eqn:Hf;
      [|done].
    destruct (filterUndocumented document fs) as [kept|e]; [|done].
    destruct (IH kept eq_refl) as (Hkept & Hall).
    assert (undocumentedIn document f = negb documented) as Hun.
    { unfold undocumentedIn. rewrite Hf. by destruct documented. }
    intros [= <-]. rewrite filter_cons.
    destruct documented; cbn [negb] in *.
    + rewrite decide_False by (rewrite Hun; done). done.
    + rewrite decide_True by done. split; [by f_equal|]. by constructor.
Qed.

(** In a document whose lines are the pieces of its text, the filter does
    not throw. *)
Lemma filterUndocumented_total (document : TextDocument)
    (functions : list ParsedFunction) :
  Forall (λ f, startLine f < length (lineTexts document)) functions →
  ∃ undocumented, filterUndocumented document functions = Ok undocumented.
Proof.
  induction 1 as [|f fs Hf _ (kept & IH)]; cbn [filterUndocumented];
    [by eexists|].
  assert (∃ b, hasDocumentation document (startLine f) = Ok b) as [b ->].
  { unfold hasDocumentation, lineAt. destruct (startLine f) as [|n];
      [by eexists|].
    destruct (lookup_lt_is_Some_2 (lineTexts document) (S n - 1) ltac:(lia))
      as [t ->]. by eexists. }
  rewrite IH. by eexists.
Qed.

(** The loop of [documentFile] over functions that are found again at
    their start lines and have no documentation. *)
Lemma documentLoop_run
    (build : DocumentationRequest → jsstring) (svc : Service)
    (d : EditorDocument) (hosts : nat → Host) (cancel : nat → bool)
    (total : nat) (rest : list ParsedFunction) (i : nat)
    (results : list DocumentationResult) (s : Session) :
  Forall (λ f, findFunctionAtPosition (getText d)
                 {| line := startLine f; character := 0 |} (languageId d)
               = Ok (Some f)
               ∧ hasDocumentation (textDocument d) (startLine f) = Ok false)
    rest →
  ∃ added s' new extra,
    documentLoop build svc d hosts cancel total rest i results s
    = (results ++ added, s')
    ∧ events s' = events s ++ new
    ∧ Forall (λ ev, isQuestion ev = false) new
    ∧ calls (world s') = calls (world s) ++ extra
    ∧ length added ≤ length extra ≤ length rest
    ∧ (insertionLine <$> added) `sublist_of` (startLine <$> rest)
    ∧ Forall (λ r, character (position r) = 0) added.
Proof.
  intros Hrest. revert i results s.
  induction Hrest as [|f rest [Hfound Hdoc] _ IH]; intros i results s.
  - exists [], s, [], []. cbn [documentLoop]. rewrite !app_nil_r.
    repeat split; done.
  - cbn [documentLoop]. destruct (cancel i).
    { exists [], s, [], []. rewrite !app_nil_r.
      repeat split; try done; try (cbn; lia). apply sublist_nil_l. }
    set (s1 := emit _ s).
    destruct (documentFunction_item build svc d (hosts i) s1 f Hfound Hdoc)
      as (r & s2 & extra1 & Hrun & Hev & Hcalls & Hone & _ & Hres).
    rewrite Hrun.
    destruct r as [[res|]|e].
    + destruct (Hres res eq_refl) as (Hlen & Hpos & _).
      destruct (IH (S i) (results ++ [res]) (emit (Delay 500) s2))
        as (added & s' & new & extra & -> & Hev' & Hq & Hcalls' & Hlens & Hsub & Hcol).
      exists (res :: added), s', (ProgressReport (progressMessage f i total)
                                   {| dividend := 100; divisor := total |}
                                 :: Delay 500 :: new), (extra1 ++ extra).
      split; [by rewrite <- app_assoc|].
      split; [rewrite Hev'; cbn [emit events]; rewrite Hev; unfold s1;
              cbn [emit events]; by rewrite <- !app_assoc|].
      split; [by repeat constructor|].
      split; [rewrite Hcalls'; cbn [emit world]; rewrite Hcalls; unfold s1;
              cbn [emit world]; by rewrite <- app_assoc|].
      split; [rewrite length_app; cbn [length]; lia|].
      split; [cbn [fmap list_fmap]; unfold insertionLine at 1; rewrite Hpos;
              by apply sublist_skip|].
      constructor; [by rewrite Hpos|done].
    + destruct (IH (S i) results (emit (Delay 500) s2))
        as (added & s' & new & extra & -> & Hev' & Hq & Hcalls' & Hlens & Hsub & Hcol).
      exists added, s', (ProgressReport (progressMessage f i total)
                           {| dividend := 100; divisor := total |}
                         :: Delay 500 :: new), (extra1 ++ extra).
      split; [done|].
      split; [rewrite Hev'; cbn [emit events]; rewrite Hev; unfold s1;
              cbn [emit events]; by rewrite <- !app_assoc|].
      split; [by repeat constructor|].
      split; [rewrite Hcalls'; cbn [emit world]; rewrite Hcalls; unfold s1;
              cbn [emit world]; by rewrite <- app_assoc|].
      split; [rewrite length_app; cbn [length]; lia|].
      split; [cbn [fmap list_fmap]; by apply sublist_cons|done].
    + set (s3 := emit (ConsoleError _ _) s2).
      destruct (IH (S i) results (emit (Delay 500) s3))
        as (added & s' & new & extra & -> & Hev' & Hq & Hcalls' & Hlens & Hsub & Hcol).
      exists added, s', (ProgressReport (progressMessage f i total)
                           {| dividend := 100; divisor := total |}
                         :: ConsoleError (js "Failed to document " ++ name f
                                          ++ js ":") e
                         :: Delay 500 :: new), (extra1 ++ extra).
      split; [done|].
      split; [rewrite Hev'; unfold s3; cbn [emit events]; rewrite Hev; unfold s1;
              cbn [emit events]; by rewrite <- !app_assoc|].
      split; [by repeat constructor|].
      split; [rewrite Hcalls'; unfold s3; cbn [emit world]; rewrite Hcalls;
              unfold s1; cbn [emit world]; by rewrite <- app_assoc|].
      split; [rewrite length_app; cbn [length]; lia|].
      split; [cbn [fmap list_fmap]; by apply sublist_cons|done].
Qed.

(** The functions [documentFile] works on are found again at their start
    lines and have no documentation. *)
Lemma undocumented_items (d : EditorDocument)
    (functions undocumented : list ParsedFunction) :
  findAllFunctions (getText d) (languageId d) = Ok functions →
  filterUndocumented (textDocument d) functions = Ok undocumented →
  undocumented `sublist_of` functions
  ∧ Forall (λ f, findFunctionAtPosition (getText d)
                   {| line := startLine f; character := 0 |} (languageId d)
                 = Ok (Some f)
                 ∧ hasDocumentation (textDocument d) (startLine f) = Ok false)
      undocumented.
Proof.
  intros Hall Hfilter.
  destruct (filterUndocumented_kept _ _ _ Hfilter) as (Hkept & Hundoc).
  split; [rewrite Hkept; apply sublist_filter|].
  apply Forall_forall. intros f Hf. split.
  - apply (findAllFunctions_member _ _ _ f Hall).
    rewrite Hkept in Hf. by apply list_elem_of_filter in Hf as [_ Hf].
  - rewrite Forall_forall in Hundoc. by apply Hundoc.
Qed.

Lemma sublist_sorted (l k : list nat) :
  l `sublist_of` k → StronglySorted lt k → StronglySorted lt l.
Proof.
  induction 1 as [|x l1 l2 Hl IH|x l1 l2 Hl IH]; intros Hk.
  - constructor.
  - apply StronglySorted_inv in Hk as [Hk Hx].
    constructor; [by apply IH|].
    apply Forall_forall. intros y Hy. rewrite Forall_forall in Hx.
    apply Hx. by eapply elem_of_sublist.
  - apply StronglySorted_inv in Hk as [Hk _]. by apply IH.
Qed.

(** A whole-file run.  [documentFile] throws only what the locator throws,
    never an error of the generation service: those are caught item by
    item.  It never asks the user a question.  The results it returns are
    placed at column 0 of start lines of functions of the file, in the
    order of the file and without repetition; each result has cost one
    external call, and there is at most one external call for each function
    of the file. *)
Theorem documentFile_batch
    (build : DocumentationRequest → jsstring) (svc : Service)
    (d : EditorDocument) (hosts : nat → Host) (cancel : nat → bool)
    (s : Session) :
  ∃ outcome s' new extra,
    documentFile build svc d hosts cancel s = (outcome, s')
    ∧ events s' = events s ++ new
    ∧ Forall (λ ev, isQuestion ev = false) new
    ∧ calls (world s') = calls (world s) ++ extra
    ∧ (∀ e, outcome ≠ Throw (ServiceError e))
    ∧ (∀ results, outcome = Ok results →
         ∃ functions,
           findAllFunctions (getText d) (languageId d) = Ok functions
           ∧ (insertionLine <$> results) `sublist_of` (startLine <$> functions)
           ∧ StronglySorted lt (insertionLine <$> results)
           ∧ Forall (λ r, character (position r) = 0) results
           ∧ length results ≤ length extra ≤ length functions).
Proof.
  unfold documentFile.
  destruct (findAllFunctions (getText d) (languageId d)) as [functions|e]
    eqn:Hall.
  2:{ exists (Throw (LocatorError e)), s, [], []. rewrite !app_nil_r.
      repeat split; done. }
  assert (StronglySorted lt (startLine <$> functions)) as Hsorted.
  { unfold findAllFunctions in Hall.
    destruct (getFunctionPatterns (languageId d)) as [patterns|] eqn:Hpat.
    - destruct (allFrom_spec (split LF (getText d)) (languageId d) patterns
                  (length (split LF (getText d))) 0 eq_refl)
        as (fs & Hfs & Hstarts & _).
      rewrite Hfs in Hall. injection Hall as <-. rewrite Hstarts.
      apply matchingFrom_sorted.
    - destruct (split_cons LF (getText d)) as (p & ps & Hsplit).
      rewrite Hsplit in Hall. by cbn in Hall. }
  destruct (length functions =? 0).
  { eexists (Ok []), _, [_], []. split; [reflexivity|].
    rewrite !app_nil_r. repeat split; try done; [by repeat constructor|].
    intros results [= <-]. exists functions.
    repeat split; try done; try (cbn; lia);
      [apply sublist_nil_l|constructor]. }
  destruct (filterUndocumented (textDocument d) functions)
    as [undocumented|e] eqn:Hfilter.
  2:{ exists (Throw (LocatorError e)), s, [], []. rewrite !app_nil_r.
      repeat split; done. }
  destruct (length undocumented =? 0).
  { eexists (Ok []), _, [_], []. split; [reflexivity|].
    rewrite !app_nil_r. repeat split; try done; [by repeat constructor|].
    intros results [= <-]. exists functions.
    repeat split; try done; try (cbn; lia);
      [apply sublist_nil_l|constructor]. }
  destruct (undocumented_items d functions undocumented Hall Hfilter)
    as (Hsub & Hitems).
  destruct (documentLoop_run build svc d hosts cancel (length undocumented)
              undocumented 0 [] s Hitems)
    as (added & s' & new & extra & Hloop & Hev & Hq & Hcalls & Hlens & Hlines
        & Hcol).
  rewrite Hloop. cbn [app].
  exists (Ok added), s', new, extra.
  split; [done|]. split; [done|]. split; [done|]. split; [done|].
  split; [done|]. intros results [= <-]. exists functions.
  assert ((insertionLine <$> added) `sublist_of` (startLine <$> functions))
    as Hall_sub.
  { etrans; [exact Hlines|]. by apply fmap_sublist. }
  split; [done|]. split; [done|]. split; [by eapply sublist_sorted|].
  split; [done|]. apply sublist_length in Hsub. lia.
Qed.

(** In a document whose lines are the pieces of its text, the functions
    of the file start inside it. *)
Lemma findAllFunctions_inside (d : EditorDocument)
    (functions : list ParsedFunction) :
  lineFeedDocument d →
  findAllFunctions (getText d) (languageId d) = Ok functions →
  Forall (λ f, startLine f < length (lineTexts (textDocument d))) functions.
Proof.
  intros Hlf Hall. apply Forall_forall. intros f Hf.
  destruct (findAllFunctions_member _ _ _ f Hall Hf) as (Hin & _).
  rewrite Hlf. lia.
Qed.

(** The loop when the service refuses every request and leaves the world
    as it is. *)
Lemma documentLoop_refused
    (build : DocumentationRequest → jsstring) (svc : Service)
    (d : EditorDocument) (hosts : nat → Host) (cancel : nat → bool)
    (total : nat) (rest : list ParsedFunction) (i : nat)
    (results : list DocumentationResult) (s : Session) :
  Forall (λ f, findFunctionAtPosition (getText d)
                 {| line := startLine f; character := 0 |} (languageId d)
               = Ok (Some f)
               ∧ hasDocumentation (textDocument d) (startLine f) = Ok false)
    rest →
  (∀ j request, ∃ e,
      generateDocumentation build svc request (serviceEnv (hosts j)) (world s)
      = (Throw e, world s)) →
  ∃ s', documentLoop build svc d hosts cancel total rest i results s
        = (results, s')
        ∧ world s' = world s.
Proof.
  intros Hrest. revert i results s.
  induction Hrest as [|f rest [Hfound Hdoc] _ IH]; intros i results s Hrefuse.
  - by exists s.
  - cbn [documentLoop]. destruct (cancel i); [by exists s|].
    rewrite (documentFunction_proceeds build svc d _ (hosts i) _ f false
               Hfound Hdoc) by discriminate.
    cbn zeta. cbn [emit world].
    destruct (Hrefuse i (requestFor d (hosts i) f)) as [e ->].
    cbn [emit world events].
    match goal with |- context [documentLoop _ _ _ _ _ _ _ _ _ ?s1] =>
      destruct (IH (S i) results s1) as (s' & Hloop & Hworld);
        [intros j request; apply Hrefuse|]
    end.
    by exists s'.
Qed.

(** A whole-file run that the service refuses: without a model, or with
    today's count at the limit, [documentFile] does not throw; it returns
    the empty list, makes no external call and leaves the counters alone.
    The refusals go to the error console only. *)
Theorem documentFile_refused
    (build : DocumentationRequest → jsstring) (svc : Service)
    (d : EditorDocument) (hosts : nat → Host) (cancel : nat → bool)
    (s : Session) (patterns : list regex) :
  getFunctionPatterns (languageId d) = Some patterns →
  lineFeedDocument d →
  (model svc = None
   ∨ (∀ i, today (serviceEnv (hosts i)) = storedDate (world s))
     ∧ (limitOf svc ≤ todayCount (world s))%Z) →
  ∃ s',
    documentFile build svc d hosts cancel s = (Ok [], s')
    ∧ world s' = world s.
Proof.
  intros Hpat Hlf Hrefuse.
  assert (∀ j request, ∃ e,
            generateDocumentation build svc request (serviceEnv (hosts j))
              (world s) = (Throw e, world s)) as Hthrows.
  { intros j request. rewrite generateDocumentation_run.
    destruct Hrefuse as [->|[Hdate Hfull]]; [by eexists|].
    destruct (model svc) as [m|]; [|by eexists].
    rewrite (proj2 (streq_true _ _) (eq_sym (Hdate j))).
    replace (todayCount (world s) <? limitOf svc)%Z with false
      by (symmetry; by apply Z.ltb_ge).
    by eexists. }
  unfold documentFile.
  destruct (allFrom_spec (split LF (getText d)) (languageId d) patterns
              (length (split LF (getText d))) 0 eq_refl)
    as (functions & Hall & _).
  assert (findAllFunctions (getText d) (languageId d) = Ok functions)
    as Hall' by (unfold findAllFunctions; by rewrite Hpat).
  rewrite Hall'.
  destruct (length functions =? 0); [by eexists|].
  destruct (filterUndocumented_total (textDocument d) functions
              (findAllFunctions_inside d functions Hlf Hall'))
    as (undocumented & Hfilter).
  rewrite Hfilter.
  destruct (length undocumented =? 0); [by eexists|].
  destruct (undocumented_items d functions undocumented Hall' Hfilter)
    as (_ & Hitems).
  destruct (documentLoop_refused build svc d hosts cancel (length undocumented)
              undocumented 0 [] s Hitems Hthrows) as (s' & Hloop & Hworld).
  rewrite Hloop. by exists s'.
Qed.

Lemma documentFile_refused_witness :
  ∃ s',
    documentFile codeAsPrompt poolService addEditorDocument
      (λ _, plainHost (answering addsBlock)) (λ _, false)
      (sessionFrom exhaustedWorld) = (Ok [], s')
    ∧ world s' = exhaustedWorld.
Proof.
  apply (documentFile_refused codeAsPrompt poolService addEditorDocument
           (λ _, plainHost (answering addsBlock)) (λ _, false)
           (sessionFrom exhaustedWorld)
           (default [] (getFunctionPatterns (js "javascript")))).
  - reflexivity.
  - reflexivity.
  - right. split; [intros _; reflexivity|]. vm_compute. discriminate.
Defined.

(** The loop when every item goes well. *)
Lemma documentLoop_all
    (build : DocumentationRequest → jsstring) (svc : Service)
    (d : EditorDocument) (hosts : nat → Host) (cancel : nat → bool)
    (total : nat) (m : GenerativeModel) (date : jsstring)
    (rest : list ParsedFunction) :
  Forall (λ f, findFunctionAtPosition (getText d)
                 {| line := startLine f; character := 0 |} (languageId d)
               = Ok (Some f)
               ∧ hasDocumentation (textDocument d) (startLine f) = Ok false)
    rest →
  Forall (λ f, startLine f < length (lineTexts (textDocument d))) rest →
  model svc = Some m →
  (∀ j, today (serviceEnv (hosts j)) = date) →
  (∀ j prompt, ∃ response,
      generateContent (serviceEnv (hosts j)) m prompt = Ok response) →
  (∀ j, cancel j = false) →
  ∀ (i : nat) (results : list DocumentationResult) (s : Session),
    (countOn date (world s) + Z.of_nat (length rest) ≤ limitOf svc)%Z →
    ∃ added s',
      documentLoop build svc d hosts cancel total rest i results s
      = (results ++ added, s')
      ∧ position <$> added
        = (λ f, {| line := startLine f; character := 0 |}) <$> rest
      ∧ functionName <$> added = name <$> rest
      ∧ countOn date (world s')
        = (countOn date (world s) + Z.of_nat (length rest))%Z
      ∧ totalCount (world s')
        = (totalCount (world s) + Z.of_nat (length rest))%Z
      ∧ length (calls (world s')) = length (calls (world s)) + length rest.
Proof.
  intros Hrest Hinside Hm Hdate Hanswers Hcancel.
  induction Hrest as [|f rest [Hfound Hdoc] _ IH]; intros i results s Hroom.
  - exists [], s. cbn [documentLoop length]. rewrite app_nil_r.
    repeat split; try done; cbn; lia.
  - apply Forall_cons in Hinside as [Hf Hinside].
    cbn [documentLoop]. rewrite Hcancel.
    set (s1 := emit _ s).
    destruct (lookup_lt_is_Some_2 _ _ Hf) as [lineText Hline].
    destruct (Hanswers i (build (requestFor d (hosts i) f)))
      as [response Hresponse].
    destruct (documentFunction_succeeds build svc d
                {| line := startLine f; character := 0 |} (hosts i) s1 f false
                m response lineText Hfound Hdoc)
      as (r & s2 & Hrun & Hpos & Hname & _ & _ & Hcalls & Htotal & Hcount);
      [discriminate|exact Hm| |exact Hresponse
      |by unfold lineAt; rewrite Hline|].
    { rewrite Hdate. unfold s1. cbn [emit world]. intros Hsame.
      unfold countOn in Hroom. rewrite (proj2 (streq_true _ _) Hsame) in Hroom.
      cbn [length] in Hroom. lia. }
    rewrite Hrun. rewrite Hdate in Hcount.
    unfold s1 in Hcalls, Htotal, Hcount. cbn [emit world] in Hcalls, Htotal, Hcount.
    destruct (IH Hinside (S i) (results ++ [r]) (emit (Delay 500) s2))
      as (added & s' & -> & Hposs & Hnames & Hcount' & Htotal' & Hcalls').
    { cbn [emit world]. rewrite Hcount. cbn [length] in Hroom. lia. }
    cbn [emit world] in Hcount', Htotal', Hcalls'.
    exists (r :: added), s'. split; [by rewrite <- app_assoc|].
    split; [cbn [fmap list_fmap]; by rewrite Hpos, <- Hposs|].
    split; [cbn [fmap list_fmap]; by rewrite Hname, <- Hnames|].
    split; [rewrite Hcount', Hcount; cbn [length]; lia|].
    split; [rewrite Htotal', Htotal; cbn [length]; lia|].
    rewrite Hcalls', Hcalls, length_app. cbn [length]. lia.
Qed.

(** A whole-file run in which all goes well: the document's lines are the
    pieces of its text, the service has a model, the date does not change
    during the run, the external call always answers, nobody cancels, and
    today's count leaves room for one request for each function of the
    file.  Then [documentFile] returns one result for each function of the
    file that has no documentation before it, in the order of the file,
    each at column 0 of the function's start line and under its name, and
    one is added to both counts for each result. *)
Theorem documentFile_all
    (build : DocumentationRequest → jsstring) (svc : Service)
    (d : EditorDocument) (hosts : nat → Host) (cancel : nat → bool)
    (s : Session) (patterns : list regex) (m : GenerativeModel)
    (date : jsstring) :
  getFunctionPatterns (languageId d) = Some patterns →
  lineFeedDocument d →
  model svc = Some m →
  (∀ j, today (serviceEnv (hosts j)) = date) →
  (∀ j prompt, ∃ response,
      generateContent (serviceEnv (hosts j)) m prompt = Ok response) →
  (∀ j, cancel j = false) →
  (countOn date (world s)
   + Z.of_nat (length (matchingLines patterns (split LF (getText d))))
   ≤ limitOf svc)%Z →
  ∃ functions results s',
    findAllFunctions (getText d) (languageId d) = Ok functions
    ∧ documentFile build svc d hosts cancel s = (Ok results, s')
    ∧ position <$> results
      = (λ f, {| line := startLine f; character := 0 |})
        <$> filter (λ f, undocumentedIn (textDocument d) f = true) functions
    ∧ functionName <$> results
      = name <$> filter (λ f, undocumentedIn (textDocument d) f = true)
                   functions
    ∧ countOn date (world s')
      = (countOn date (world s) + Z.of_nat (length results))%Z
    ∧ totalCount (world s')
      = (totalCount (world s) + Z.of_nat (length results))%Z
    ∧ length (calls (world s')) = length (calls (world s)) + length results.
Proof.
  intros Hpat Hlf Hm Hdate Hanswers Hcancel Hroom.
  destruct (allFrom_spec (split LF (getText d)) (languageId d) patterns
              (length (split LF (getText d))) 0 eq_refl)
    as (functions & Hall & Hstarts & _).
  rewrite drop_0 in Hstarts.
  fold (matchingLines patterns (split LF (getText d))) in Hstarts.
  assert (findAllFunctions (getText d) (languageId d) = Ok functions)
    as Hall' by (unfold findAllFunctions; by rewrite Hpat).
  exists functions. unfold documentFile. rewrite Hall'.
  pose proof (findAllFunctions_inside d functions Hlf Hall') as Hinside.
  destruct (filterUndocumented_total (textDocument d) functions Hinside)
    as (undocumented & Hfilter).
  destruct (filterUndocumented_kept _ _ _ Hfilter) as (Hkept & _).
  destruct (undocumented_items d functions undocumented Hall' Hfilter)
    as (Hsub & Hitems).
  rewrite <- Hkept.
  destruct (length functions =? 0) eqn:Hnone.
  { apply Nat.eqb_eq in Hnone. destruct functions; [|done].
    cbn in Hkept. subst undocumented.
    eexists [], _. split; [done|]. split; [done|].
    cbn [emit world length]. repeat split; try done; lia. }
  rewrite Hfilter.
  destruct (length undocumented =? 0) eqn:Hnone'.
  { apply Nat.eqb_eq in Hnone'. destruct undocumented; [|done].
    eexists [], _. split; [done|]. split; [done|].
    cbn [emit world length]. repeat split; try done; lia. }
  assert (Forall (λ f, startLine f < length (lineTexts (textDocument d)))
            undocumented) as Hinside'.
  { eapply Forall_forall. intros f Hf. rewrite Forall_forall in Hinside.
    apply Hinside. by eapply elem_of_sublist. }
  assert (countOn date (world s) + Z.of_nat (length undocumented)
          ≤ limitOf svc)%Z as Hroom'.
  { apply sublist_length in Hsub.
    rewrite <- Hstarts, length_fmap in Hroom. lia. }
  destruct (documentLoop_all build svc d hosts cancel (length undocumented)
              m date undocumented Hitems Hinside' Hm Hdate Hanswers Hcancel
              0 [] s Hroom')
    as (added & s' & Hloop & Hposs & Hnames & Hcount & Htotal & Hcalls).
  rewrite Hloop. cbn [app].
  assert (length added = length undocumented) as Hlen.
  { by rewrite <- (length_fmap position added), Hposs, length_fmap. }
  exists added, s'. rewrite Hlen. by repeat split.
Qed.

Lemma documentFile_all_witness :
  ∃ results s',
    documentFile codeAsPrompt ownKeyService addEditorDocument
      (λ _, plainHost (answering addsBlock)) (λ _, false)
      (sessionFrom nearlyExhaustedWorld) = (Ok results, s')
    ∧ position <$> results = [{| line := 0; character := 0 |}]
    ∧ functionName <$> results = [js "add"]
    ∧ totalCount (world s') = 57%Z.
Proof.
  destruct (documentFile_all codeAsPrompt ownKeyService addEditorDocument
              (λ _, plainHost (answering addsBlock)) (λ _, false)
              (sessionFrom nearlyExhaustedWorld)
              (default [] (getFunctionPatterns (js "javascript")))
              {| modelKey := js "AIza-own-key"; modelName := js "gemini-pro" |}
              (js "Mon Nov 02 2026"))
    as (functions & results & s' & Hall & Hrun & Hpos & Hname & _ & Htotal & _).
  - reflexivity.
  - reflexivity.
  - reflexivity.
  - intros j. reflexivity.
  - intros j prompt. by exists addsBlock.
  - intros j. reflexivity.
  - vm_compute. discriminate.
  - assert (functions = [addFunction]) as -> by (by injection Hall as <-).
    exists results, s'. split; [exact Hrun|].
    split; [exact Hpos|]. split; [exact Hname|].
    rewrite Htotal.
    assert (length results = 1) as ->
      by (by rewrite <- (length_fmap position results), Hpos).
    reflexivity.
Defined.




End OrchestratorFacts.

(** ** A fenced response *)

Module FenceFacts.
Import JS RegExp DocumentationService JSFacts RegExpFacts Spec Scenarios.
Import CleanFacts ParameterFacts IndentFacts.

(** A greedy star over a class, before a continuation that cannot fail,
    takes the whole run of the class. *)
Lemma starLoop_class_all (ml : bool) (p : jschar → bool)
    (k : mstate → option mstate) (fuel : nat) (bef aft : jsstring)
    (cap : option jsstring) :
  (∀ st, is_Some (k st)) →
  length aft < fuel →
  ∃ bef', starLoop (rmatch ml (RClass p)) k fuel (MState bef aft cap)
          = k (MState bef' (skipWhile p aft) cap).
Proof.
  intros Hk. revert bef aft.
  induction fuel as [|fuel IH]; intros bef aft Hlen; [lia|].
  rewrite starLoop_S, rmatch_RClass. cbn [after before capture].
  destruct aft as [|d rest]; [by exists bef|].
  cbn [skipWhile]. destruct (p d); [|by exists bef].
  replace (length rest <? length (d :: rest)) with true
    by (symmetry; apply Nat.ltb_lt; simpl; lia).
  destruct (IH (d :: bef) rest ltac:(simpl in Hlen; lia)) as [bef' Hbef'].
  exists bef'. rewrite Hbef'.
  by destruct (Hk (MState bef' (skipWhile p rest) cap)) as [res ->].
Qed.

(** A global replacement copies the units before the first place where a
    match could start. *)
Lemma replace_loop_skip (ml : bool) (r : regex) (c0 : jschar)
    (p replacement : jsstring) (pre tail : jsstring) :
  (∀ st res, match_here ml r st = Some res → (c0 :: p) `prefix_of` after st) →
  c0 ∉ pre →
  ∀ fuel bef,
    length (pre ++ tail) < fuel →
    replace_loop ml r replacement fuel bef (pre ++ tail)
    = pre ++ replace_loop ml r replacement (fuel - length pre)
               (reverse pre ++ bef) tail.
Proof.
  intros Hstart. induction pre as [|d pre IH]; intros Hfree fuel bef Hlen.
  - cbn [app length reverse]. by rewrite Nat.sub_0_r.
  - apply not_elem_of_cons in Hfree as [Hd Hfree].
    destruct fuel as [|fuel]; [lia|].
    cbn [app replace_loop].
    destruct (match_here ml r (MState bef (d :: pre ++ tail) None))
      as [res|] eqn:Hm.
    { apply Hstart in Hm as [k Hk]. cbn in Hk. congruence. }
    rewrite IH by (try done; cbn [app length] in Hlen; lia).
    cbn [length]. rewrite reverse_cons, <- app_assoc. done.
Qed.

Lemma replace_loop_S (ml : bool) (r : regex) (replacement : jsstring)
    (fuel : nat) (bef aft : jsstring) :
  replace_loop ml r replacement (S fuel) bef aft
  = match match_here ml r (MState bef aft None) with
    | Some st' =>
        if length (after st') <? length aft
        then replacement ++
             replace_loop ml r replacement fuel (before st') (after st')
        else
          match aft with
          | [] => replacement
          | c :: aft' =>
              replacement ++ c ::
              replace_loop ml r replacement fuel (c :: bef) aft'
          end
    | None =>
        match aft with
        | [] => []
        | c :: aft' => c :: replace_loop ml r replacement fuel (c :: bef) aft'
        end
    end.
Proof. reflexivity. Qed.

(** The opening-fence pattern on a closing fence at the start of a line. *)
Lemma replace_loop_closing (fuel : nat) (bef : jsstring) :
  3 < fuel →
  replace_loop true fenceOpen [] fuel (LF :: bef) (js "```") = [].
Proof.
  intros Hfuel. destruct fuel as [|[|fuel]]; [lia|lia|]. reflexivity.
Qed.

(** The opening-fence pattern at the start of the text. *)
Lemma match_here_fenceOpen (tag rest : jsstring) :
  forallb isWordChar tag = true →
  ∃ bef',
    match_here true fenceOpen
      (MState [] (js "```" ++ tag ++ LF :: rest) None)
    = Some (MState bef' rest None).
Proof.
  intros Htag.
  set (k := λ st1 : mstate,
         rmatch true (RCat [ROpt (RChar LF)]) st1 Some).
  assert (match_here true fenceOpen
            (MState [] (js "```" ++ tag ++ LF :: rest) None)
          = starLoop (rmatch true (RClass isWordChar)) k
              (S (length (tag ++ LF :: rest)))
              (MState (reverse (js "```")) (tag ++ LF :: rest) None)) as ->
    by reflexivity.
  destruct (starLoop_class_all true isWordChar k
              (S (length (tag ++ LF :: rest))) (reverse (js "```"))
              (tag ++ LF :: rest) None) as [bef' ->]; [|lia|].
  - intros st. unfold k. cbn [RCat ROpt rmatch].
    destruct (after st) as [|d t]; [by eexists|].
    destruct (d =? LF)%N; by eexists.
  - rewrite skipWhile_app by done. exists (LF :: bef'). reflexivity.
Qed.

Ltac fence_length :=
  repeat first [rewrite length_app | progress (cbn [length])];
  change (length (js "```")) with 3; lia.

Lemma trim_line_feed (s : jsstring) : trim (s ++ [LF]) = trim s.
Proof.
  unfold trim. destruct (trimStart_split s) as (a & Ha & Hw).
  destruct (trimStart s) as [|d t] eqn:Hs.
  - rewrite app_nil_r in Ha. subst a.
    assert (trimStart (s ++ [LF]) = []) as ->; [|done].
    clear Hs. induction s as [|c s IH]; [done|].
    cbn [forallb] in Hw. apply andb_true_iff in Hw as [Hc Hw].
    cbn [app trimStart]. rewrite Hc. by apply IH.
  - pose proof (trimStart_head s d t Hs) as Hd.
    rewrite Ha at 1. rewrite <- app_assoc. cbn [app].
    assert (trimStart (a ++ d :: t ++ [LF]) = d :: t ++ [LF]) as ->.
    { clear Ha. induction a as [|c a IH]; cbn [app trimStart].
      - by rewrite Hd.
      - cbn [forallb] in Hw. apply andb_true_iff in Hw as [-> Hw]. by apply IH. }
    unfold trimEnd.
    change (d :: t ++ [LF]) with ((d :: t) ++ [LF]).
    by rewrite reverse_snoc.
Qed.

(** A response wrapped in a Markdown fence: an opening fence with a tag
    of word characters (or none), the body on the lines after it, and a
    closing fence on a line of its own.  With no backtick in the body,
    [stripFences] gives the body, trimmed; and for any style but the three
    named ones that is what [cleanDocumentation] returns. *)
Theorem stripFences_fenced (tag body style : jsstring) :
  forallb isWordChar tag = true →
  chr "`" ∉ body →
  stripFences (js "```" ++ tag ++ [LF] ++ body ++ [LF] ++ js "```")
  = trim body
  ∧ (style ≠ js "jsdoc" → style ≠ js "tsdoc" → style ≠ js "javadoc" →
     cleanDocumentation
       (js "```" ++ tag ++ [LF] ++ body ++ [LF] ++ js "```") style
     = trim body).
Proof.
  intros Htag Hbody.
  assert (stripFences (js "```" ++ tag ++ [LF] ++ body ++ [LF] ++ js "```")
          = trim body) as Hstrip.
  { unfold stripFences.
    assert (replace_all true fenceOpen
              (js "```" ++ tag ++ [LF] ++ body ++ [LF] ++ js "```") []
            = body ++ [LF]) as ->.
    { assert (js "```" ++ tag ++ [LF] ++ body ++ [LF] ++ js "```"
              = js "```" ++ tag ++ LF :: ((body ++ [LF]) ++ js "```")) as ->
        by (by rewrite <- !app_assoc).
      unfold replace_all.
      destruct (match_here_fenceOpen tag ((body ++ [LF]) ++ js "```") Htag)
        as [bef' Hopen].
      rewrite (replace_loop_S true fenceOpen), Hopen. cbn [after before].
      replace (length ((body ++ [LF]) ++ js "```")
               <? length (js "```" ++ tag ++ LF :: (body ++ [LF]) ++ js "```"))
        with true
        by (symmetry; apply Nat.ltb_lt; fence_length).
      rewrite app_nil_l.
      rewrite (replace_loop_skip true fenceOpen (chr "`") (js "``") []
                 (body ++ [LF]) (js "```")).
      - rewrite reverse_snoc. cbn [app].
        rewrite replace_loop_closing; [by rewrite app_nil_r|].
        fence_length.
      - intros st res. apply rmatch_RBol_RLit_prefix.
      - rewrite elem_of_app, list_elem_of_singleton. intros [?|?]; done.
      - fence_length. }
    rewrite (replace_all_no_match true fenceClose (js "```") (body ++ [LF]) []).
    - apply trim_line_feed.
    - intros st res. apply rmatch_RLit_seq_prefix.
    - intros (a & b & Hab).
      assert (chr "`" ∈ body ++ [LF]) as Hin.
      { rewrite Hab. rewrite elem_of_app. right. by left. }
      rewrite elem_of_app, list_elem_of_singleton in Hin.
      by destruct Hin. }
  split; [exact Hstrip|]. intros H1 H2 H3.
  by rewrite cleanDocumentation_other.
Qed.

Lemma stripFences_fenced_witness :
  stripFences (js "```" ++ js "python" ++ [LF]
               ++ js "Adds two numbers." ++ [LF] ++ js "```")
  = js "Adds two numbers.".
Proof.
  assert (chr "`" ∉ js "Adds two numbers.") as Hbody
    by (apply (bool_decide_unpack _); vm_compute; exact I).
  exact (proj1 (stripFences_fenced (js "python") (js "Adds two numbers.") []
                  eq_refl Hbody)).
Defined.

End FenceFacts.
